(** * Gitea Remote Repositories: the remote-repository access layer

    A shallow embedding of the URI codec ([src/utils/uriParser.ts]), the
    Gitea API client ([giteaApi/client.ts]), the virtual filesystem provider
    ([src/fs/giteaFileSystemProvider.ts]) and the local repository manager
    ([utils/localRepoManager.ts]), with the properties of the specification
    stated over them; and of the code around them: the setting state
    ([config/settings.ts]), the host validator ([commands/settings.ts]), the
    authentication manager ([auth/authManager.ts]), the status icon and
    label of the repository tree ([tree/repositoryTreeProvider.ts]) and the
    disconnect command ([extension.ts]).

    Conventions.  A JavaScript string is represented by the bytes of its
    UTF-8 encoding ([string]); a [Uint8Array] is a [list Byte.byte]; a [Map]
    is a [gmap].  Asynchronous methods are run sequentially, as the
    specification describes them, in a state-and-exception monad whose state
    holds the object's fields and the log of the calls made to the host
    (network, processes, user interface). *)

From Stdlib Require Import Strings.String Strings.Ascii Strings.Byte.
From Stdlib Require Import NArith ZArith List Lia Bool.
From stdpp Require Import base option gmap strings list pretty.

(** * JavaScript string operations *)

Module JS.

Definition code (c : ascii) : N := N_of_ascii c.

Definition in_range (lo hi : N) (c : ascii) : bool :=
  ((lo <=? code c) && (code c <=? hi))%N.

Definition is_digit (c : ascii) : bool := in_range 48 57 c.
Definition is_upper (c : ascii) : bool := in_range 65 90 c.
Definition is_lower (c : ascii) : bool := in_range 97 122 c.
Definition is_alpha (c : ascii) : bool := is_upper c || is_lower c.
Definition is_alnum (c : ascii) : bool := is_alpha c || is_digit c.

Definition to_lower (c : ascii) : ascii :=
  if is_upper c then ascii_of_N (code c + 32) else c.

(** [s.length === 0] *)
Definition is_empty (s : string) : bool :=
  match s with EmptyString => true | String _ _ => false end.

Fixpoint all_chars (p : ascii -> bool) (s : string) : bool :=
  match s with
  | EmptyString => true
  | String c r => p c && all_chars p r
  end.

Fixpoint any_char (p : ascii -> bool) (s : string) : bool :=
  match s with
  | EmptyString => false
  | String c r => p c || any_char p r
  end.

(** [s.startsWith(p)] *)
Fixpoint startsWith (p s : string) : bool :=
  match p, s with
  | EmptyString, _ => true
  | String _ _, EmptyString => false
  | String a p', String b s' => (a =? b)%char && startsWith p' s'
  end.

(** [s.includes(p)] *)
Fixpoint includes (p s : string) : bool :=
  startsWith p s ||
  match s with
  | EmptyString => false
  | String _ r => includes p r
  end.

(** [s.endsWith(p)] *)
Fixpoint endsWith (p s : string) : bool :=
  String.eqb p s ||
  match s with
  | EmptyString => false
  | String _ r => endsWith p r
  end.

(** [s.slice(n)] and [s.substring(n)] for a constant [n >= 0]. *)
Fixpoint drop (n : nat) (s : string) : string :=
  match n, s with
  | O, _ => s
  | S _, EmptyString => EmptyString
  | S k, String _ r => drop k r
  end.

(** [s.replace(p, '')] with a string pattern: only the first occurrence
    is removed. *)
Fixpoint remove_first (p s : string) : string :=
  if startsWith p s then drop (String.length p) s
  else match s with
       | EmptyString => EmptyString
       | String c r => String c (remove_first p r)
       end.

(** [s.split(d)] for a one-character separator: never the empty list. *)
Fixpoint split (d : ascii) (s : string) : list string :=
  match s with
  | EmptyString => [EmptyString]
  | String c r =>
      if (c =? d)%char then EmptyString :: split d r
      else match split d r with
           | x :: xs => String c x :: xs
           | [] => [String c EmptyString]
           end
  end.

(** [l.join(d)] *)
Fixpoint join (d : string) (l : list string) : string :=
  match l with
  | [] => EmptyString
  | [x] => x
  | x :: xs => x +:+ d +:+ join d xs
  end.

(** The part before the first [d], and the part after it when there is
    one. *)
Fixpoint break_at (d : ascii) (s : string) : string * option string :=
  match s with
  | EmptyString => (EmptyString, None)
  | String c r =>
      if (c =? d)%char then (EmptyString, Some r)
      else let '(a, b) := break_at d r in (String c a, b)
  end.

(** White space removed by [s.trim()], on the ASCII range: TAB, LF, VT,
    FF, CR and SPACE. *)
Definition is_space (c : ascii) : bool :=
  in_range 9 13 c || (code c =? 32)%N.

Fixpoint strip_leading (p : ascii -> bool) (s : string) : string :=
  match s with
  | EmptyString => EmptyString
  | String c r => if p c then strip_leading p r else s
  end.

Fixpoint strip_trailing (p : ascii -> bool) (s : string) : string :=
  match s with
  | EmptyString => EmptyString
  | String c r =>
      let r' := strip_trailing p r in
      if is_empty r' && p c then EmptyString else String c r'
  end.

Definition trim (s : string) : string :=
  strip_trailing is_space (strip_leading is_space s).

Fixpoint concat_map (f : ascii -> string) (s : string) : string :=
  match s with
  | EmptyString => EmptyString
  | String c r => f c +:+ concat_map f r
  end.

Fixpoint filter_chars (p : ascii -> bool) (s : string) : string :=
  match s with
  | EmptyString => EmptyString
  | String c r => if p c then String c (filter_chars p r) else filter_chars p r
  end.

(** [parseInt(s, 10)]: optional white space and sign, then the longest
    run of decimal digits; [None] stands for [NaN]. *)
Fixpoint digits_value (s : string) (acc : Z) : Z :=
  match s with
  | EmptyString => acc
  | String c r =>
      if is_digit c then digits_value r (10 * acc + Z.of_N (code c - 48))%Z
      else acc
  end.

Definition parse_unsigned (s : string) : option Z :=
  match s with
  | String c _ => if is_digit c then Some (digits_value s 0%Z) else None
  | EmptyString => None
  end.

Definition parseInt (s : string) : option Z :=
  match strip_leading is_space s with
  | String "-"%char r => Z.opp <$> parse_unsigned r
  | String "+"%char r => parse_unsigned r
  | t => parse_unsigned t
  end.

(** [s] does not contain the character [d]. *)
Definition lacks (d : ascii) (s : string) : bool :=
  all_chars (fun c => negb (c =? d)%char) s.

(** [f] holds of each of the 256 characters. *)
Definition every_ascii (f : ascii -> bool) : bool :=
  forallb (fun n => f (ascii_of_nat n)) (seq 0 256).

(** No proper, non-empty suffix of [p] is a prefix of [p]. *)
Definition borderless (p : string) : bool :=
  forallb (fun k => negb (startsWith (drop k p) p)) (seq 1 (String.length p - 1)).

End JS.

(** * The platform's [URL] class

    [parseGiteaUri] relies on [new URL(uri)].  This module follows the
    WHATWG URL Standard for absolute URLs without a base.  URLs with a
    special scheme ([http], [https], [ws], [wss], [ftp], [file]) are only
    recognised: [parseGiteaUri] rejects all of them, and their host grammar
    (IDNA, IPv4) is not needed.  User name, password and fragment are parsed
    over but not kept, since nothing reads them. *)

Module URL.
Import JS.

Definition is_c0_or_space (c : ascii) : bool := (code c <=? 32)%N.

Definition is_tab_or_newline (c : ascii) : bool :=
  (code c =? 9)%N || (code c =? 10)%N || (code c =? 13)%N.

Definition is_scheme_char (c : ascii) : bool :=
  is_alnum c || (c =? "+")%char || (c =? "-")%char || (c =? ".")%char.

(** ** Percent-encode sets *)

Definition c0_control_set (c : ascii) : bool :=
  (code c <=? 31)%N || (126 <? code c)%N.

Definition fragment_set (c : ascii) : bool :=
  c0_control_set c || (c =? " ")%char || (code c =? 34)%N ||
  (c =? "<")%char || (c =? ">")%char || (c =? "`")%char.

Definition query_set (c : ascii) : bool :=
  c0_control_set c || (c =? " ")%char || (code c =? 34)%N ||
  (c =? "#")%char || (c =? "<")%char || (c =? ">")%char.

Definition path_set (c : ascii) : bool :=
  query_set c || (c =? "?")%char || (c =? "^")%char || (c =? "`")%char ||
  (c =? "{")%char || (c =? "}")%char.

Definition forbidden_host (c : ascii) : bool :=
  (code c =? 0)%N || is_tab_or_newline c || (c =? " ")%char ||
  (c =? "#")%char || (c =? "/")%char || (c =? ":")%char ||
  (c =? "<")%char || (c =? ">")%char || (c =? "?")%char ||
  (c =? "@")%char || (c =? "[")%char || (code c =? 92)%N ||
  (c =? "]")%char || (c =? "^")%char || (c =? "|")%char.

Definition hex_digit (n : N) : ascii :=
  if (n <? 10)%N then ascii_of_N (48 + n) else ascii_of_N (55 + n).

Definition percent_byte (c : ascii) : string :=
  String "%"%char (String (hex_digit (code c / 16))
             (String (hex_digit (code c mod 16)) EmptyString)).

Definition percent_encode (set : ascii -> bool) (s : string) : string :=
  concat_map (fun c => if set c then percent_byte c else String c EmptyString) s.

Definition hex_value (c : ascii) : option N :=
  if is_digit c then Some (code c - 48)%N
  else if in_range 65 70 c then Some (code c - 55)%N
  else if in_range 97 102 c then Some (code c - 87)%N
  else None.

Fixpoint percent_decode (s : string) : string :=
  match s with
  | EmptyString => EmptyString
  | String c r =>
      if (c =? "%")%char then
        match r with
        | String h (String l r') =>
            match hex_value h, hex_value l with
            | Some a, Some b => String (ascii_of_N (16 * a + b)) (percent_decode r')
            | _, _ => String c (percent_decode r)
            end
        | _ => String c (percent_decode r)
        end
      else String c (percent_decode r)
  end.

(** ** UTF-8 decoding with replacement

    Decoding bytes to a string and representing the string by its UTF-8
    bytes again: well-formed sequences are kept, every maximal ill-formed
    part becomes U+FFFD. *)

Definition replacement : string :=
  String (ascii_of_N 239) (String (ascii_of_N 191) (String (ascii_of_N 189) EmptyString)).

Inductive utf8_state :=
| UStart
| UPending (seen : string) (needed : nat) (lo hi : N).

Definition utf8_lead (b : ascii) : string * utf8_state :=
  let one := String b EmptyString in
  if (code b <=? 127)%N then (one, UStart)
  else if in_range 194 223 b then (EmptyString, UPending one 1 128 191)
  else if in_range 224 239 b then
    (EmptyString,
     UPending one 2 (if (code b =? 224)%N then 160 else 128)%N
                    (if (code b =? 237)%N then 159 else 191)%N)
  else if in_range 240 244 b then
    (EmptyString,
     UPending one 3 (if (code b =? 240)%N then 144 else 128)%N
                    (if (code b =? 244)%N then 143 else 191)%N)
  else (replacement, UStart).

Fixpoint utf8_go (s : string) (st : utf8_state) : string :=
  match s with
  | EmptyString =>
      match st with UStart => EmptyString | UPending _ _ _ _ => replacement end
  | String b r =>
      match st with
      | UStart => let '(out, st') := utf8_lead b in out +:+ utf8_go r st'
      | UPending seen needed lo hi =>
          if in_range lo hi b then
            match needed with
            | S (S k) => utf8_go r (UPending (seen +:+ String b EmptyString) (S k) 128 191)
            | _ => seen +:+ String b (utf8_go r UStart)
            end
          else
            let '(out, st') := utf8_lead b in
            replacement +:+ out +:+ utf8_go r st'
      end
  end.

Definition utf8_decode (s : string) : string := utf8_go s UStart.

(** ** IPv6 literals *)

Fixpoint read_hex (n : nat) (s : string) (acc : N) (len : nat) : N * nat * string :=
  match n, s with
  | S k, String c r =>
      match hex_value c with
      | Some v => read_hex k r (acc * 16 + v)%N (S len)
      | None => (acc, len, s)
      end
  | _, _ => (acc, len, s)
  end.

Fixpoint read_dec_rest (s : string) (acc : N) : option (N * string) :=
  match s with
  | String c r =>
      if is_digit c then
        if (acc =? 0)%N then None
        else let v := (acc * 10 + (code c - 48))%N in
             if (255 <? v)%N then None else read_dec_rest r v
      else Some (acc, s)
  | EmptyString => Some (acc, EmptyString)
  end.

Definition read_dec (s : string) : option (N * string) :=
  match s with
  | String c r => if is_digit c then read_dec_rest r (code c - 48)%N else None
  | EmptyString => None
  end.

Definition after_dot (s : string) : option string :=
  match s with
  | String c r => if (c =? ".")%char then Some r else None
  | EmptyString => None
  end.

(** The dotted-decimal tail of an IPv6 literal, as two 16-bit pieces. *)
Definition ipv4_tail (s : string) : option (N * N) :=
  '(a, r1) ← read_dec s; r1' ← after_dot r1;
  '(b, r2) ← read_dec r1'; r2' ← after_dot r2;
  '(c, r3) ← read_dec r2'; r3' ← after_dot r3;
  '(d, r4) ← read_dec r3';
  if is_empty r4 then Some (a * 256 + b, c * 256 + d)%N else None.

Fixpoint ipv6_loop (fuel : nat) (s : string) (pieces : list N)
    (compress : option nat) : option (list N * option nat) :=
  match s with
  | EmptyString => Some (pieces, compress)
  | String c r =>
      match fuel with
      | O => None
      | S fuel' =>
          if (List.length pieces =? 8)%nat then None
          else if (c =? ":")%char then
            match compress with
            | Some _ => None
            | None => ipv6_loop fuel' r (pieces ++ [0%N]) (Some (S (List.length pieces)))
            end
          else
            let '(value, len, rest) := read_hex 4 s 0%N 0%nat in
            match rest with
            | EmptyString => Some (pieces ++ [value], compress)
            | String d rest' =>
                if (d =? ".")%char then
                  if (len =? 0)%nat then None
                  else if (6 <? length pieces)%nat then None
                  else '(p, q) ← ipv4_tail s; Some (pieces ++ [p; q], compress)
                else if (d =? ":")%char then
                  if is_empty rest' then None
                  else ipv6_loop fuel' rest' (pieces ++ [value]) compress
                else None
            end
      end
  end.

Definition ipv6_parse (s : string) : option (list N) :=
  let start :=
    match s with
    | String c r =>
        if (c =? ":")%char then
          match r with
          | String c' r' =>
              if (c' =? ":")%char then Some (r', [0%N], Some 1%nat) else None
          | EmptyString => None
          end
        else Some (s, [], None)
    | EmptyString => Some (s, [], None)
    end in
  '(rest, pieces0, compress0) ← start;
  '(pieces, compress) ← ipv6_loop (String.length rest) rest pieces0 compress0;
  match compress with
  | Some k =>
      Some (firstn k pieces ++ repeat 0%N (8 - List.length pieces) ++ skipn k pieces)
  | None => if (List.length pieces =? 8)%nat then Some pieces else None
  end.

(** Length of the run of zero pieces at the head of [l]. *)
Fixpoint zero_run (l : list N) : nat :=
  match l with
  | p :: r => if (p =? 0)%N then S (zero_run r) else O
  | [] => O
  end.

(** Start and length of the first longest run of zero pieces. *)
Fixpoint longest_zero_run (l : list N) (i : nat) : nat * nat :=
  match l with
  | [] => (O, O)
  | _ :: r =>
      let here := zero_run l in
      let '(j, best) := longest_zero_run r (S i) in
      if (best <=? here)%nat then (i, here) else (j, best)
  end.

Definition lower_hex_digit (n : N) : ascii :=
  if (n <? 10)%N then ascii_of_N (48 + n) else ascii_of_N (87 + n).

Fixpoint drop_zeros (l : list N) : list N :=
  match l with
  | d :: r => if (d =? 0)%N then drop_zeros r else l
  | [] => []
  end.

Definition hex_piece (p : N) : string :=
  let ds := [(p / 4096) mod 16; (p / 256) mod 16; (p / 16) mod 16]%N in
  let lead := drop_zeros ds in
  fold_right (fun d s => String (lower_hex_digit d) s)
             (String (lower_hex_digit (p mod 16)) EmptyString) lead.

Fixpoint ipv6_pieces (l : list N) (i : nat) (compress : option nat)
    (ignore0 : bool) : string :=
  match l with
  | [] => EmptyString
  | p :: r =>
      if ignore0 && (p =? 0)%N then ipv6_pieces r (S i) compress true
      else if bool_decide (compress = Some i) then
        (if (i =? 0)%nat then "::" else ":") +:+ ipv6_pieces r (S i) compress true
      else
        hex_piece p +:+ (if (i =? 7)%nat then "" else ":") +:+
        ipv6_pieces r (S i) compress false
  end.

Definition ipv6_serialize (pieces : list N) : string :=
  let '(i, n) := longest_zero_run pieces 0 in
  ipv6_pieces pieces 0 (if (1 <? n)%nat then Some i else None) false.

(** ** URL records *)

Inductive host :=
| HostNull
| HostOpaque (h : string)
| HostIPv6 (pieces : list N).

Inductive path :=
| PathOpaque (p : string)
| PathList (segments : list string).

Record t := {
  scheme : string;
  url_host : host;
  port : option N;
  url_path : path;
  query : option string
}.

Inductive parsed :=
| Failure
| Special (scheme : string)
| NonSpecial (u : t).

Definition is_special (scheme : string) : bool :=
  bool_decide (scheme ∈ ["ftp"; "file"; "http"; "https"; "ws"; "wss"]).

(** ** The parser *)

Fixpoint scan_scheme_rest (s : string) : option (string * string) :=
  match s with
  | EmptyString => None
  | String c r =>
      if (c =? ":")%char then Some (EmptyString, r)
      else if is_scheme_char c then
        '(sch, rest) ← scan_scheme_rest r; Some (String (to_lower c) sch, rest)
      else None
  end.

(** Scheme start state and scheme state: the lower-cased scheme and what
    follows its colon. *)
Definition scan_scheme (s : string) : option (string * string) :=
  match s with
  | String c r =>
      if is_alpha c then
        '(sch, rest) ← scan_scheme_rest r; Some (String (to_lower c) sch, rest)
      else None
  | EmptyString => None
  end.

(** Host state: the buffer up to the first colon outside brackets, and
    the port text after it. *)
Fixpoint scan_host (s : string) (inside : bool) : string * option string :=
  match s with
  | EmptyString => (EmptyString, None)
  | String c r =>
      if (c =? ":")%char && negb inside then (EmptyString, Some r)
      else
        let inside' :=
          if (c =? "[")%char then true
          else if (c =? "]")%char then false else inside in
        let '(h, p) := scan_host r inside' in (String c h, p)
  end.

Fixpoint remove_last_char (s : string) : string :=
  match s with
  | EmptyString => EmptyString
  | String c EmptyString => EmptyString
  | String c r => String c (remove_last_char r)
  end.

(** Host parser for a URL that is not special. *)
Definition host_parse (input : string) : option host :=
  if startsWith "[" input then
    if endsWith "]" input then
      HostIPv6 <$> ipv6_parse (remove_last_char (drop 1 input))
    else None
  else if any_char forbidden_host input then None
  else Some (HostOpaque (percent_encode c0_control_set input)).

Fixpoint decimal_value (s : string) (acc : N) : N :=
  match s with
  | EmptyString => acc
  | String c r => decimal_value r (acc * 10 + (code c - 48))%N
  end.

(** Port state. *)
Definition port_parse (p : string) : option (option N) :=
  if all_chars is_digit p then
    if is_empty p then Some None
    else let v := decimal_value p 0%N in
         if (65535 <? v)%N then None else Some (Some v)
  else None.

(** Authority state, host state and port state on the text between the
    two slashes and the next [/], [?], [#] or the end. *)
Definition parse_authority (auth : string) : option (host * option N) :=
  let parts := split "@" auth in
  let hostport := List.last parts EmptyString in
  if (1 <? List.length parts)%nat && is_empty hostport then None
  else
    let '(h, p) := scan_host hostport false in
    match p with
    | Some ptext =>
        if is_empty h then None
        else hh ← host_parse h; pp ← port_parse ptext; Some (hh, pp)
    | None => hh ← host_parse h; Some (hh, None)
    end.

Definition lower_string (s : string) : string :=
  concat_map (fun c => String (to_lower c) EmptyString) s.

Definition is_single_dot (seg : string) : bool :=
  bool_decide (lower_string seg ∈ ["."; "%2e"]).

Definition is_double_dot (seg : string) : bool :=
  bool_decide (lower_string seg ∈ [".."; ".%2e"; "%2e."; "%2e%2e"]).

(** Path state, one [/]-separated piece of the input at a time; the last
    piece is the one ended by [?], [#] or the end of the input. *)
Fixpoint path_state (pieces : list string) (acc : list string) : list string :=
  match pieces with
  | [] => acc
  | piece :: rest =>
      let buffer := percent_encode path_set piece in
      let is_last := match rest with [] => true | _ :: _ => false end in
      let acc' :=
        if is_double_dot buffer then
          (if is_last then removelast acc ++ [EmptyString] else removelast acc)
        else if is_single_dot buffer then
          (if is_last then acc ++ [EmptyString] else acc)
        else acc ++ [buffer] in
      path_state rest acc'
  end.

Definition parse (input : string) : parsed :=
  let s := filter_chars (fun c => negb (is_tab_or_newline c))
             (strip_trailing is_c0_or_space (strip_leading is_c0_or_space input)) in
  match scan_scheme s with
  | None => Failure
  | Some (sch, rest) =>
      if is_special sch then Special sch
      else
        let '(before_fragment, _) := break_at "#" rest in
        let '(hier, q) := break_at "?" before_fragment in
        let qry := percent_encode query_set <$> q in
        if startsWith "//" hier then
          let '(auth, p) := break_at "/" (drop 2 hier) in
          match parse_authority auth with
          | None => Failure
          | Some (h, prt) =>
              NonSpecial
                {| scheme := sch; url_host := h; port := prt;
                   url_path := PathList
                     (path_state (match p with Some p' => split "/" p' | None => [] end) []);
                   query := qry |}
          end
        else if startsWith "/" hier then
          NonSpecial
            {| scheme := sch; url_host := HostNull; port := None;
               url_path := PathList (path_state (split "/" (drop 1 hier)) []);
               query := qry |}
        else
          NonSpecial
            {| scheme := sch; url_host := HostNull; port := None;
               url_path := PathOpaque (percent_encode c0_control_set hier);
               query := qry |}
  end.

(** ** Getters *)

Definition protocol (u : t) : string := scheme u +:+ ":".

Definition hostname (u : t) : string :=
  match url_host u with
  | HostNull => EmptyString
  | HostOpaque h => h
  | HostIPv6 pieces => "[" +:+ ipv6_serialize pieces +:+ "]"
  end.

Definition serialize_path (segments : list string) : string :=
  fold_right (fun seg out => "/" +:+ seg +:+ out) EmptyString segments.

Definition pathname (u : t) : string :=
  match url_path u with
  | PathOpaque p => p
  | PathList segments => serialize_path segments
  end.

(** The [application/x-www-form-urlencoded] parser behind
    [url.searchParams]. *)
Definition plus_to_space (s : string) : string :=
  concat_map (fun c => String (if (c =? "+")%char then " "%char else c) EmptyString) s.

Definition form_decode (s : string) : string :=
  utf8_decode (percent_decode (plus_to_space s)).

Definition urlencoded_parse (q : string) : list (string * string) :=
  flat_map (fun piece =>
              if is_empty piece then []
              else let '(n, v) := break_at "=" piece in
                   [(form_decode n, form_decode (default EmptyString v))])
           (split "&" q).

Fixpoint first_value (name : string) (l : list (string * string)) : option string :=
  match l with
  | [] => None
  | (n, v) :: r => if String.eqb n name then Some v else first_value name r
  end.

(** [url.searchParams.get(name)]; [None] is [null]. *)
Definition searchParams_get (name : string) (u : t) : option string :=
  q ← query u; first_value name (urlencoded_parse q).

End URL.

(** * Errors

    One type for everything the modelled code throws; each constructor
    stands for one [throw] site or one class of platform failure. *)

Inductive uri_failure :=
| InvalidURL                          (* the TypeError of [new URL] *)
| InvalidProtocol (protocol : string) (* [Invalid protocol: .., expected gitea:] *)
| SpecialSchemeURL (scheme : string)  (* a URL with a special scheme: one of the
                                         two failures above, whichever the
                                         platform's parser decides *)
| MissingOwnerRepo.                   (* [requires at least owner and repo] *)

Inductive exn :=
| MalformedAddress (cause : uri_failure)     (* [Failed to parse Gitea URI: ..] *)
| FetchError (name message : string)         (* [fetch] rejected *)
| ApiError (status : Z) (statusText endpoint : string)
                                             (* [API Error [status]: statusText - endpoint] *)
| JsonError                                  (* [response.json()] rejected *)
| TypeError                                  (* property of [null], [.map] of a
                                                non-array, [Buffer.from] of a number *)
| FileContentNotFound                        (* [File content not found] *)
| NoToken (server : string)                  (* [No authentication token found for ..] *)
| ReadFileError (cause : exn)                (* [Failed to read file: ..] *)
| NoPermissions (message : string)           (* [vscode.FileSystemError.NoPermissions] *)
| FileNotFound (uri : string)                (* [vscode.FileSystemError.FileNotFound] *)
| ExecError (message : string).              (* a child process failed *)

Inductive result (A : Type) :=
| Ok (a : A)
| Throw (e : exn).
Arguments Ok {A} a.
Arguments Throw {A} e.

(** * The URI codec ([src/utils/uriParser.ts]) *)

Module UriParser.

Record GiteaUri := {
  server : string;
  owner : string;
  repo : string;
  path : string;
  ref : option string
}.

(** [x || 'HEAD'] for a string or [null]. *)
Definition or_HEAD (x : option string) : string :=
  match x with
  | Some r => if JS.is_empty r then "HEAD" else r
  | None => "HEAD"
  end.

Definition parseGiteaUri (uri : string) : result GiteaUri :=
  match URL.parse uri with
  | URL.Failure => Throw (MalformedAddress InvalidURL)
  | URL.Special sch => Throw (MalformedAddress (SpecialSchemeURL sch))
  | URL.NonSpecial url =>
      if negb (String.eqb (URL.protocol url) "gitea:") then
        Throw (MalformedAddress (InvalidProtocol (URL.protocol url)))
      else
        let server := URL.hostname url in
        let pathname := JS.drop 1 (URL.pathname url) in
        let parts := JS.split "/" pathname in
        if (List.length parts <? 2)%nat then
          Throw (MalformedAddress MissingOwnerRepo)
        else
          let owner := nth 0 parts EmptyString in
          let repo := nth 1 parts EmptyString in
          let path := JS.join "/" (skipn 2 parts) in
          let ref := or_HEAD (URL.searchParams_get "ref" url) in
          Ok {| server := server; owner := owner; repo := repo;
                path := path; ref := Some ref |}
  end.

(** [ref] is [None] when the caller leaves the argument out. *)
Definition createGiteaUri (server owner repo path : string)
    (ref : option string) : string :=
  let ref := default "HEAD" ref in
  let base := "gitea://" +:+ server +:+ "/" +:+ owner +:+ "/" +:+ repo in
  let filePath := if JS.is_empty path then "" else "/" +:+ path in
  let refParam :=
    if negb (JS.is_empty ref) && negb (String.eqb ref "HEAD")
    then "?ref=" +:+ ref else "" in
  base +:+ filePath +:+ refParam.

Definition isGiteaUri (uri : string) : bool :=
  match URL.parse uri with
  | URL.NonSpecial url => String.eqb (URL.protocol url) "gitea:"
  | _ => false
  end.

Definition getServerUrl (server : string) : string :=
  if JS.includes "localhost" server || JS.includes "127.0.0.1" server
  then "http://" +:+ server
  else "https://" +:+ server.

End UriParser.

(** * JSON values and the host environment *)

#[warnings="-register-all"] Inductive json :=
| JNull
| JBool (b : bool)
| JNum (n : Z)
| JStr (s : string)
| JArr (items : list json)
| JObj (fields : list (string * json)).

(** A JavaScript value read from a response: [None] is [undefined]. *)
Definition js_value : Type := option json.

(** The properties this program reads from response data.  None of them
    exists on a string, a number, a boolean or an array. *)
Inductive property :=
| p_content | p_data | p_name | p_type | p_size | p_path | p_download_url.

Definition property_name (p : property) : string :=
  match p with
  | p_content => "content" | p_data => "data" | p_name => "name"
  | p_type => "type" | p_size => "size" | p_path => "path"
  | p_download_url => "download_url"
  end.

(** [JSON.parse] keeps the last of several members with the same name. *)
Fixpoint lookup_last (k : string) (fields : list (string * json)) : js_value :=
  match fields with
  | [] => None
  | (k', v) :: rest =>
      match lookup_last k rest with
      | Some w => Some w
      | None => if String.eqb k' k then Some v else None
      end
  end.

(** [v.p]: a TypeError on [null], [undefined] where the property is
    missing. *)
Definition get_property (v : json) (p : property) : result js_value :=
  match v with
  | JNull => Throw TypeError
  | JObj fields => Ok (lookup_last (property_name p) fields)
  | _ => Ok None
  end.

Definition truthy (v : js_value) : bool :=
  match v with
  | None | Some JNull => false
  | Some (JBool b) => b
  | Some (JNum n) => negb (n =? 0)%Z
  | Some (JStr s) => negb (JS.is_empty s)
  | Some (JArr _) | Some (JObj _) => true
  end.

(** [v === 'dir'] *)
Definition is_dir (v : js_value) : bool :=
  match v with
  | Some (JStr s) => String.eqb s "dir"
  | _ => false
  end.

Inductive http_method := GET | POST | PUT | PATCH | DELETE.

Inductive agent :=
| HttpsAgent (rejectUnauthorized : bool)
| HttpAgent.

Record Request := {
  req_url : string;
  req_method : http_method;
  req_headers : list (string * string);
  req_agent : option agent;
  req_body : option json     (* the value given to [JSON.stringify] *)
}.

Record Response := {
  status : Z;
  statusText : string;
  json_body : option json    (* [None]: [response.json()] rejects *)
}.

(** [response.ok] *)
Definition ok (r : Response) : bool :=
  (200 <=? status r)%Z && (status r <=? 299)%Z.

Inductive FetchOutcome :=
| Rejected (name message : string)   (* the promise rejects with this Error *)
| Responded (r : Response).

(** [vscode.workspace.getConfiguration()]: the settings this program
    reads, [None] where the user has set nothing. *)
Record Configuration := {
  g2r_token : option string;
  g2r_host : option string;
  g2r_trustInsecureCertificates : option bool;
  g2r_enableLogging : option bool
}.

(** What the code asks of its host: the network's answer to the n-th
    request sent, the configuration, the token vault behind
    [AuthManager.getToken], the clock behind [Date.now()], and
    [Buffer.from(v)] for an array or object [v], whose bytes depend on
    number conversion rules that are left to the platform. *)
Record Host := {
  network : nat -> Request -> FetchOutcome;
  configuration : Configuration;
  getToken : string -> option string;
  clock : nat -> Z;
  Buffer_from_object : json -> result string
}.

(** A host with nothing configured, one token for every server, and the
    given network. *)
Definition stub_host (net : nat -> Request -> FetchOutcome) : Host :=
  {| network := net;
     configuration :=
       {| g2r_token := None; g2r_host := None;
          g2r_trustInsecureCertificates := None; g2r_enableLogging := None |};
     getToken := fun _ => Some "abc123";
     clock := fun n => Z.of_nat n;
     Buffer_from_object := fun _ => Throw TypeError |}.

(** A network that answers every request alike. *)
Definition always (code : Z) (text : string) (data : option json)
    : nat -> Request -> FetchOutcome :=
  fun _ _ => Responded {| status := code; statusText := text; json_body := data |}.

(** A server that speaks plain HTTP only: the TLS handshake of the first
    request fails, later requests are answered. *)
Definition plain_http_only (data : json) : nat -> Request -> FetchOutcome :=
  fun n _ =>
    match n with
    | O => Rejected "FetchError"
             "request to https://gitea.local/api/v1/version failed, reason: write EPROTO"
    | S _ => Responded {| status := 200; statusText := "OK"; json_body := Some data |}
    end.

(** ** [Settings] ([config/settings.ts]) *)

Module Settings.

(** [config.get<string>(key) || ''] *)
Definition getToken (H : Host) : string := default "" (g2r_token (configuration H)).
Definition getHost (H : Host) : string := default "" (g2r_host (configuration H)).

(** [config.get<boolean>(key) ?? d] *)
Definition getTrustInsecureCertificates (H : Host) : bool :=
  default true (g2r_trustInsecureCertificates (configuration H)).
Definition getEnableLogging (H : Host) : bool :=
  default false (g2r_enableLogging (configuration H)).

End Settings.

(** * State and exceptions

    A computation takes the state, returns a value or throws, and leaves a
    new state: what was done before a [throw] stays done. *)

Definition M (S A : Type) : Type := S -> result A * S.

Global Instance M_ret {S} : MRet (M S) := fun A a s => (Ok a, s).

Global Instance M_bind {S} : MBind (M S) := fun A B f m s =>
  match m s with
  | (Ok a, s') => f a s'
  | (Throw e, s') => (Throw e, s')
  end.

Global Instance M_fmap {S} : FMap (M S) := fun A B f m s =>
  match m s with
  | (Ok a, s') => (Ok (f a), s')
  | (Throw e, s') => (Throw e, s')
  end.

Definition throw {S A} (e : exn) : M S A := fun s => (Throw e, s).

(** [try { m } catch (e) { h e }] *)
Definition try_catch {S A} (m : M S A) (h : exn -> M S A) : M S A := fun s =>
  match m s with
  | (Ok a, s') => (Ok a, s')
  | (Throw e, s') => h e s'
  end.

Definition get_state {S} : M S S := fun s => (Ok s, s).
Definition put_state {S} (s : S) : M S () := fun _ => (Ok (), s).
Definition lift_result {S A} (r : result A) : M S A := fun s => (r, s).


(** * Platform codecs used by the client *)

Module Buffer.
Import JS.

Definition base64_value (c : ascii) : option N :=
  if is_upper c then Some (code c - 65)%N
  else if is_lower c then Some (code c - 71)%N
  else if is_digit c then Some (code c + 4)%N
  else if (c =? "+")%char || (c =? "-")%char then Some 62%N
  else if (c =? "/")%char || (c =? "_")%char then Some 63%N
  else None.

(** Node's decoder skips what is not in the alphabet and stops at the
    first padding character. *)
Fixpoint base64_sextets (s : string) : list N :=
  match s with
  | EmptyString => []
  | String c r =>
      match base64_value c with
      | Some v => v :: base64_sextets r
      | None => if (c =? "=")%char then [] else base64_sextets r
      end
  end.

Fixpoint base64_bytes (l : list N) : string :=
  match l with
  | a :: b :: c :: d :: r =>
      String (ascii_of_N (a * 4 + b / 16))
        (String (ascii_of_N ((b mod 16) * 16 + c / 4))
           (String (ascii_of_N ((c mod 4) * 64 + d)) (base64_bytes r)))
  | [a; b; c] =>
      String (ascii_of_N (a * 4 + b / 16))
        (String (ascii_of_N ((b mod 16) * 16 + c / 4)) EmptyString)
  | [a; b] => String (ascii_of_N (a * 4 + b / 16)) EmptyString
  | _ => EmptyString
  end.

(** [Buffer.from(s, 'base64').toString('utf-8')] *)
Definition from_base64_toString (s : string) : string :=
  URL.utf8_decode (base64_bytes (base64_sextets s)).

(** [new TextEncoder().encode(s)] *)
Definition TextEncoder_encode (s : string) : list byte := list_byte_of_string s.

Definition uri_unreserved (c : ascii) : bool :=
  is_alnum c ||
  bool_decide (c ∈ ["-"; "_"; "."; "!"; "~"; "*"; "'"; "("; ")"]%char).

Definition encodeURIComponent (s : string) : string :=
  URL.percent_encode (fun c => negb (uri_unreserved c)) s.

End Buffer.

(** * The API client ([giteaApi/client.ts]) *)

Module GiteaClient.
Import JS.

Record Client := {
  baseUrl : string;
  token : string;
  protocolDetected : bool;
  trustInsecureCerts : bool;
  enableLogging : bool
}.

(** A client together with the requests sent so far, oldest first. *)
Record State := {
  this : Client;
  sent : list Request
}.

Definition set_baseUrl (u : string) (c : Client) : Client :=
  {| baseUrl := u; token := token c; protocolDetected := protocolDetected c;
     trustInsecureCerts := trustInsecureCerts c; enableLogging := enableLogging c |}.

Definition set_protocolDetected (b : bool) (c : Client) : Client :=
  {| baseUrl := baseUrl c; token := token c; protocolDetected := b;
     trustInsecureCerts := trustInsecureCerts c; enableLogging := enableLogging c |}.

Definition update (f : Client -> Client) : M State () :=
  fun st => (Ok (), {| this := f (this st); sent := sent st |}).

Definition self : M State Client := fun st => (Ok (this st), st).

(** [await fetch(url, options)] *)
Definition fetch (H : Host) (req : Request) : M State Response := fun st =>
  let st' := {| this := this st; sent := sent st ++ [req] |} in
  match network H (List.length (sent st)) req with
  | Rejected name message => (Throw (FetchError name message), st')
  | Responded r => (Ok r, st')
  end.

(** A string or [undefined] is truthy when it is a non-empty string. *)
Definition given (s : option string) : bool :=
  match s with Some t => negb (is_empty t) | None => false end.

(** Add [https://] if there is no scheme, and [/api/v1] if it is not the
    suffix. *)
Definition normalize (url : string) : string :=
  let url :=
    if negb (startsWith "http://" url) && negb (startsWith "https://" url)
    then "https://" +:+ url else url in
  if endsWith "/api/v1" url then url else url +:+ "/api/v1".

(** [new GiteaClient(baseUrl?, token?)]; the console output under
    [enableLogging] is not modelled, here or below. *)
Definition constructor (H : Host) (baseUrl token : option string) : Client :=
  let '(url, tok) :=
    if given baseUrl && given token
    then (normalize (default "" baseUrl), default "" token)
    else (normalize (Settings.getHost H), Settings.getToken H) in
  {| baseUrl := url; token := tok; protocolDetected := false;
     trustInsecureCerts := Settings.getTrustInsecureCertificates H;
     enableLogging := Settings.getEnableLogging H |}.

Definition sslErrors : list string :=
  ["WRONG_VERSION_NUMBER"; "EPROTO"; "ECONNRESET"; "CERT"; "SELF_SIGNED";
   "UNABLE_TO_VERIFY_LEAF_SIGNATURE"].

(** [err.message || err.toString()] for the error of a rejected [fetch],
    the only exception the probes can raise. *)
Definition errorMsg (err : exn) : string :=
  match err with
  | FetchError name message => if is_empty message then name else message
  | _ => EmptyString
  end.

(** [sslErrors.some(e => errorMsg.includes(e))] *)
Definition is_ssl_error (err : exn) : bool :=
  existsb (fun e => includes e (errorMsg err)) sslErrors.

(** [s.replace(/^https?:\/\//, '')] *)
Definition strip_http_scheme (s : string) : string :=
  if startsWith "https://" s then drop 8 s
  else if startsWith "http://" s then drop 7 s
  else s.

Definition probe (url : string) (a : option agent) : Request :=
  {| req_url := url; req_method := GET; req_headers := [];
     req_agent := a; req_body := None |}.

Definition detectProtocol (H : Host) (baseUrl : string) : M State string :=
  let testUrl :=
    if endsWith "/api/v1" baseUrl then remove_first "/api/v1" baseUrl
    else baseUrl in
  let httpsUrl := testUrl +:+ "/api/v1/version" in
  try_catch
    (res ← fetch H (probe httpsUrl (Some (HttpsAgent false)));
     if ok res then mret testUrl
     else mret testUrl (* falls through to the final [return testUrl] *))
    (fun err =>
       if is_ssl_error err then
         let httpUrl := "http://" +:+ strip_http_scheme testUrl +:+ "/api/v1/version" in
         try_catch
           (res ← fetch H (probe httpUrl None);
            if ok res then mret (remove_first "/api/v1/version" httpUrl)
            else mret testUrl)
           (fun _ => throw err)
       else mret testUrl).

Definition initializeConnection (H : Host) : M State () :=
  c ← self;
  if protocolDetected c then mret ()
  else
    try_catch
      (detectedUrl ← detectProtocol H (baseUrl c);
       let finalUrl :=
         if endsWith "/api/v1" detectedUrl then detectedUrl
         else detectedUrl +:+ "/api/v1" in
       update (set_baseUrl finalUrl);;
       update (set_protocolDetected true))
      (fun _ => update (set_protocolDetected true)).

(** The [url] and [options] that [request] hands to [fetch]. *)
Definition api_request (c : Client) (endpoint : string) (method : http_method)
    (body : option json) : Request :=
  let url := baseUrl c +:+ endpoint in
  let headers :=
    [("Authorization", "token " +:+ token c);
     ("Content-Type", "application/json")] in
  let agent :=
    if startsWith "https://" url then HttpsAgent (negb (trustInsecureCerts c))
    else HttpAgent in
  {| req_url := url; req_method := method; req_headers := headers;
     req_agent := Some agent;
     req_body := if truthy body then body else None |}.

Definition request (H : Host) (endpoint : string) (method : http_method)
    (body : option json) : M State json :=
  c ← self;
  (if protocolDetected c then mret () else initializeConnection H);;
  c ← self;
  response ← fetch H (api_request c endpoint method body);
  if negb (ok response) then
    throw (ApiError (status response) (statusText response) endpoint)
  else
    match json_body response with
    | Some data => mret data
    | None => throw JsonError
    end.

(** ** The operations *)

Inductive pr_state := st_open | st_closed.

Definition pr_state_name (s : pr_state) : string :=
  match s with st_open => "open" | st_closed => "closed" end.

Inductive merge_method := mm_merge | mm_squash | mm_rebase.

Definition merge_method_name (m : merge_method) : string :=
  match m with mm_merge => "merge" | mm_squash => "squash" | mm_rebase => "rebase" end.

Definition repo_endpoint (owner repo : string) : string :=
  "/repos/" +:+ owner +:+ "/" +:+ repo.

Definition getPullRequests (H : Host) (owner repo : string) (state : pr_state)
    : M State json :=
  request H (repo_endpoint owner repo +:+ "/pulls?state=" +:+ pr_state_name state) GET None.

Definition getPullRequest (H : Host) (owner repo : string) (number : Z)
    : M State json :=
  request H (repo_endpoint owner repo +:+ "/pulls/" +:+ pretty number) GET None.

Definition getPullRequestFiles (H : Host) (owner repo : string) (number : Z)
    : M State json :=
  request H (repo_endpoint owner repo +:+ "/pulls/" +:+ pretty number +:+ "/files") GET None.

Definition getPullRequestComments (H : Host) (owner repo : string) (number : Z)
    : M State json :=
  request H (repo_endpoint owner repo +:+ "/pulls/" +:+ pretty number +:+ "/comments") GET None.

Definition mergePullRequest (H : Host) (owner repo : string) (number : Z)
    (mergeMethod : merge_method) : M State json :=
  request H (repo_endpoint owner repo +:+ "/pulls/" +:+ pretty number +:+ "/merge") POST
    (Some (JObj [("merge_method", JStr (merge_method_name mergeMethod))])).

Definition closePullRequest (H : Host) (owner repo : string) (number : Z)
    : M State json :=
  request H (repo_endpoint owner repo +:+ "/pulls/" +:+ pretty number) PATCH
    (Some (JObj [("state", JStr "closed")])).

Definition getRepository (H : Host) (owner repo : string) : M State json :=
  request H (repo_endpoint owner repo) GET None.

Definition getCurrentUser (H : Host) : M State json :=
  request H "/user" GET None.

Definition contents_endpoint (owner repo path ref : string) : string :=
  repo_endpoint owner repo +:+ "/contents/" +:+ path +:+ "?ref=" +:+ ref.

(** [Buffer.from(content, 'base64').toString('utf-8')] for a truthy
    [content]. *)
Definition decode_content (H : Host) (content : json) : result string :=
  match content with
  | JStr s => Ok (Buffer.from_base64_toString s)
  | JArr _ | JObj _ =>
      match Buffer_from_object H content with
      | Ok bytes => Ok (URL.utf8_decode bytes)
      | Throw e => Throw e
      end
  | JNull | JBool _ | JNum _ => Throw TypeError
  end.

Definition getFileContent (H : Host) (owner repo path ref : string)
    : M State string :=
  data ← request H (contents_endpoint owner repo path ref) GET None;
  content ← lift_result (get_property data p_content);
  if truthy content then
    match content with
    | Some c => lift_result (decode_content H c)
    | None => throw FileContentNotFound
    end
  else throw FileContentNotFound.

Definition listDirectoryContents (H : Host) (owner repo path ref : string)
    : M State json :=
  request H (contents_endpoint owner repo path ref) GET None.

Definition getBranches (H : Host) (owner repo : string) : M State json :=
  request H (repo_endpoint owner repo +:+ "/branches") GET None.

Definition getIssues (H : Host) (owner repo : string) (state : pr_state)
    : M State json :=
  request H (repo_endpoint owner repo +:+ "/issues?state=" +:+ pr_state_name state) GET None.

Definition getIssue (H : Host) (owner repo : string) (number : Z) : M State json :=
  request H (repo_endpoint owner repo +:+ "/issues/" +:+ pretty number) GET None.

Definition createBranch (H : Host) (owner repo branchName oldBranchName : string)
    : M State json :=
  request H (repo_endpoint owner repo +:+ "/branches") POST
    (Some (JObj [("new_branch_name", JStr branchName);
                 ("old_branch_name", JStr oldBranchName)])).

Definition getRepositoryDetail (H : Host) (owner repo : string) : M State json :=
  request H (repo_endpoint owner repo) GET None.

Definition getUserRepositories (H : Host) : M State json :=
  request H "/user/repos?limit=100" GET None.

Definition getRepositoriesByOwner (H : Host) (owner : string) : M State json :=
  request H ("/users/" +:+ owner +:+ "/repos?limit=100") GET None.

(** [data.data || []] *)
Definition searchRepositories (H : Host) (query : string) (limit : Z)
    : M State json :=
  data ← request H ("/repos/search?q=" +:+ Buffer.encodeURIComponent query +:+
                    "&limit=" +:+ pretty limit) GET None;
  found ← lift_result (get_property data p_data);
  mret (if truthy found then default (JArr []) found else JArr []).

Inductive entry_type := type_file | type_dir.

Record DirectoryEntry := {
  name : js_value;
  type : entry_type;
  size : js_value;
  path : js_value;
  download_url : js_value
}.

Definition to_entry (item : json) : result DirectoryEntry :=
  match get_property item p_name, get_property item p_type,
        get_property item p_size, get_property item p_path,
        get_property item p_download_url with
  | Ok n, Ok t, Ok s, Ok p, Ok d =>
      Ok {| name := n; type := if is_dir t then type_dir else type_file;
            size := s; path := p; download_url := d |}
  | _, _, _, _, _ => Throw TypeError
  end.

(** [l.map(f)] for an [f] that may throw. *)
Fixpoint map_result {A B} (f : A -> result B) (l : list A) : result (list B) :=
  match l with
  | [] => Ok []
  | x :: r =>
      match f x with
      | Ok y => match map_result f r with Ok ys => Ok (y :: ys) | Throw e => Throw e end
      | Throw e => Throw e
      end
  end.

(** [data.map(..)]: a TypeError unless [data] is an array. *)
Definition map_array {A} (f : json -> result A) (data : json) : result (list A) :=
  match data with
  | JArr items => map_result f items
  | _ => Throw TypeError
  end.

Definition getRepositoryContents (H : Host) (owner repo path ref : string)
    : M State (list DirectoryEntry) :=
  let endpoint := contents_endpoint owner repo path ref in
  try_catch
    (data ← request H endpoint GET None;
     lift_result (map_array to_entry data))
    (fun error => mret []).

(** ** States reached by the connection logic *)

Definition push (req : Request) (st : State) : State :=
  {| this := this st; sent := sent st ++ [req] |}.

Definition detected (u : string) (s : State) : State :=
  {| this := set_protocolDetected true (set_baseUrl u (this s)); sent := sent s |}.

Definition marked (s : State) : State :=
  {| this := set_protocolDetected true (this s); sent := sent s |}.

(** The state in which [request] sends its own request: the given one, or
    the one protocol detection leaves. *)
Definition connected (H : Host) (st : State) : State :=
  if protocolDetected (this st) then st else (initializeConnection H st).2.

(** A request of protocol detection: the version endpoint, no headers. *)
Definition is_probe (r : Request) : bool :=
  endsWith "/api/v1/version" (req_url r) &&
  match req_headers r with [] => true | _ :: _ => false end.

(** Every operation of the client, for statements about all of them, and
    the request each one is built on. *)
Inductive operation :=
| op_getPullRequests (owner repo : string) (state : pr_state)
| op_getPullRequest (owner repo : string) (number : Z)
| op_getPullRequestFiles (owner repo : string) (number : Z)
| op_getPullRequestComments (owner repo : string) (number : Z)
| op_mergePullRequest (owner repo : string) (number : Z) (mergeMethod : merge_method)
| op_closePullRequest (owner repo : string) (number : Z)
| op_getRepository (owner repo : string)
| op_getCurrentUser
| op_getFileContent (owner repo path ref : string)
| op_listDirectoryContents (owner repo path ref : string)
| op_getBranches (owner repo : string)
| op_getIssues (owner repo : string) (state : pr_state)
| op_getIssue (owner repo : string) (number : Z)
| op_createBranch (owner repo branchName oldBranchName : string)
| op_getRepositoryDetail (owner repo : string)
| op_getUserRepositories
| op_getRepositoriesByOwner (owner : string)
| op_searchRepositories (query : string) (limit : Z)
| op_getRepositoryContents (owner repo path ref : string).

Inductive value :=
| v_json (data : json)
| v_text (content : string)
| v_entries (entries : list DirectoryEntry).

Definition call (H : Host) (op : operation) : M State value :=
  match op with
  | op_getPullRequests o r s => v_json <$> getPullRequests H o r s
  | op_getPullRequest o r n => v_json <$> getPullRequest H o r n
  | op_getPullRequestFiles o r n => v_json <$> getPullRequestFiles H o r n
  | op_getPullRequestComments o r n => v_json <$> getPullRequestComments H o r n
  | op_mergePullRequest o r n m => v_json <$> mergePullRequest H o r n m
  | op_closePullRequest o r n => v_json <$> closePullRequest H o r n
  | op_getRepository o r => v_json <$> getRepository H o r
  | op_getCurrentUser => v_json <$> getCurrentUser H
  | op_getFileContent o r p ref => v_text <$> getFileContent H o r p ref
  | op_listDirectoryContents o r p ref => v_json <$> listDirectoryContents H o r p ref
  | op_getBranches o r => v_json <$> getBranches H o r
  | op_getIssues o r s => v_json <$> getIssues H o r s
  | op_getIssue o r n => v_json <$> getIssue H o r n
  | op_createBranch o r b old => v_json <$> createBranch H o r b old
  | op_getRepositoryDetail o r => v_json <$> getRepositoryDetail H o r
  | op_getUserRepositories => v_json <$> getUserRepositories H
  | op_getRepositoriesByOwner o => v_json <$> getRepositoriesByOwner H o
  | op_searchRepositories q l => v_json <$> searchRepositories H q l
  | op_getRepositoryContents o r p ref => v_entries <$> getRepositoryContents H o r p ref
  end.

Definition endpoint_of (op : operation) : string :=
  match op with
  | op_getPullRequests o r s => repo_endpoint o r +:+ "/pulls?state=" +:+ pr_state_name s
  | op_getPullRequest o r n => repo_endpoint o r +:+ "/pulls/" +:+ pretty n
  | op_getPullRequestFiles o r n => repo_endpoint o r +:+ "/pulls/" +:+ pretty n +:+ "/files"
  | op_getPullRequestComments o r n =>
      repo_endpoint o r +:+ "/pulls/" +:+ pretty n +:+ "/comments"
  | op_mergePullRequest o r n _ => repo_endpoint o r +:+ "/pulls/" +:+ pretty n +:+ "/merge"
  | op_closePullRequest o r n => repo_endpoint o r +:+ "/pulls/" +:+ pretty n
  | op_getRepository o r | op_getRepositoryDetail o r => repo_endpoint o r
  | op_getCurrentUser => "/user"
  | op_getFileContent o r p ref | op_listDirectoryContents o r p ref
  | op_getRepositoryContents o r p ref => contents_endpoint o r p ref
  | op_getBranches o r | op_createBranch o r _ _ => repo_endpoint o r +:+ "/branches"
  | op_getIssues o r s => repo_endpoint o r +:+ "/issues?state=" +:+ pr_state_name s
  | op_getIssue o r n => repo_endpoint o r +:+ "/issues/" +:+ pretty n
  | op_getUserRepositories => "/user/repos?limit=100"
  | op_getRepositoriesByOwner o => "/users/" +:+ o +:+ "/repos?limit=100"
  | op_searchRepositories q l =>
      "/repos/search?q=" +:+ Buffer.encodeURIComponent q +:+ "&limit=" +:+ pretty l
  end.

Definition method_of (op : operation) : http_method :=
  match op with
  | op_mergePullRequest _ _ _ _ | op_createBranch _ _ _ _ => POST
  | op_closePullRequest _ _ _ => PATCH
  | _ => GET
  end.

Definition body_of (op : operation) : option json :=
  match op with
  | op_mergePullRequest _ _ _ m =>
      Some (JObj [("merge_method", JStr (merge_method_name m))])
  | op_closePullRequest _ _ _ => Some (JObj [("state", JStr "closed")])
  | op_createBranch _ _ b old =>
      Some (JObj [("new_branch_name", JStr b); ("old_branch_name", JStr old)])
  | _ => None
  end.

Definition swallows_errors (op : operation) : bool :=
  match op with
  | op_getRepositoryContents _ _ _ _ => true
  | _ => false
  end.

End GiteaClient.

(** * The virtual filesystem provider ([src/fs/giteaFileSystemProvider.ts]) *)

Module GiteaFileSystemProvider.
Import UriParser.

(** [vscode.FileType] *)
Inductive FileType := Unknown | File | Directory | SymbolicLink.

Record FileStat := {
  stat_type : FileType;
  ctime : Z;
  mtime : Z;
  stat_size : nat
}.

(** The provider's fields, the requests its clients have sent so far, and
    the number of clock readings taken.  [uri] arguments are the strings
    [uri.toString()]. *)
Record Provider := {
  clients : gmap string GiteaClient.Client;
  cache : gmap string (list byte);
  requests : list Request;
  ticks : nat
}.

Definition set_clients (f : gmap string GiteaClient.Client -> gmap string GiteaClient.Client)
    (p : Provider) : Provider :=
  {| clients := f (clients p); cache := cache p; requests := requests p; ticks := ticks p |}.

Definition set_cache (f : gmap string (list byte) -> gmap string (list byte))
    (p : Provider) : Provider :=
  {| clients := clients p; cache := f (cache p); requests := requests p; ticks := ticks p |}.

Definition modify (f : Provider -> Provider) : M Provider () :=
  fun p => (Ok (), f p).

(** A method call on the client object held under [server]: the changes
    to the object's fields are seen by every later call. *)
Definition on_client {A} (server : string) (c : GiteaClient.Client)
    (m : M GiteaClient.State A) : M Provider A := fun p =>
  let '(r, st) := m {| GiteaClient.this := c; GiteaClient.sent := requests p |} in
  (r, {| clients := <[server := GiteaClient.this st]> (clients p);
         cache := cache p;
         requests := GiteaClient.sent st;
         ticks := ticks p |}).

(** [Date.now()] *)
Definition Date_now (H : Host) : M Provider Z := fun p =>
  (Ok (clock H (ticks p)),
   {| clients := clients p; cache := cache p; requests := requests p;
      ticks := S (ticks p) |}).

Definition getClient (H : Host) (server : string) : M Provider GiteaClient.Client :=
  p ← get_state;
  match clients p !! server with
  | Some client => mret client
  | None =>
      let token := getToken H server in
      if negb (GiteaClient.given token) then throw (NoToken server)
      else
        let baseUrl := getServerUrl server in
        let client := GiteaClient.constructor H (Some baseUrl) token in
        modify (set_clients (insert server client));;
        mret client
  end.

(** The steps [readFile] and [stat] share: parse the address, get the
    server's client, fetch the file's text. *)
Definition fetch_text (H : Host) (uri : string) : M Provider string :=
  giteaUri ← lift_result (parseGiteaUri uri);
  client ← getClient H (server giteaUri);
  on_client (server giteaUri) client
    (GiteaClient.getFileContent H (owner giteaUri) (repo giteaUri)
       (path giteaUri) (or_HEAD (ref giteaUri))).

Definition readFile (H : Host) (uri : string) : M Provider (list byte) :=
  let cacheKey := uri in
  p ← get_state;
  match cache p !! cacheKey with
  | Some bytes => mret bytes
  | None =>
      try_catch
        (giteaUri ← lift_result (parseGiteaUri uri);
         client ← getClient H (server giteaUri);
         content ← on_client (server giteaUri) client
           (GiteaClient.getFileContent H (owner giteaUri) (repo giteaUri)
              (path giteaUri) (or_HEAD (ref giteaUri)));
         let uint8Array := Buffer.TextEncoder_encode content in
         modify (set_cache (insert cacheKey uint8Array));;
         mret uint8Array)
        (fun error => throw (ReadFileError error))
  end.

Definition writeFile (uri : string) (content : list byte)
    (create overwrite : bool) : M Provider () :=
  throw (NoPermissions "Gitea remote files are read-only").

Definition delete (uri : string) (recursive : bool) : M Provider () :=
  throw (NoPermissions "Cannot delete remote files").

Definition rename (oldUri newUri : string) (overwrite : bool) : M Provider () :=
  throw (NoPermissions "Cannot rename remote files").

Definition createDirectory (uri : string) : M Provider () :=
  throw (NoPermissions "Cannot create remote directories").

Definition stat (H : Host) (uri : string) : M Provider FileStat :=
  try_catch
    (giteaUri ← lift_result (parseGiteaUri uri);
     client ← getClient H (server giteaUri);
     content ← on_client (server giteaUri) client
       (GiteaClient.getFileContent H (owner giteaUri) (repo giteaUri)
          (path giteaUri) (or_HEAD (ref giteaUri)));
     let size := List.length (Buffer.TextEncoder_encode content) in
     c ← Date_now H;
     m ← Date_now H;
     mret {| stat_type := File; ctime := c; mtime := m; stat_size := size |})
    (fun error => throw (FileNotFound uri)).

Definition to_tuple (entry : json) : result (js_value * FileType) :=
  match get_property entry p_name, get_property entry p_type with
  | Ok n, Ok t => Ok (n, if is_dir t then Directory else File)
  | _, _ => Throw TypeError
  end.

Definition readDirectory (H : Host) (uri : string)
    : M Provider (list (js_value * FileType)) :=
  try_catch
    (giteaUri ← lift_result (parseGiteaUri uri);
     client ← getClient H (server giteaUri);
     entries ← on_client (server giteaUri) client
       (GiteaClient.listDirectoryContents H (owner giteaUri) (repo giteaUri)
          (path giteaUri) (or_HEAD (ref giteaUri)));
     lift_result (GiteaClient.map_array to_tuple entries))
    (fun error => throw (FileNotFound uri)).

(** Returns a disposable that does nothing. *)
Definition watch (uri : string) (recursive : bool) (excludes : list string)
    : M Provider () :=
  mret ().

Definition clearCache : M Provider () :=
  modify (set_cache (fun _ => ∅)).

Definition clearServerCache (server : string) : M Provider () :=
  modify (set_cache (filter (fun kv => JS.includes server kv.1 = false))).

(** Every method of the provider, for statements about all of them. *)
Inductive operation :=
| op_readFile (uri : string)
| op_writeFile (uri : string) (content : list byte) (create overwrite : bool)
| op_delete (uri : string) (recursive : bool)
| op_rename (oldUri newUri : string) (overwrite : bool)
| op_createDirectory (uri : string)
| op_stat (uri : string)
| op_readDirectory (uri : string)
| op_watch (uri : string) (recursive : bool) (excludes : list string)
| op_clearCache
| op_clearServerCache (server : string).

Inductive value :=
| v_bytes (b : list byte)
| v_stat (s : FileStat)
| v_entries (l : list (js_value * FileType))
| v_void.

Definition run (H : Host) (op : operation) : M Provider value :=
  match op with
  | op_readFile uri => v_bytes <$> readFile H uri
  | op_writeFile uri content create overwrite =>
      writeFile uri content create overwrite;; mret v_void
  | op_delete uri recursive => delete uri recursive;; mret v_void
  | op_rename oldUri newUri overwrite => rename oldUri newUri overwrite;; mret v_void
  | op_createDirectory uri => createDirectory uri;; mret v_void
  | op_stat uri => v_stat <$> stat H uri
  | op_readDirectory uri => v_entries <$> readDirectory H uri
  | op_watch uri recursive excludes => watch uri recursive excludes;; mret v_void
  | op_clearCache => clearCache;; mret v_void
  | op_clearServerCache server => clearServerCache server;; mret v_void
  end.

Definition is_mutating (op : operation) : bool :=
  match op with
  | op_writeFile _ _ _ _ | op_delete _ _ | op_rename _ _ _ | op_createDirectory _ => true
  | _ => false
  end.

(** [k] more readings of the clock. *)
Definition bump (k : nat) (p : Provider) : Provider :=
  {| clients := clients p; cache := cache p; requests := requests p;
     ticks := k + ticks p |}.

(** A provider that has not been used yet. *)
Definition fresh : Provider :=
  {| clients := ∅; cache := ∅; requests := []; ticks := 0 |}.

(** [op] leaves the cache entry of [uri] alone. *)
Definition keeps (uri : string) (op : operation) : bool :=
  match op with
  | op_clearCache => false
  | op_clearServerCache server => negb (JS.includes server uri)
  | _ => true
  end.

(** The provider after a sequence of calls, whatever they returned. *)
Definition run_all (H : Host) (ops : list operation) (p : Provider) : Provider :=
  fold_left (fun q op => (run H op q).2) ops p.

End GiteaFileSystemProvider.

(** * The local repository manager ([utils/localRepoManager.ts]) *)

Module LocalRepoManager.
Import JS.

Record ExecOutput := { stdout : string; stderr : string }.

Record SyncStatus := {
  isDirty : bool;
  ahead : Z;
  behind : Z;
  untracked : list string
}.

(** [vscode.window.showInformationMessage] and [showErrorMessage]; an
    error message is the given text followed by the error. *)
Inductive Notification :=
| InformationMessage (text : string)
| ErrorMessage (text : string) (error : exn).

(** The machine the manager runs on: [fs.existsSync], the promisified
    [child_process.exec], [vscode.window.showInputBox] and [path.join], over
    a state of the world that processes and the user may change. *)
Record Platform (World : Type) := {
  existsSync : string -> World -> bool;
  exec : string -> string -> World -> result ExecOutput * World;
  showInputBox : World -> option string * World;
  path_join : string -> string -> string
}.
Arguments existsSync {World}.
Arguments exec {World}.
Arguments showInputBox {World}.
Arguments path_join {World}.

(** The world, the commands run so far as (command, cwd), oldest first,
    and the messages shown so far. *)
Record State (World : Type) := {
  world : World;
  commands : list (string * string);
  notifications : list Notification
}.
Arguments world {World}.
Arguments commands {World}.
Arguments notifications {World}.

Definition newline : ascii := "010"%char.
Definition quote : ascii := "034"%char.
Definition backslash : ascii := "092"%char.

Definition no_status : SyncStatus :=
  {| isDirty := false; ahead := 0; behind := 0; untracked := [] |}.

(** The paths of the [??] lines of [git status --porcelain]. *)
Definition untracked_of (statusOutput : string) : list string :=
  map (drop 3) (List.filter (startsWith "??") (split newline statusOutput)).

Definition isDirty_of (statusOutput : string) : bool :=
  negb (is_empty statusOutput) &&
  negb (forallb is_empty (untracked_of statusOutput)).

(** [parseInt(output.trim(), 10) || 0] *)
Definition count_of (output : string) : Z :=
  default 0%Z (parseInt (trim output)).

(** [message.replace(/"/g, '\\"')] *)
Definition escape_quotes (message : string) : string :=
  concat_map (fun c => if (c =? quote)%char
                       then String backslash (String quote EmptyString)
                       else String c EmptyString) message.

Definition commit_command (message : string) : string :=
  "git commit -m " +:+ String quote (escape_quotes message) +:+ String quote EmptyString.

Definition push_command (branch : string) : string :=
  "git push origin " +:+ branch.

Section Manager.
Context {World : Type} (P : Platform World).

Definition run_exec (command cwd : string) : M (State World) ExecOutput :=
  fun st =>
    let '(r, w) := exec P command cwd (world st) in
    (r, {| world := w; commands := commands st ++ [(command, cwd)];
           notifications := notifications st |}).

Definition notify (n : Notification) : M (State World) () := fun st =>
  (Ok (), {| world := world st; commands := commands st;
             notifications := notifications st ++ [n] |}).

Definition ask_input : M (State World) (option string) := fun st =>
  let '(answer, w) := showInputBox P (world st) in
  (Ok answer, {| world := w; commands := commands st;
                 notifications := notifications st |}).

Definition getSyncStatus (repoPath : string) : M (State World) SyncStatus :=
  try_catch
    (st ← get_state;
     if negb (existsSync P (path_join P repoPath ".git") (world st)) then
       mret no_status
     else
       out ← run_exec "git status --porcelain" repoPath;
       let statusOutput := stdout out in
       let untracked := untracked_of statusOutput in
       let isDirty := isDirty_of statusOutput in
       '(ahead, behind) ←
         try_catch
           (aheadOutput ← run_exec "git rev-list --left-only --count @{u}...HEAD" repoPath;
            let ahead := count_of (stdout aheadOutput) in
            try_catch
              (behindOutput ← run_exec "git rev-list --right-only --count @{u}...HEAD" repoPath;
               mret (ahead, count_of (stdout behindOutput)))
              (fun _ => mret (ahead, 0%Z)))
           (fun _ => mret (0%Z, 0%Z));
       mret {| isDirty := isDirty; ahead := ahead; behind := behind;
               untracked := untracked |})
    (fun error =>
       notify (ErrorMessage "Error getting sync status: " error);;
       mret no_status).

Definition syncToGitea (repoPath branch : string) : M (State World) () :=
  try_catch
    (run_exec "git add -A" repoPath;;
     out ← run_exec "git status --porcelain" repoPath;
     if is_empty (trim (stdout out)) then
       notify (InformationMessage "✓ No changes to sync")
     else
       message ← ask_input;
       match message with
       | None => mret ()
       | Some EmptyString => mret ()
       | Some message =>
           run_exec (commit_command message) repoPath;;
           run_exec (push_command branch) repoPath;;
           notify (InformationMessage "✓ Changes synced to Gitea")
       end)
    (fun error => notify (ErrorMessage "Sync failed: " error)).

Definition syncFromGitea (repoPath branch : string) : M (State World) () :=
  try_catch
    (out ← run_exec ("git pull origin " +:+ branch) repoPath;
     notify (InformationMessage ("✓ Pulled latest changes:" +:+ String newline (stdout out))))
    (fun error => notify (ErrorMessage "Pull failed: " error)).

(** *** What the manager needs from git

    [staged w]: the index holds every change of the working tree.
    [clean w]: working tree, index and HEAD agree.  Reading the status and
    prompting the user do not edit files; [git add -A] stages everything;
    a commit of a fully staged tree leaves it clean; pushing does not touch
    the working copy. *)
Record GitLaws (cwd : string) (staged clean : World -> Prop) : Prop := {
  add_stages : forall w o w',
    exec P "git add -A" cwd w = (Ok o, w') -> staged w';
  status_keeps_staged : forall w r w',
    staged w -> exec P "git status --porcelain" cwd w = (r, w') -> staged w';
  input_keeps_staged : forall w a w',
    staged w -> showInputBox P w = (a, w') -> staged w';
  blank_status_clean : forall w o w',
    staged w -> exec P "git status --porcelain" cwd w = (Ok o, w') ->
    is_empty (trim (stdout o)) = true -> clean w';
  commit_cleans : forall w message o w',
    staged w -> exec P (commit_command message) cwd w = (Ok o, w') -> clean w';
  push_keeps_clean : forall w branch r w',
    clean w -> exec P (push_command branch) cwd w = (r, w') -> clean w';
  add_keeps_clean : forall w,
    clean w -> exists o w', exec P "git add -A" cwd w = (Ok o, w') /\ clean w';
  clean_status_blank : forall w,
    clean w -> exists o w',
      exec P "git status --porcelain" cwd w = (Ok o, w') /\
      is_empty (trim (stdout o)) = true /\ clean w'
}.

(** The call ended by reporting success to the user. *)
Definition succeeded (before after : State World) : Prop :=
  exists text,
    notifications after = notifications before ++ [InformationMessage text].

End Manager.

(** ** Two small machines to run the manager on *)

(** A machine whose processes answer from a script, in order; [has_git]
    tells whether the metadata directory exists. *)
Definition scripted (has_git : bool) : Platform (list (result ExecOutput)) :=
  {| existsSync := fun _ _ => has_git;
     exec := fun _ _ w =>
       match w with
       | r :: rest => (r, rest)
       | [] => (Throw (ExecError "no answer"), [])
       end;
     showInputBox := fun w => (None, w);
     path_join := fun a b => a +:+ "/" +:+ b |}.

(** A working copy reduced to two flags. *)
Record Toy := { unstaged : bool; in_index : bool }.

Definition toy_exec (command cwd : string) (w : Toy) : result ExecOutput * Toy :=
  let say (text : string) := Ok {| stdout := text; stderr := "" |} in
  if String.eqb command "git add -A" then
    (say "", {| unstaged := false; in_index := in_index w || unstaged w |})
  else if String.eqb command "git status --porcelain" then
    (say (if in_index w then "A  notes.txt" +:+ String newline ""
          else if unstaged w then "?? notes.txt" +:+ String newline ""
          else ""), w)
  else if startsWith "git commit -m " command then
    if in_index w then (say "", {| unstaged := unstaged w; in_index := false |})
    else (Throw (ExecError "nothing to commit"), w)
  else if startsWith "git push origin " command then (say "", w)
  else (Throw (ExecError "unknown command"), w).

Definition toy : Platform Toy :=
  {| existsSync := fun _ _ => true;
     exec := toy_exec;
     showInputBox := fun w => (Some "update notes", w);
     path_join := fun a b => a +:+ "/" +:+ b |}.

Definition answers (texts : list string) : State (list (result ExecOutput)) :=
  {| world := map (fun t => Ok {| stdout := t; stderr := "" |}) texts;
     commands := []; notifications := [] |}.

Definition toy_staged (w : Toy) : Prop := unstaged w = false.
Definition toy_clean (w : Toy) : Prop := unstaged w = false /\ in_index w = false.

End LocalRepoManager.

(** * Well-formed address components

    The components for which the serialized address needs no escaping:
    printable ASCII outside the characters the URL syntax reserves or
    rewrites in the respective position. *)

Module Address.
Import JS.

Definition printable (c : ascii) : bool := in_range 33 126 c.

Definition host_char (c : ascii) : bool :=
  printable c && negb (URL.forbidden_host c).

Definition segment_char (c : ascii) : bool :=
  printable c && negb (URL.path_set c) && negb (c =? "/")%char.

Definition ref_char (c : ascii) : bool :=
  printable c && negb (URL.query_set c) &&
  negb (c =? "&")%char && negb (c =? "+")%char && negb (c =? "%")%char.

(** A host name, without port or credentials. *)
Definition valid_server (s : string) : bool := all_chars host_char s.

(** A path segment that is not a dot segment. *)
Definition valid_segment (s : string) : bool :=
  all_chars segment_char s &&
  negb (URL.is_single_dot s) && negb (URL.is_double_dot s).

Definition valid_path (p : string) : bool :=
  forallb valid_segment (split "/" p).

Definition valid_ref (r : string) : bool :=
  negb (is_empty r) && all_chars ref_char r.

Definition valid (server owner repo path ref : string) : bool :=
  valid_server server && valid_segment owner && valid_segment repo &&
  valid_path path && valid_ref ref.

(** The [/]-separated pieces of a URL's path. *)
Definition path_segments (u : URL.t) : list string :=
  match URL.url_path u with
  | URL.PathOpaque p => split "/" p
  | URL.PathList segments => segments
  end.

(** What every parsed URL satisfies and [parseGiteaUri] relies on. *)
Definition path_ok (u : URL.t) : Prop :=
  match URL.url_path u with
  | URL.PathOpaque p => startsWith "/" p = false
  | URL.PathList segments => Forall (fun x => lacks "/" x = true) segments
  end.

(** Characters that pass the parser's clean-up of its input and do not
    start a fragment. *)
Definition plain (c : ascii) : bool :=
  negb (URL.is_c0_or_space c) && negb (URL.is_tab_or_newline c) &&
  negb (c =? "#")%char.

(** The three parts of a serialized address after [gitea://]. *)
Definition file_part (path : string) : string :=
  if is_empty path then "" else String "/" path.

Definition file_segments (path : string) : list string :=
  if is_empty path then [] else split "/" path.

Definition ref_part (r : option string) : string :=
  match r with Some ref => String "?" ("ref=" +:+ ref) | None => "" end.

Definition hier (server owner repo path : string) : string :=
  server +:+ String "/" (owner +:+ String "/" (repo +:+ file_part path)).

(** The call failed with the codec's own error. *)
Definition malformed {A} (r : result A) : Prop :=
  exists cause, r = Throw (MalformedAddress cause).

End Address.

(** * Scenarios

    The concrete hosts, files and working copies on which the statements
    below are exercised. *)

Definition readme : string := "gitea://gitea.local/bob/foo/README.md".

Definition file_host : Host :=
  stub_host (always 200 "OK" (Some (JObj [("content", JStr "aGVsbG8=")]))).

Definition hello : list byte := Buffer.TextEncoder_encode "hello".

Definition dir_items : list json :=
  [JObj [("name", JStr "src"); ("type", JStr "dir")];
   JObj [("name", JStr "README.md"); ("type", JStr "file")]].

Definition listing : json := JArr dir_items.

Definition dir_host : Host := stub_host (always 200 "OK" (Some listing)).

Definition src_dir : string := "gitea://gitea.local/bob/foo".

Definition edited : LocalRepoManager.State LocalRepoManager.Toy :=
  {| LocalRepoManager.world :=
       {| LocalRepoManager.unstaged := true; LocalRepoManager.in_index := false |};
     LocalRepoManager.commands := []; LocalRepoManager.notifications := [] |}.

(** * The setting state ([config/settings.ts]) *)

Module SettingState.

(** [enum SettingState] *)
Definition OK : Z := 0.
Definition NO_TOKEN : Z := 1.
Definition NO_HOST : Z := 2.
Definition NO_TOKEN_AND_HOST : Z := 3.

Definition getSettingState (H : Host) : Z :=
  let token := Settings.getToken H in
  let host := Settings.getHost H in
  let state := OK in
  let state := if JS.is_empty token then Z.lor state NO_TOKEN else state in
  let state := if JS.is_empty host then Z.lor state NO_HOST else state in
  state.

Definition isConfigured (H : Host) : bool := (getSettingState H =? OK)%Z.

End SettingState.

(** * The input validators of the settings commands ([commands/settings.ts])

    [validateInput] returns the message to show, or [null] ([None]) when
    the value is accepted. *)

Module SettingsCommands.
Import JS.

Definition validateToken (value : string) : option string :=
  if is_empty value then Some "Token cannot be empty" else None.

Definition validateHost (value : string) : option string :=
  if is_empty value then Some "Host cannot be empty"
  else if negb (startsWith "http://" value) && negb (startsWith "https://" value)
  then Some "Host must start with http:// or https://"
  else if negb (includes "/api/v1" value)
  then Some "Host should include /api/v1 path"
  else None.

End SettingsCommands.

(** * The authentication manager ([auth/authManager.ts])

    [vscode.SecretStorage] is a finite map from keys to secrets whose
    promises always resolve; the list of known servers lives in the
    workspace state under [gitea.servers]. *)

Module AuthManager.

Record AuthConfig := {
  cfg_server : string;
  cfg_token : string;
  cfg_username : option string
}.

Record Vault := {
  secrets : gmap string string;
  configCache : gmap string AuthConfig
}.

Definition tokenKey (server : string) : string := "gitea:" +:+ server +:+ ":token".
Definition userKey (server : string) : string := "gitea:" +:+ server +:+ ":user".

(** [await this.secrets.get(key)] *)
Definition secrets_get (key : string) : M Vault (option string) :=
  fun v => (Ok (secrets v !! key), v).

(** [await this.secrets.store(key, value)] *)
Definition secrets_store (key value : string) : M Vault () :=
  fun v => (Ok (), {| secrets := <[key := value]> (secrets v);
                      configCache := configCache v |}).

(** [await this.secrets.delete(key)] *)
Definition secrets_delete (key : string) : M Vault () :=
  fun v => (Ok (), {| secrets := base.delete key (secrets v);
                      configCache := configCache v |}).

Definition update_cache (f : gmap string AuthConfig -> gmap string AuthConfig)
    : M Vault () :=
  fun v => (Ok (), {| secrets := secrets v; configCache := f (configCache v) |}).

Definition getToken (server : string) : M Vault (option string) :=
  let cacheKey := tokenKey server in
  v ← get_state;
  match configCache v !! server with
  | Some config => mret (Some (cfg_token config))
  | None => secrets_get cacheKey
  end.

Definition setToken (server token : string) (username : option string)
    : M Vault () :=
  let cacheKey := tokenKey server in
  let userKey := userKey server in
  secrets_store cacheKey token;;
  (if GiteaClient.given username
   then secrets_store userKey (default "" username)
   else mret ());;
  update_cache (insert server {| cfg_server := server; cfg_token := token;
                                 cfg_username := username |}).

Definition deleteToken (server : string) : M Vault () :=
  let cacheKey := tokenKey server in
  let userKey := userKey server in
  secrets_delete cacheKey;;
  secrets_delete userKey;;
  update_cache (base.delete server).

Definition getUsername (server : string) : M Vault (option string) :=
  secrets_get (userKey server).

Definition isConfigured (server : string) : M Vault bool :=
  token ← getToken server;
  mret (GiteaClient.given token).

(** [listServers]: [workspaceState.get('gitea.servers') || []] *)
Definition listServers (stored : option (list string)) : list string :=
  default [] stored.

(** [addServer]: the value left under [gitea.servers]. *)
Definition addServer (server : string) (stored : option (list string))
    : option (list string) :=
  let servers := default [] stored in
  if negb (bool_decide (server ∈ servers))
  then Some (servers ++ [server])
  else stored.

(** The calls that write to the vault, for statements about sequences of
    them. *)
Inductive operation :=
| op_setToken (server token : string) (username : option string)
| op_deleteToken (server : string).

Definition run (op : operation) : M Vault () :=
  match op with
  | op_setToken server token username => setToken server token username
  | op_deleteToken server => deleteToken server
  end.

Definition run_all (ops : list operation) (v : Vault) : Vault :=
  fold_left (fun w op => (run op w).2) ops v.

(** What [new AuthManager(secrets)] starts from. *)
Definition new (stored : gmap string string) : Vault :=
  {| secrets := stored; configCache := ∅ |}.

(** The token [getToken] resolves to. *)
Definition token_of (v : Vault) (server : string) : option string :=
  match getToken server v with
  | (Ok token, _) => token
  | (Throw _, _) => None
  end.

(** Every cached configuration holds the token that is in the storage. *)
Definition coherent (v : Vault) : Prop :=
  forall server config,
    configCache v !! server = Some config ->
    secrets v !! tokenKey server = Some (cfg_token config).

End AuthManager.

(** A host whose token vault is the given authentication manager. *)
Definition with_vault (H : Host) (v : AuthManager.Vault) : Host :=
  {| network := network H;
     configuration := configuration H;
     getToken := AuthManager.token_of v;
     clock := clock H;
     Buffer_from_object := Buffer_from_object H |}.

(** * The repository tree ([tree/repositoryTreeProvider.ts]) *)

Module RepositoryTreeProvider.
Import LocalRepoManager.

Record Tree := {
  currentServer : option string;
  client : option GiteaClient.Client
}.

Definition setServer (server : string) (c : GiteaClient.Client) (t : Tree) : Tree :=
  {| currentServer := Some server; client := Some c |}.

Definition getSyncStatusIcon (status : SyncStatus) : string :=
  if isDirty status && (0 <? ahead status)%Z then "cloud-upload"
  else if (0 <? behind status)%Z then "cloud-download"
  else if isDirty status then "git-commit"
  else "check".

(** A count in a template literal: decimal digits, for the integers
    below 10^21 in magnitude. *)
Definition getSyncStatusLabel (status : SyncStatus) : string :=
  let parts := [] in
  let parts :=
    if (0 <? ahead status)%Z then parts ++ ["↑" +:+ pretty (ahead status)]
    else parts in
  let parts :=
    if (0 <? behind status)%Z then parts ++ ["↓" +:+ pretty (behind status)]
    else parts in
  let parts :=
    if (0 <? List.length (untracked status))%nat
    then parts ++ ["+" +:+ pretty (List.length (untracked status))]
    else parts in
  if (0 <? List.length parts)%nat then " [" +:+ JS.join ", " parts +:+ "]" else "".

End RepositoryTreeProvider.

(** * The extension's connection state ([extension.ts]) *)

Module Extension.

Record State := {
  currentServer : option string;
  currentClient : option GiteaClient.Client;
  authManager : AuthManager.Vault;
  fsProvider : GiteaFileSystemProvider.Provider;
  repositoryTreeProvider : RepositoryTreeProvider.Tree;
  statusBar_text : string;
  statusBar_tooltip : string;
  gitea_connected : option bool;     (* the [gitea.connected] context key *)
  messages : list string             (* [showInformationMessage] *)
}.

(** [currentServer || ''] *)
Definition or_empty (s : option string) : string := default "" s.

Definition updateStatusBar (st : State) : State :=
  let '(text, tooltip, connected) :=
    if GiteaClient.given (currentServer st)
    then ("$(server) Gitea: " +:+ or_empty (currentServer st),
          "Connected to " +:+ or_empty (currentServer st), true)
    else ("$(server) Gitea: Not Connected", "Click to connect to Gitea", false) in
  {| currentServer := currentServer st; currentClient := currentClient st;
     authManager := authManager st; fsProvider := fsProvider st;
     repositoryTreeProvider := repositoryTreeProvider st;
     statusBar_text := text; statusBar_tooltip := tooltip;
     gitea_connected := Some connected; messages := messages st |}.

(** The [gitea.disconnect] command. *)
Definition disconnect (H : Host) (st : State) : State :=
  if GiteaClient.given (currentServer st) then
    let auth := (AuthManager.deleteToken (or_empty (currentServer st)) (authManager st)).2 in
    let currentServer' : option string := None in
    let currentClient' : option GiteaClient.Client := None in
    let tree :=
      RepositoryTreeProvider.setServer "" (GiteaClient.constructor H None None)
        (repositoryTreeProvider st) in
    let fs :=
      (GiteaFileSystemProvider.clearServerCache (or_empty currentServer')
         (fsProvider st)).2 in
    let st' :=
      updateStatusBar
        {| currentServer := currentServer'; currentClient := currentClient';
           authManager := auth; fsProvider := fs;
           repositoryTreeProvider := tree;
           statusBar_text := statusBar_text st;
           statusBar_tooltip := statusBar_tooltip st;
           gitea_connected := gitea_connected st; messages := messages st |} in
    {| currentServer := currentServer st'; currentClient := currentClient st';
       authManager := authManager st'; fsProvider := fsProvider st';
       repositoryTreeProvider := repositoryTreeProvider st';
       statusBar_text := statusBar_text st';
       statusBar_tooltip := statusBar_tooltip st';
       gitea_connected := gitea_connected st';
       messages := messages st' ++ ["Disconnected from Gitea"] |}
  else st.

End Extension.

(** A session connected to [gitea.local] that has read one file. *)
Definition session : Extension.State :=
  let client := GiteaClient.constructor file_host (Some "https://gitea.local") (Some "abc123") in
  {| Extension.currentServer := Some "gitea.local";
     Extension.currentClient := Some client;
     Extension.authManager :=
       (AuthManager.setToken "gitea.local" "abc123" (Some "bob") (AuthManager.new ∅)).2;
     Extension.fsProvider := (GiteaFileSystemProvider.readFile file_host readme
                                GiteaFileSystemProvider.fresh).2;
     Extension.repositoryTreeProvider :=
       {| RepositoryTreeProvider.currentServer := Some "gitea.local";
          RepositoryTreeProvider.client := Some client |};
     Extension.statusBar_text := "$(server) Gitea: gitea.local";
     Extension.statusBar_tooltip := "Connected to gitea.local";
     Extension.gitea_connected := Some true;
     Extension.messages := [] |}.

(** * Proofs *)

Local Arguments String.append !_ _ / : simpl nomatch.

(** ** Strings *)

Module StringFacts.
Import JS.

Lemma every_ascii_spec f : every_ascii f = true -> forall c, f c = true.
Proof.
  intros Hall c. unfold every_ascii in Hall.
  rewrite forallb_forall in Hall.
  rewrite <- (ascii_nat_embedding c). apply Hall.
  apply in_seq. pose proof (nat_ascii_bounded c). lia.
Qed.

Lemma all_chars_app p a b : all_chars p (a +:+ b) = all_chars p a && all_chars p b.
Proof. induction a as [|c a IH]; simpl; [done|]. by rewrite IH, andb_assoc. Qed.

Lemma all_chars_impl (p q : ascii -> bool) s :
  (forall c, p c = true -> q c = true) -> all_chars p s = true -> all_chars q s = true.
Proof.
  intros Hpq. induction s as [|c s IH]; simpl; [done|].
  intros [Hc Hs]%andb_true_iff. by rewrite (Hpq _ Hc), IH.
Qed.

Lemma strip_trailing_id p s :
  all_chars (fun c => negb (p c)) s = true -> strip_trailing p s = s.
Proof.
  induction s as [|c s IH]; simpl; [done|].
  intros [Hc Hs]%andb_true_iff. rewrite IH by done.
  apply negb_true_iff in Hc. rewrite Hc. by rewrite andb_false_r.
Qed.

Lemma filter_chars_id p s : all_chars p s = true -> filter_chars p s = s.
Proof.
  induction s as [|c s IH]; simpl; [done|].
  intros [Hc Hs]%andb_true_iff. by rewrite Hc, IH.
Qed.

Lemma break_at_lacks d s : lacks d s = true -> break_at d s = (s, None).
Proof.
  unfold lacks. induction s as [|c s IH]; simpl; [done|].
  intros [Hc Hs]%andb_true_iff. apply negb_true_iff in Hc. rewrite Hc.
  by rewrite IH.
Qed.

Lemma break_at_app d a b :
  lacks d a = true -> break_at d (a +:+ String d b) = (a, Some b).
Proof.
  unfold lacks. induction a as [|c a IH]; simpl.
  - by rewrite Ascii.eqb_refl.
  - intros [Hc Hs]%andb_true_iff. apply negb_true_iff in Hc. rewrite Hc.
    by rewrite IH.
Qed.

Lemma split_lacks d s : lacks d s = true -> split d s = [s].
Proof.
  unfold lacks. induction s as [|c s IH]; simpl; [done|].
  intros [Hc Hs]%andb_true_iff. apply negb_true_iff in Hc. rewrite Hc.
  by rewrite IH.
Qed.

Lemma split_app d a b :
  lacks d a = true -> split d (a +:+ String d b) = a :: split d b.
Proof.
  unfold lacks. induction a as [|c a IH]; simpl.
  - by rewrite Ascii.eqb_refl.
  - intros [Hc Hs]%andb_true_iff. apply negb_true_iff in Hc. rewrite Hc.
    by rewrite IH.
Qed.

Lemma split_nonempty d s : split d s <> [].
Proof. destruct s as [|c s]; simpl; [done|]. destruct (c =? d)%char; [done|]. by destruct (split d s). Qed.

Lemma split_pieces_lack d s : Forall (fun x => lacks d x = true) (split d s).
Proof.
  induction s as [|c s IH]; simpl.
  - by constructor.
  - destruct (c =? d)%char eqn:Hc.
    + constructor; [done | exact IH].
    + destruct (split d s) as [|x xs].
      { constructor; [|done]. unfold lacks. simpl. by rewrite Hc. }
      inversion IH; subst. constructor; [|done].
      unfold lacks in *. simpl. by rewrite Hc.
Qed.

Lemma join_split d s : join (String d EmptyString) (split d s) = s.
Proof.
  induction s as [|c s IH]; simpl; [done|].
  destruct (c =? d)%char eqn:Hc.
  - apply Ascii.eqb_eq in Hc. subst c.
    pose proof (split_nonempty d s).
    destruct (split d s) as [|x xs]; [done|]. simpl in *. by rewrite IH.
  - pose proof (split_nonempty d s).
    destruct (split d s) as [|x xs]; [done|].
    simpl in *. destruct xs; simpl in *; by rewrite <- IH.
Qed.

Lemma append_assoc a b c : (a +:+ b) +:+ c = a +:+ (b +:+ c).
Proof. induction a as [|x a IH]; simpl; [done|]. by rewrite IH. Qed.

Lemma append_empty_r a : a +:+ "" = a.
Proof. induction a as [|x a IH]; simpl; [done|]. by rewrite IH. Qed.

Lemma strip_leading_id p s :
  all_chars (fun c => negb (p c)) s = true -> strip_leading p s = s.
Proof.
  destruct s as [|c s]; simpl; [done|].
  intros [Hc _]%andb_true_iff. apply negb_true_iff in Hc. by rewrite Hc.
Qed.

Lemma scan_host_lacks s b : lacks ":" s = true -> URL.scan_host s b = (s, None).
Proof.
  unfold lacks. revert b. induction s as [|c s IH]; intros b; simpl; [done|].
  intros [Hc Hs]%andb_true_iff. apply negb_true_iff in Hc. rewrite Hc. simpl.
  by rewrite IH.
Qed.

Lemma percent_encode_id set s :
  all_chars (fun c => negb (set c)) s = true -> URL.percent_encode set s = s.
Proof.
  unfold URL.percent_encode. induction s as [|c s IH]; simpl; [done|].
  intros [Hc Hs]%andb_true_iff. apply negb_true_iff in Hc. rewrite Hc. simpl.
  by rewrite IH.
Qed.

Lemma any_char_false p s :
  all_chars (fun c => negb (p c)) s = true -> any_char p s = false.
Proof.
  induction s as [|c s IH]; simpl; [done|].
  intros [Hc Hs]%andb_true_iff. apply negb_true_iff in Hc. by rewrite Hc, IH.
Qed.

Lemma plus_to_space_id s : lacks "+" s = true -> URL.plus_to_space s = s.
Proof.
  unfold lacks, URL.plus_to_space. induction s as [|c s IH]; simpl; [done|].
  intros [Hc Hs]%andb_true_iff. apply negb_true_iff in Hc. rewrite Hc. simpl.
  by rewrite IH.
Qed.

Lemma percent_decode_id s : lacks "%" s = true -> URL.percent_decode s = s.
Proof.
  unfold lacks. induction s as [|c s IH]; simpl; [done|].
  intros [Hc Hs]%andb_true_iff. apply negb_true_iff in Hc. rewrite Hc.
  by rewrite IH.
Qed.

Lemma utf8_decode_ascii s :
  all_chars (fun c => (code c <=? 127)%N) s = true -> URL.utf8_decode s = s.
Proof.
  unfold URL.utf8_decode. induction s as [|c s IH]; simpl; [done|].
  intros [Hc Hs]%andb_true_iff. unfold URL.utf8_lead. rewrite Hc. simpl.
  by rewrite IH.
Qed.

Lemma startsWith_refl p : startsWith p p = true.
Proof. induction p as [|c p IH]; simpl; [done|]. by rewrite Ascii.eqb_refl. Qed.

Lemma startsWith_app p s : startsWith p (p +:+ s) = true.
Proof. induction p as [|c p IH]; simpl; [done|]. by rewrite Ascii.eqb_refl. Qed.

Lemma drop_length_app p s : drop (String.length p) (p +:+ s) = s.
Proof. induction p as [|c p IH]; simpl; done. Qed.

Lemma startsWith_long p y s :
  startsWith p (y +:+ s) = true -> (String.length p <= String.length y)%nat ->
  startsWith p y = true.
Proof.
  revert y. induction p as [|a p IH]; intros y; [done|].
  destruct y as [|c y]; simpl; [lia|].
  intros [-> H]%andb_true_iff Hlen. simpl. apply IH; [done|lia].
Qed.

Lemma startsWith_overlap p y s :
  startsWith p (y +:+ s) = true -> (String.length y <= String.length p)%nat ->
  startsWith (drop (String.length y) p) s = true.
Proof.
  revert p. induction y as [|c y IH]; intros p; [done|].
  destruct p as [|a p]; simpl; [lia|].
  intros [_ H]%andb_true_iff Hlen. apply IH; [done|lia].
Qed.

Lemma includes_cons p c s :
  includes p (String c s) = startsWith p (String c s) || includes p s.
Proof. reflexivity. Qed.

(** A non-empty borderless pattern does not begin inside [x] when it does
    not occur in [x] and [x] is followed by the pattern itself. *)
Lemma startsWith_before_suffix p x :
  borderless p = true -> includes p x = false -> x <> "" ->
  startsWith p (x +:+ p) = false.
Proof.
  intros Hb Hx Hne.
  destruct (startsWith p (x +:+ p)) eqn:E; [|done]. exfalso.
  destruct (le_lt_dec (String.length p) (String.length x)) as [Hle|Hlt].
  - apply startsWith_long in E; [|done].
    destruct x; [done|]. rewrite includes_cons, E in Hx. done.
  - apply startsWith_overlap in E; [|lia].
    unfold borderless in Hb. rewrite forallb_forall in Hb.
    specialize (Hb (String.length x)).
    rewrite E in Hb. simpl in Hb. assert (true = false -> False) by done.
    apply H. symmetry. apply Hb. apply in_seq.
    destruct x; [done|]. simpl in *. lia.
Qed.

Lemma remove_first_suffix p x :
  borderless p = true -> includes p x = false ->
  remove_first p (x +:+ p) = x.
Proof.
  intros Hb. induction x as [|c x IH]; intros Hx.
  - simpl. destruct p as [|a p]; [done|].
    change (remove_first (String a p) (String a p))
      with (if startsWith (String a p) (String a p)
            then drop (String.length (String a p)) (String a p)
            else String a (remove_first (String a p) p)).
    rewrite startsWith_refl.
    rewrite <- (append_empty_r (String a p)) at 2. by rewrite drop_length_app.
  - pose proof (startsWith_before_suffix p (String c x) Hb Hx ltac:(done)) as Hs.
    rewrite includes_cons in Hx. apply orb_false_iff in Hx as [_ Hx'].
    change (remove_first p (String c x +:+ p))
      with (if startsWith p (String c x +:+ p)
            then drop (String.length p) (String c x +:+ p)
            else String c (remove_first p (x +:+ p))).
    rewrite Hs. by rewrite IH.
Qed.

Lemma startsWith_trans p q s :
  startsWith p q = true -> startsWith q s = true -> startsWith p s = true.
Proof.
  revert q s. induction p as [|a p IH]; intros q s; [done|].
  destruct q as [|b q]; [done|]. destruct s as [|c s]; [done|]. simpl.
  intros [E1 H1]%andb_true_iff [E2 H2]%andb_true_iff.
  apply Ascii.eqb_eq in E1, E2. subst. rewrite Ascii.eqb_refl. simpl. by eapply IH.
Qed.

Lemma includes_longer p q x :
  startsWith p q = true -> includes p x = false -> includes q x = false.
Proof.
  intros Hpq. induction x as [|c x IH].
  - simpl. rewrite !orb_false_r. intros Hp.
    destruct (startsWith q "") eqn:E; [|done].
    by rewrite (startsWith_trans _ _ _ Hpq E) in Hp.
  - rewrite !includes_cons. intros [Hp Hx]%orb_false_iff.
    rewrite IH by done. rewrite orb_false_r.
    destruct (startsWith q (String c x)) eqn:E; [|done].
    by rewrite (startsWith_trans _ _ _ Hpq E) in Hp.
Qed.

Lemma endsWith_includes p x : endsWith p x = true -> includes p x = true.
Proof.
  induction x as [|c x IH]; simpl.
  - rewrite !orb_false_r. intros E%String.eqb_eq. subst. done.
  - intros [E%String.eqb_eq | H]%orb_true_iff.
    + subst p. change (startsWith (String c x) (String c x) || includes (String c x) x = true).
      by rewrite startsWith_refl.
    + rewrite (IH H). apply orb_true_r.
Qed.

Lemma endsWith_app p x : endsWith p (x +:+ p) = true.
Proof.
  induction x as [|c x IH]; simpl.
  - destruct p; simpl; [done|]. by rewrite Ascii.eqb_refl, String.eqb_refl.
  - rewrite IH. apply orb_true_r.
Qed.

End StringFacts.

(** ** The URI codec *)

Module UriCodec.
Import JS Address UriParser StringFacts.

(** Facts about the character classes, checked on all 256 characters. *)
Lemma host_char_facts c : host_char c = true ->
  URL.is_c0_or_space c = false /\ URL.is_tab_or_newline c = false /\
  URL.forbidden_host c = false /\ URL.c0_control_set c = false /\
  (c =? "#")%char = false /\ (c =? "?")%char = false /\ (c =? "/")%char = false /\
  (c =? "@")%char = false /\ (c =? ":")%char = false /\ (c =? "[")%char = false.
Proof.
  revert c.
  assert (H : every_ascii (fun c => implb (host_char c)
    (negb (URL.is_c0_or_space c) && negb (URL.is_tab_or_newline c) &&
     negb (URL.forbidden_host c) && negb (URL.c0_control_set c) &&
     negb (c =? "#")%char && negb (c =? "?")%char && negb (c =? "/")%char &&
     negb (c =? "@")%char && negb (c =? ":")%char && negb (c =? "[")%char)) = true)
    by (vm_compute; reflexivity).
  intros c Hc. pose proof (every_ascii_spec _ H c) as Hx. simpl in Hx.
  rewrite Hc in Hx. simpl in Hx.
  repeat (apply andb_true_iff in Hx as [Hx ?]).
  repeat match goal with H : negb _ = true |- _ => apply negb_true_iff in H end.
  repeat split; assumption.
Qed.

Lemma segment_char_facts c : segment_char c = true ->
  URL.is_c0_or_space c = false /\ URL.is_tab_or_newline c = false /\
  URL.path_set c = false /\
  (c =? "#")%char = false /\ (c =? "?")%char = false /\ (c =? "/")%char = false.
Proof.
  revert c.
  assert (H : every_ascii (fun c => implb (segment_char c)
    (negb (URL.is_c0_or_space c) && negb (URL.is_tab_or_newline c) &&
     negb (URL.path_set c) &&
     negb (c =? "#")%char && negb (c =? "?")%char && negb (c =? "/")%char)) = true)
    by (vm_compute; reflexivity).
  intros c Hc. pose proof (every_ascii_spec _ H c) as Hx. simpl in Hx.
  rewrite Hc in Hx. simpl in Hx.
  repeat (apply andb_true_iff in Hx as [Hx ?]).
  repeat match goal with H : negb _ = true |- _ => apply negb_true_iff in H end.
  repeat split; assumption.
Qed.

Lemma ref_char_facts c : ref_char c = true ->
  URL.is_c0_or_space c = false /\ URL.is_tab_or_newline c = false /\
  URL.query_set c = false /\ (code c <=? 127)%N = true /\
  (c =? "#")%char = false /\ (c =? "&")%char = false /\
  (c =? "+")%char = false /\ (c =? "%")%char = false.
Proof.
  revert c.
  assert (H : every_ascii (fun c => implb (ref_char c)
    (negb (URL.is_c0_or_space c) && negb (URL.is_tab_or_newline c) &&
     negb (URL.query_set c) && (code c <=? 127)%N &&
     negb (c =? "#")%char && negb (c =? "&")%char &&
     negb (c =? "+")%char && negb (c =? "%")%char)) = true)
    by (vm_compute; reflexivity).
  intros c Hc. pose proof (every_ascii_spec _ H c) as Hx. simpl in Hx.
  rewrite Hc in Hx. simpl in Hx.
  repeat (apply andb_true_iff in Hx as [Hx ?]).
  repeat match goal with H : negb _ = true |- _ => apply negb_true_iff in H end.
  repeat split; assumption.
Qed.


Lemma all_chars_split (P : ascii -> bool) d s :
  P d = true -> forallb (all_chars P) (split d s) = true -> all_chars P s = true.
Proof.
  intros Hd. induction s as [|c s IH]; simpl; [done|].
  destruct (c =? d)%char eqn:Hc.
  - apply Ascii.eqb_eq in Hc. subst c. simpl. rewrite Hd. exact IH.
  - pose proof (split_nonempty d s) as Hne.
    destruct (split d s) as [|x xs]; [done|]. simpl in *.
    intros [[Hx Hxs]%andb_true_iff Hr]%andb_true_iff.
    rewrite Hx. simpl. apply IH. by rewrite Hxs, Hr.
Qed.

Lemma valid_segment_chars s : valid_segment s = true -> all_chars segment_char s = true.
Proof. unfold valid_segment. by intros [[? _]%andb_true_iff _]%andb_true_iff. Qed.

Lemma valid_path_chars (P : ascii -> bool) p :
  P "/"%char = true -> (forall c, segment_char c = true -> P c = true) ->
  valid_path p = true -> all_chars P p = true.
Proof.
  intros Hd HP Hv. apply (all_chars_split P "/"); [done|].
  unfold valid_path in Hv. rewrite forallb_forall in *. intros x Hx.
  apply (all_chars_impl segment_char); [done|]. apply valid_segment_chars. by apply Hv.
Qed.

Lemma path_state_valid segs acc :
  forallb valid_segment segs = true -> URL.path_state segs acc = acc ++ segs.
Proof.
  revert acc. induction segs as [|seg rest IH]; intros acc; simpl.
  - by rewrite app_nil_r.
  - intros [Hseg Hrest]%andb_true_iff.
    assert (URL.percent_encode URL.path_set seg = seg) as ->.
    { apply percent_encode_id. apply (all_chars_impl segment_char); [|by apply valid_segment_chars].
      intros c Hc. apply negb_true_iff. by apply segment_char_facts. }
    unfold valid_segment in Hseg.
    apply andb_true_iff in Hseg as [[_ H1%negb_true_iff]%andb_true_iff H2%negb_true_iff].
    rewrite H1, H2. rewrite IH by done. by rewrite <- app_assoc.
Qed.

Lemma split_serialize a l :
  lacks "/" a = true -> forallb (lacks "/") l = true ->
  split "/" (a +:+ URL.serialize_path l) = a :: l.
Proof.
  revert a. induction l as [|x l IH]; intros a Ha; simpl.
  - intros _. rewrite append_empty_r. by apply split_lacks.
  - intros [Hx Hl]%andb_true_iff. rewrite split_app by done. by rewrite IH.
Qed.

Lemma valid_segment_lacks_slash s : valid_segment s = true -> lacks "/" s = true.
Proof.
  intros H%valid_segment_chars. unfold lacks.
  apply (all_chars_impl segment_char); [|done].
  intros c Hc. apply negb_true_iff. by apply segment_char_facts.
Qed.

Lemma createGiteaUri_shape server owner repo path ref :
  UriParser.createGiteaUri server owner repo path ref =
  "gitea://" +:+ hier server owner repo path +:+
  ref_part (if negb (is_empty (default "HEAD" ref)) && negb (String.eqb (default "HEAD" ref) "HEAD")
            then Some (default "HEAD" ref) else None).
Proof.
  unfold UriParser.createGiteaUri, hier, file_part, ref_part.
  destruct (is_empty path); destruct (negb _ && negb _); simpl;
    repeat (rewrite ?append_assoc, ?append_empty_r; simpl); reflexivity.
Qed.

Lemma plain_server s : valid_server s = true -> all_chars plain s = true.
Proof.
  apply all_chars_impl. intros c Hc. unfold plain.
  destruct (host_char_facts c Hc) as (-> & -> & _ & _ & -> & _). reflexivity.
Qed.

Lemma plain_segment_char c : segment_char c = true -> plain c = true.
Proof.
  intros Hc. unfold plain.
  destruct (segment_char_facts c Hc) as (-> & -> & _ & -> & _). reflexivity.
Qed.

Lemma plain_segment s : valid_segment s = true -> all_chars plain s = true.
Proof.
  intros H%valid_segment_chars. revert H. apply all_chars_impl, plain_segment_char.
Qed.

Lemma plain_path p : valid_path p = true -> all_chars plain p = true.
Proof. apply valid_path_chars; [reflexivity | apply plain_segment_char]. Qed.

Lemma valid_ref_chars r : valid_ref r = true -> all_chars ref_char r = true.
Proof. unfold valid_ref. by intros [_ ?]%andb_true_iff. Qed.

Lemma plain_ref r : valid_ref r = true -> all_chars plain r = true.
Proof.
  intros H%valid_ref_chars. revert H. apply all_chars_impl. intros c Hc. unfold plain.
  destruct (ref_char_facts c Hc) as (-> & -> & _ & _ & -> & _). reflexivity.
Qed.

Lemma plain_file_part p : valid_path p = true -> all_chars plain (file_part p) = true.
Proof.
  intros H. unfold file_part. destruct (is_empty p); [reflexivity|].
  simpl. by apply plain_path.
Qed.

Lemma plain_ref_part r :
  (forall ref, r = Some ref -> valid_ref ref = true) ->
  all_chars plain (ref_part r) = true.
Proof.
  intros H. destruct r as [ref|]; [|reflexivity]. simpl. apply plain_ref. by apply H.
Qed.

Lemma plain_hier server owner repo path :
  valid_server server = true -> valid_segment owner = true ->
  valid_segment repo = true -> valid_path path = true ->
  all_chars plain (hier server owner repo path) = true.
Proof.
  intros Hs Ho Hr Hp. unfold hier.
  rewrite all_chars_app, (plain_server _ Hs). simpl.
  rewrite all_chars_app, (plain_segment _ Ho). simpl.
  rewrite all_chars_app, (plain_segment _ Hr). simpl.
  by apply plain_file_part.
Qed.

(** No question mark before the query. *)
Lemma valid_server_lacks d s :
  host_char d = false -> valid_server s = true -> lacks d s = true.
Proof.
  intros Hd. apply all_chars_impl. intros c Hc. apply negb_true_iff.
  destruct (c =? d)%char eqn:E; [|done]. apply Ascii.eqb_eq in E. congruence.
Qed.

Lemma valid_segment_lacks d s :
  segment_char d = false -> valid_segment s = true -> lacks d s = true.
Proof.
  intros Hd H%valid_segment_chars. revert H.
  apply all_chars_impl. intros c Hc. apply negb_true_iff.
  destruct (c =? d)%char eqn:E; [|done]. apply Ascii.eqb_eq in E. congruence.
Qed.

Lemma valid_path_lacks d p :
  (d =? "/")%char = false -> segment_char d = false -> valid_path p = true ->
  lacks d p = true.
Proof.
  intros Hd1 Hd2. apply valid_path_chars.
  - apply negb_true_iff. by rewrite Ascii.eqb_sym.
  - intros c Hc. apply negb_true_iff.
    destruct (c =? d)%char eqn:E; [|done]. apply Ascii.eqb_eq in E. congruence.
Qed.

Lemma hier_lacks_question server owner repo path :
  valid_server server = true -> valid_segment owner = true ->
  valid_segment repo = true -> valid_path path = true ->
  lacks "?" (hier server owner repo path) = true.
Proof.
  intros Hs Ho Hr Hp. unfold hier, lacks.
  rewrite all_chars_app. fold (lacks "?" server).
  rewrite (valid_server_lacks "?") by done. simpl.
  rewrite all_chars_app. fold (lacks "?" owner).
  rewrite (valid_segment_lacks "?") by done. simpl.
  rewrite all_chars_app. fold (lacks "?" repo).
  rewrite (valid_segment_lacks "?") by done. simpl.
  unfold file_part. destruct (is_empty path); [done|]. simpl.
  by apply (valid_path_lacks "?").
Qed.

Lemma parse_authority_server s :
  valid_server s = true ->
  URL.parse_authority s = Some (URL.HostOpaque s, None).
Proof.
  intros Hs. unfold URL.parse_authority.
  rewrite (split_lacks "@") by (by apply valid_server_lacks). simpl.
  rewrite scan_host_lacks by (by apply valid_server_lacks).
  unfold URL.host_parse.
  assert (startsWith "[" s = false) as ->.
  { destruct s as [|c s]; [done|].
    apply andb_true_iff in Hs as [Hc _].
    destruct (host_char_facts c Hc) as (_&_&_&_&_&_&_&_&_&E).
    change (startsWith "[" (String c s)) with (("[" =? c)%char && true).
    rewrite Ascii.eqb_sym. by rewrite E. }
  rewrite any_char_false.
  2:{ revert Hs. apply all_chars_impl. intros c Hc. apply negb_true_iff.
      by apply host_char_facts. }
  rewrite percent_encode_id; [done|].
  revert Hs. apply all_chars_impl. intros c Hc. apply negb_true_iff.
  by apply host_char_facts.
Qed.

Lemma split_segments owner repo path :
  valid_segment owner = true -> valid_segment repo = true ->
  split "/" (owner +:+ String "/" (repo +:+ file_part path)) =
  owner :: repo :: file_segments path.
Proof.
  intros Ho Hr.
  rewrite split_app by (by apply valid_segment_lacks_slash).
  unfold file_part, file_segments. destruct (is_empty path).
  - rewrite append_empty_r. by rewrite split_lacks by (by apply valid_segment_lacks_slash).
  - by rewrite split_app by (by apply valid_segment_lacks_slash).
Qed.

Lemma valid_file_segments path :
  valid_path path = true -> forallb valid_segment (file_segments path) = true.
Proof. unfold file_segments, valid_path. by destruct (is_empty path). Qed.

Lemma parse_address server owner repo path r :
  valid_server server = true -> valid_segment owner = true ->
  valid_segment repo = true -> valid_path path = true ->
  (forall ref, r = Some ref -> valid_ref ref = true) ->
  URL.parse ("gitea://" +:+ hier server owner repo path +:+ ref_part r) =
  URL.NonSpecial
    {| URL.scheme := "gitea"; URL.url_host := URL.HostOpaque server;
       URL.port := None;
       URL.url_path := URL.PathList (owner :: repo :: file_segments path);
       URL.query := (fun ref => "ref=" +:+ ref) <$> r |}.
Proof.
  intros Hs Ho Hr Hp Hq.
  assert (Hrest : all_chars plain (hier server owner repo path +:+ ref_part r) = true).
  { rewrite all_chars_app, plain_hier, plain_ref_part by done. reflexivity. }
  assert (Hplain : all_chars plain ("gitea://" +:+ hier server owner repo path +:+ ref_part r) = true).
  { simpl. exact Hrest. }
  unfold URL.parse.
  rewrite strip_leading_id.
  2:{ revert Hplain. apply all_chars_impl. unfold plain. intros c.
      by intros [[? _]%andb_true_iff _]%andb_true_iff. }
  rewrite strip_trailing_id.
  2:{ revert Hplain. apply all_chars_impl. unfold plain. intros c.
      by intros [[? _]%andb_true_iff _]%andb_true_iff. }
  rewrite filter_chars_id.
  2:{ revert Hplain. apply all_chars_impl. unfold plain. intros c.
      by intros [[_ ?]%andb_true_iff _]%andb_true_iff. }
  change (URL.scan_scheme ("gitea://" +:+ hier server owner repo path +:+ ref_part r))
    with (Some ("gitea", "//" +:+ hier server owner repo path +:+ ref_part r)).
  cbv beta iota.
  change (URL.is_special "gitea") with false. cbv beta iota.
  rewrite break_at_lacks.
  2:{ unfold lacks. simpl. revert Hrest. apply all_chars_impl. unfold plain. intros c.
      by intros [_ ?]%andb_true_iff. }
  assert (Hbreak : break_at "?" ("//" +:+ hier server owner repo path +:+ ref_part r) =
                   ("//" +:+ hier server owner repo path, String.append "ref=" <$> r)).
  { pose proof (hier_lacks_question _ _ _ _ Hs Ho Hr Hp) as Hl.
    destruct r as [ref|]; simpl.
    - change (String "/" (String "/" (hier server owner repo path +:+ String "?" ("ref=" +:+ ref))))
        with (("//" +:+ hier server owner repo path) +:+ String "?" ("ref=" +:+ ref)).
      by rewrite break_at_app.
    - rewrite append_empty_r. by rewrite break_at_lacks. }
  rewrite Hbreak. cbv beta iota.
  change (startsWith "//" ("//" +:+ hier server owner repo path)) with true.
  cbv beta iota.
  change (drop 2 ("//" +:+ hier server owner repo path)) with (hier server owner repo path).
  unfold hier at 1.
  rewrite break_at_app by (by apply valid_server_lacks).
  rewrite parse_authority_server by done.
  rewrite split_segments by done.
  rewrite path_state_valid.
  2:{ simpl. rewrite Ho, Hr. simpl. by apply valid_file_segments. }
  simpl. f_equal. f_equal.
  destruct r as [ref|]; simpl; [|done].
  f_equal. apply percent_encode_id.
  specialize (Hq ref eq_refl). apply valid_ref_chars in Hq.
  simpl. revert Hq. apply all_chars_impl. intros c Hc. apply negb_true_iff.
  by apply ref_char_facts.
Qed.

Lemma is_empty_true s : is_empty s = true -> s = "".
Proof. by destruct s. Qed.

Lemma join_file_segments path : join "/" (file_segments path) = path.
Proof.
  unfold file_segments. destruct (is_empty path) eqn:E.
  - by rewrite (is_empty_true _ E).
  - apply join_split.
Qed.

Lemma form_decode_ref ref : valid_ref ref = true -> URL.form_decode ref = ref.
Proof.
  intros H%valid_ref_chars. unfold URL.form_decode.
  rewrite plus_to_space_id, percent_decode_id, utf8_decode_ascii; [done|..];
    revert H; apply all_chars_impl; intros c Hc;
    rewrite ?negb_true_iff; by apply ref_char_facts.
Qed.

Lemma searchParams_get_ref u ref :
  valid_ref ref = true -> URL.query u = Some ("ref=" +:+ ref) ->
  URL.searchParams_get "ref" u = Some ref.
Proof.
  intros Hv Hq. unfold URL.searchParams_get. rewrite Hq. simpl.
  unfold URL.urlencoded_parse.
  rewrite (split_lacks "&").
  2:{ unfold lacks. simpl. apply valid_ref_chars in Hv. revert Hv.
      apply all_chars_impl. intros c Hc. apply negb_true_iff. by apply ref_char_facts. }
  simpl. rewrite form_decode_ref by done.
  reflexivity.
Qed.

Lemma parseGiteaUri_address server owner repo path r :
  valid_server server = true -> valid_segment owner = true ->
  valid_segment repo = true -> valid_path path = true ->
  (forall ref, r = Some ref -> valid_ref ref = true) ->
  parseGiteaUri ("gitea://" +:+ hier server owner repo path +:+ ref_part r) =
  Ok {| server := server; owner := owner; repo := repo; path := path;
        ref := Some (default "HEAD" r) |}.
Proof.
  intros Hs Ho Hr Hp Hq. unfold parseGiteaUri.
  rewrite parse_address by done.
  change (URL.protocol _) with "gitea:". simpl negb. cbv iota.
  cbn [URL.hostname URL.pathname URL.url_host URL.url_path].
  change (URL.serialize_path (owner :: repo :: file_segments path))
    with (String "/" (owner +:+ URL.serialize_path (repo :: file_segments path))).
  change (drop 1 (String "/" ?x)) with x.
  rewrite split_serialize.
  2:{ by apply valid_segment_lacks_slash. }
  2:{ simpl. rewrite (valid_segment_lacks_slash repo) by done. simpl.
      apply forallb_forall. intros x Hx. apply valid_segment_lacks_slash.
      pose proof (valid_file_segments _ Hp) as Hf. rewrite forallb_forall in Hf. by apply Hf. }
  simpl. rewrite drop_0, join_file_segments.
  do 2 f_equal.
  destruct r as [ref|]; simpl; [|done].
  specialize (Hq ref eq_refl).
  rewrite (searchParams_get_ref _ ref) by done.
  unfold or_HEAD. unfold valid_ref in Hq.
  apply andb_true_iff in Hq as [Hne _]. apply negb_true_iff in Hne. by rewrite Hne.
Qed.

(** C2, as amended.  Round trip, for components that the URL syntax
    leaves as they are: a bare host name [server], segments [owner] and
    [repo] and a [path] of such segments, and a non-empty ref, all of them
    free of the characters that are reserved or escaped where they stand.
    Every such ref other than [HEAD] comes back from
    [parseGiteaUri (createGiteaUri ..)] with the four other components
    unchanged; for the ref [HEAD] the serialized address is the base and the
    path alone, with no [ref] parameter, and parsing it yields the ref
    [HEAD].  Nothing is said here of a server given with a port. *)
Theorem createGiteaUri_roundtrip server owner repo path :
  valid_server server = true -> valid_segment owner = true ->
  valid_segment repo = true -> valid_path path = true ->
  (forall ref, valid_ref ref = true -> String.eqb ref "HEAD" = false ->
     parseGiteaUri (createGiteaUri server owner repo path (Some ref)) =
     Ok {| server := server; owner := owner; repo := repo; path := path;
           ref := Some ref |}) /\
  createGiteaUri server owner repo path (Some "HEAD") =
    "gitea://" +:+ server +:+ "/" +:+ owner +:+ "/" +:+ repo +:+
    (if is_empty path then "" else "/" +:+ path) /\
  parseGiteaUri (createGiteaUri server owner repo path (Some "HEAD")) =
    Ok {| server := server; owner := owner; repo := repo; path := path;
          ref := Some "HEAD" |}.
Proof.
  intros Hs Ho Hr Hp. split; [|split].
  - intros ref Hv Hne. rewrite createGiteaUri_shape. simpl default.
    assert (is_empty ref = false) as ->.
    { unfold valid_ref in Hv. apply andb_true_iff in Hv as [H _]. by apply negb_true_iff. }
    rewrite Hne. simpl negb. simpl andb. cbv iota.
    rewrite parseGiteaUri_address; [done..|].
    intros ? [= <-]. done.
  - unfold createGiteaUri. simpl.
    repeat (rewrite ?append_assoc, ?append_empty_r; simpl). reflexivity.
  - rewrite createGiteaUri_shape.
    apply (parseGiteaUri_address server owner repo path None); done.
Qed.

(** C2, where it fails.  Components that the URL syntax rewrites do not
    come back as they went in, although the ref is not [HEAD]: a space in
    the path returns escaped, a plus sign in the ref returns as a space, a
    dot segment is resolved away, and a port is dropped from the server. *)
Lemma createGiteaUri_roundtrip_fails :
  (parseGiteaUri (createGiteaUri "gitea.example.com" "user" "myrepo" "my notes.txt" (Some "main"))
     = Ok {| server := "gitea.example.com"; owner := "user"; repo := "myrepo";
             path := "my%20notes.txt"; ref := Some "main" |} /\
   parseGiteaUri (createGiteaUri "gitea.example.com" "user" "myrepo" "my notes.txt" (Some "main"))
     <> Ok {| server := "gitea.example.com"; owner := "user"; repo := "myrepo";
              path := "my notes.txt"; ref := Some "main" |}) /\
  (parseGiteaUri (createGiteaUri "gitea.example.com" "user" "myrepo" "src/main.ts" (Some "c++"))
     = Ok {| server := "gitea.example.com"; owner := "user"; repo := "myrepo";
             path := "src/main.ts"; ref := Some "c  " |} /\
   parseGiteaUri (createGiteaUri "gitea.example.com" "user" "myrepo" "src/main.ts" (Some "c++"))
     <> Ok {| server := "gitea.example.com"; owner := "user"; repo := "myrepo";
              path := "src/main.ts"; ref := Some "c++" |}) /\
  (parseGiteaUri (createGiteaUri "gitea.example.com" "user" "myrepo" "src/../main.ts" (Some "main"))
     = Ok {| server := "gitea.example.com"; owner := "user"; repo := "myrepo";
             path := "main.ts"; ref := Some "main" |} /\
   parseGiteaUri (createGiteaUri "gitea.example.com" "user" "myrepo" "src/../main.ts" (Some "main"))
     <> Ok {| server := "gitea.example.com"; owner := "user"; repo := "myrepo";
              path := "src/../main.ts"; ref := Some "main" |}) /\
  (parseGiteaUri (createGiteaUri "localhost:3000" "user" "myrepo" "src/main.ts" (Some "main"))
     = Ok {| server := "localhost"; owner := "user"; repo := "myrepo";
             path := "src/main.ts"; ref := Some "main" |} /\
   parseGiteaUri (createGiteaUri "localhost:3000" "user" "myrepo" "src/main.ts" (Some "main"))
     <> Ok {| server := "localhost:3000"; owner := "user"; repo := "myrepo";
              path := "src/main.ts"; ref := Some "main" |}).
Proof.
  repeat split; try (vm_compute; reflexivity); vm_compute; discriminate.
Qed.

Lemma createGiteaUri_roundtrip_witness :
  parseGiteaUri (createGiteaUri "gitea.example.com" "user" "myrepo" "src/main.ts" (Some "main")) =
  Ok {| server := "gitea.example.com"; owner := "user"; repo := "myrepo";
        path := "src/main.ts"; ref := Some "main" |}.
Proof.
  apply (createGiteaUri_roundtrip "gitea.example.com" "user" "myrepo" "src/main.ts");
    reflexivity.
Defined.

(** ** What the URL parser guarantees about paths *)

Lemma lacks_app d a b : lacks d (a +:+ b) = lacks d a && lacks d b.
Proof. apply all_chars_app. Qed.



Lemma percent_byte_lacks_slash c : lacks "/" (URL.percent_byte c) = true.
Proof.
  revert c. apply every_ascii_spec. vm_compute. reflexivity.
Qed.

Lemma percent_encode_lacks_slash set s :
  lacks "/" s = true -> lacks "/" (URL.percent_encode set s) = true.
Proof.
  unfold URL.percent_encode. induction s as [|c s IH]; [done|].
  intros H. unfold lacks in H. simpl in H. apply andb_true_iff in H as [Hc Hs].
  simpl. destruct (set c).
  - rewrite lacks_app, percent_byte_lacks_slash. by apply IH.
  - rewrite lacks_app. unfold lacks at 1. simpl. rewrite Hc. by apply IH.
Qed.

Lemma Forall_removelast {A} (P : A -> Prop) l : Forall P l -> Forall P (removelast l).
Proof.
  induction 1 as [|x l Hx Hl IH]; simpl; [constructor|].
  destruct l; [constructor|]. by constructor.
Qed.

Lemma path_state_lacks_slash pieces acc :
  Forall (fun x => lacks "/" x = true) pieces ->
  Forall (fun x => lacks "/" x = true) acc ->
  Forall (fun x => lacks "/" x = true) (URL.path_state pieces acc).
Proof.
  intros Hp. revert acc. induction Hp as [|piece rest Hpiece Hrest IH]; intros acc Hacc; simpl; [done|].
  apply IH.
  destruct (URL.is_double_dot _); [|destruct (URL.is_single_dot _)].
  - destruct rest.
    + apply Forall_app. split; [by apply Forall_removelast|]. by repeat constructor.
    + by apply Forall_removelast.
  - destruct rest; [|done].
    apply Forall_app. split; [done|]. by repeat constructor.
  - apply Forall_app. split; [done|]. repeat constructor.
    by apply percent_encode_lacks_slash.
Qed.

Lemma startsWith_slash_encode set s :
  startsWith "/" s = false -> startsWith "/" (URL.percent_encode set s) = false.
Proof.
  destruct s as [|c s]; [done|].
  unfold URL.percent_encode. simpl concat_map. destruct (set c); [done|].
  done.
Qed.

Lemma parse_path_ok uri u : URL.parse uri = URL.NonSpecial u -> path_ok u.
Proof.
  unfold URL.parse.
  destruct (URL.scan_scheme _) as [[sch rest]|]; [|done].
  destruct (URL.is_special sch); [done|].
  destruct (break_at "#" rest) as [before_fragment frag].
  destruct (break_at "?" before_fragment) as [hr q].
  destruct (startsWith "//" hr) eqn:E2.
  - destruct (break_at "/" (drop 2 hr)) as [auth p].
    destruct (URL.parse_authority auth) as [[h prt]|]; [|done].
    intros [= <-]. unfold path_ok. simpl.
    apply path_state_lacks_slash; [|constructor].
    destruct p; [apply split_pieces_lack|constructor].
  - destruct (startsWith "/" hr) eqn:E1.
    + intros [= <-]. unfold path_ok. simpl.
      apply path_state_lacks_slash; [|constructor]. apply split_pieces_lack.
    + intros [= <-]. unfold path_ok. simpl.
      by apply startsWith_slash_encode.
Qed.

Lemma split_length_drop_first p :
  startsWith "/" p = false ->
  List.length (split "/" (drop 1 p)) = List.length (split "/" p).
Proof.
  destruct p as [|c p]; [done|].
  change (startsWith "/" (String c p)) with (("/" =? c)%char && true).
  rewrite andb_true_r, Ascii.eqb_sym. intros Hc. simpl. rewrite Hc.
  pose proof (split_nonempty "/" p). by destruct (split "/" p).
Qed.

(** The parts [parseGiteaUri] counts are the segments of the URL's path,
    except that an empty path counts as one empty part. *)
Lemma parts_length u :
  path_ok u ->
  List.length (split "/" (drop 1 (URL.pathname u))) =
  Nat.max 1 (List.length (path_segments u)).
Proof.
  unfold path_ok, URL.pathname, path_segments.
  destruct (URL.url_path u) as [p|segments].
  - intros H. rewrite split_length_drop_first by done.
    pose proof (split_nonempty "/" p). destruct (split "/" p); [done|]. simpl. lia.
  - intros H. destruct segments as [|x l]; [done|].
    inversion H; subst.
    change (URL.serialize_path (x :: l)) with (String "/" (x +:+ URL.serialize_path l)).
    change (drop 1 (String "/" ?y)) with y.
    rewrite split_serialize; [simpl; lia | done |].
    apply forallb_forall. intros y Hy. rewrite Forall_forall in H3. apply H3.
    by apply list_elem_of_In.
Qed.

(** C7.  [parseGiteaUri] fails with its malformed-address error on every
    input that does not parse as a URL of scheme [gitea], and on every input
    whose URL path has fewer than two segments; so it does on an address
    that stops after the owner. *)
Theorem parseGiteaUri_malformed :
  (forall uri,
     (forall u, URL.parse uri = URL.NonSpecial u -> URL.scheme u <> "gitea") ->
     malformed (parseGiteaUri uri)) /\
  (forall uri u,
     URL.parse uri = URL.NonSpecial u ->
     (List.length (path_segments u) < 2)%nat ->
     malformed (parseGiteaUri uri)) /\
  parseGiteaUri "gitea://host/onlyowner" = Throw (MalformedAddress MissingOwnerRepo) /\
  parseGiteaUri "scheme://host/onlyowner" =
    Throw (MalformedAddress (InvalidProtocol "scheme:")).
Proof.
  split; [|split; [|split; reflexivity]].
  - intros uri H. unfold parseGiteaUri, malformed.
    destruct (URL.parse uri) as [|sch|u] eqn:E; [by eexists..|].
    specialize (H u eq_refl).
    destruct (String.eqb (URL.protocol u) "gitea:") eqn:Ep; [|by eexists].
    exfalso. apply H. apply String.eqb_eq in Ep. unfold URL.protocol in Ep.
    assert (forall a b, a +:+ ":" = b +:+ ":" -> a = b) as Hinj.
    { induction a as [|x a IH]; destruct b as [|y b]; simpl; try done.
      - destruct b; done.
      - destruct a; done.
      - intros [= -> ?]. f_equal. by apply IH. }
    by apply (Hinj _ "gitea").
  - intros uri u E Hlen. unfold parseGiteaUri, malformed. rewrite E.
    destruct (negb _); [by eexists|].
    rewrite parts_length by (by eapply parse_path_ok).
    assert ((Nat.max 1 (List.length (path_segments u)) <? 2)%nat = true) as ->
      by (apply Nat.ltb_lt; lia).
    by eexists.
Qed.

Lemma parseGiteaUri_malformed_witness :
  malformed (parseGiteaUri "gitea://host/onlyowner").
Proof.
  eapply (proj1 (proj2 parseGiteaUri_malformed) "gitea://host/onlyowner").
  - reflexivity.
  - simpl. lia.
Defined.

End UriCodec.

(** ** The API client *)

Module ApiClient.
Import JS GiteaClient StringFacts.

Lemma fetch_eq H req st :
  fetch H req st =
  match network H (List.length (sent st)) req with
  | Rejected name message => (Throw (FetchError name message), push req st)
  | Responded r => (Ok r, push req st)
  end.
Proof. reflexivity. Qed.

Section Detection.
Variable H : Host.
Variable host : string.
Let root := "https://" +:+ host.
Let httpsProbe := probe (root +:+ "/api/v1/version") (Some (HttpsAgent false)).
Let httpProbe := probe ("http://" +:+ host +:+ "/api/v1/version") None.
Hypothesis Hroot : includes "/api/v1" root = false.

Lemma http_root_clean : includes "/api/v1" ("http://" +:+ host) = false.
Proof. exact Hroot. Qed.

Lemma testUrl_eq :
  (if endsWith "/api/v1" (root +:+ "/api/v1")
   then remove_first "/api/v1" (root +:+ "/api/v1") else root +:+ "/api/v1") = root.
Proof.
  rewrite endsWith_app. apply remove_first_suffix; [reflexivity | exact Hroot].
Qed.

Lemma strip_root : strip_http_scheme root = host.
Proof. reflexivity. Qed.

Lemma http_detected :
  remove_first "/api/v1/version" ("http://" +:+ strip_http_scheme root +:+ "/api/v1/version")
  = "http://" +:+ host.
Proof.
  rewrite strip_root.
  change ("http://" +:+ host +:+ "/api/v1/version")
    with (("http://" +:+ host) +:+ "/api/v1/version").
  apply remove_first_suffix; [reflexivity|].
  apply (includes_longer "/api/v1"); [reflexivity | exact http_root_clean].
Qed.

Lemma final_https :
  (if endsWith "/api/v1" root then root else root +:+ "/api/v1") = root +:+ "/api/v1".
Proof.
  destruct (endsWith "/api/v1" root) eqn:E; [|done].
  apply endsWith_includes in E. congruence.
Qed.

Lemma final_http :
  (if endsWith "/api/v1" ("http://" +:+ host) then "http://" +:+ host
   else ("http://" +:+ host) +:+ "/api/v1") = "http://" +:+ host +:+ "/api/v1".
Proof.
  destruct (endsWith "/api/v1" ("http://" +:+ host)) eqn:E; [|done].
  apply endsWith_includes in E. rewrite http_root_clean in E. done.
Qed.

Lemma detectProtocol_eq st :
  detectProtocol H (root +:+ "/api/v1") st =
  match network H (List.length (sent st)) httpsProbe with
  | Responded r => (Ok root, push httpsProbe st)
  | Rejected name message =>
      if is_ssl_error (FetchError name message) then
        match network H (S (List.length (sent st))) httpProbe with
        | Responded r =>
            (Ok (if ok r then "http://" +:+ host else root),
             push httpProbe (push httpsProbe st))
        | Rejected _ _ =>
            (Throw (FetchError name message), push httpProbe (push httpsProbe st))
        end
      else (Ok root, push httpsProbe st)
  end.
Proof.
  unfold detectProtocol. rewrite testUrl_eq.
  unfold try_catch at 1. unfold mbind, M_bind. rewrite fetch_eq.
  fold httpsProbe.
  destruct (network H (List.length (sent st)) httpsProbe) as [name message|r].
  - destruct (is_ssl_error (FetchError name message)); [|done].
    unfold try_catch. rewrite fetch_eq. rewrite http_detected.
    assert (List.length (sent (push httpsProbe st)) = S (List.length (sent st))) as ->.
    { simpl. rewrite length_app. simpl. lia. }
    rewrite strip_root. fold httpProbe.
    destruct (network H (S (List.length (sent st))) httpProbe) as [n2 m2|r2]; [done|].
    by destruct (ok r2).
  - by destruct (ok r).
Qed.

End Detection.

Lemma request_detected H endpoint method body st :
  protocolDetected (this st) = true ->
  request H endpoint method body st =
  let req := api_request (this st) endpoint method body in
  match network H (List.length (sent st)) req with
  | Rejected name message => (Throw (FetchError name message), push req st)
  | Responded r =>
      (if ok r then
         match json_body r with Some data => Ok data | None => Throw JsonError end
       else Throw (ApiError (status r) (statusText r) endpoint),
       push req st)
  end.
Proof.
  intros Hd. unfold request, mbind, M_bind, self. rewrite Hd. simpl.
  rewrite fetch_eq.
  destruct (network H _ _) as [name message|r]; [done|].
  destruct (ok r); simpl; [|done]. by destruct (json_body r).
Qed.

Lemma initializeConnection_eq H st host :
  let root := "https://" +:+ host in
  let n := List.length (sent st) in
  let httpsProbe := probe (root +:+ "/api/v1/version") (Some (HttpsAgent false)) in
  let httpProbe := probe ("http://" +:+ host +:+ "/api/v1/version") None in
  baseUrl (this st) = root +:+ "/api/v1" ->
  includes "/api/v1" root = false ->
  protocolDetected (this st) = false ->
  initializeConnection H st =
  (Ok (),
   match network H n httpsProbe with
   | Responded r => detected (root +:+ "/api/v1") (push httpsProbe st)
   | Rejected name message =>
       if is_ssl_error (FetchError name message) then
         match network H (S n) httpProbe with
         | Responded r =>
             detected (if ok r then "http://" +:+ host +:+ "/api/v1" else root +:+ "/api/v1")
                      (push httpProbe (push httpsProbe st))
         | Rejected _ _ => marked (push httpProbe (push httpsProbe st))
         end
       else detected (root +:+ "/api/v1") (push httpsProbe st)
   end).
Proof.
  intros root n httpsProbe httpProbe Hbase Hroot Hnd.
  unfold initializeConnection, mbind, M_bind, self, try_catch. rewrite Hnd, Hbase.
  fold root. rewrite (detectProtocol_eq H host Hroot).
  fold root httpsProbe httpProbe n.
  pose proof (final_https host Hroot) as Fs. fold root in Fs.
  pose proof (final_http host Hroot) as Fp.
  destruct (network H n httpsProbe) as [name message|r].
  - destruct (is_ssl_error (FetchError name message)).
    + destruct (network H (S n) httpProbe) as [n2 m2|r2]; [done|].
      destruct (ok r2); [by rewrite Fp | by rewrite Fs].
    + by rewrite Fs.
  - by rewrite Fs.
Qed.

Lemma initializeConnection_detected H st :
  protocolDetected (this st) = true -> initializeConnection H st = (Ok (), st).
Proof. intros Hd. unfold initializeConnection, mbind, M_bind, self. by rewrite Hd. Qed.

Lemma request_detected_state H endpoint method body st :
  protocolDetected (this st) = true ->
  (request H endpoint method body st).2 =
  push (api_request (this st) endpoint method body) st.
Proof.
  intros Hd. rewrite request_detected by done. simpl.
  destruct (network H _ _); done.
Qed.



Lemma initializeConnection_returns H st : (initializeConnection H st).1 = Ok ().
Proof.
  unfold initializeConnection, mbind, M_bind, self, try_catch. simpl.
  destruct (protocolDetected (this st)); [done|].
  destruct (detectProtocol H (baseUrl (this st)) st) as [[u|e] s]; done.
Qed.

Lemma request_eq H endpoint method body st :
  request H endpoint method body st =
  let st1 := connected H st in
  let req := api_request (this st1) endpoint method body in
  match network H (List.length (sent st1)) req with
  | Rejected name message => (Throw (FetchError name message), push req st1)
  | Responded r =>
      (if ok r then
         match json_body r with Some data => Ok data | None => Throw JsonError end
       else Throw (ApiError (status r) (statusText r) endpoint),
       push req st1)
  end.
Proof.
  pose proof (initializeConnection_returns H st) as Hr.
  unfold request, connected, mbind, M_bind, self, mret, M_ret.
  destruct (protocolDetected (this st)) eqn:Hd.
  - rewrite fetch_eq. cbv zeta.
    destruct (network H _ _) as [name message|r]; [done|].
    destruct (ok r); simpl; [|done]. by destruct (json_body r).
  - destruct (initializeConnection H st) as [[[]|e] st1]; [|done].
    rewrite fetch_eq. cbv zeta. simpl snd.
    destruct (network H _ _) as [name message|r]; [done|].
    destruct (ok r); simpl; [|done]. by destruct (json_body r).
Qed.

(** C5.  When the request an operation is built on fails, the operation
    fails with the same error, except [getRepositoryContents], which returns
    the empty list; [getRepositoryContents] never raises at all; and a
    response outside 2xx makes [request] raise an error holding the status,
    the status text and the endpoint. *)
Theorem failure_policy H :
  (forall op st e st',
     request H (endpoint_of op) (method_of op) (body_of op) st = (Throw e, st') ->
     call H op st = (if swallows_errors op then Ok (v_entries []) else Throw e, st')) /\
  (forall owner repo path ref st,
     exists entries st', getRepositoryContents H owner repo path ref st = (Ok entries, st')) /\
  (forall endpoint method body st r,
     let st1 := connected H st in
     let req := api_request (this st1) endpoint method body in
     network H (List.length (sent st1)) req = Responded r -> ok r = false ->
     request H endpoint method body st =
     (Throw (ApiError (status r) (statusText r) endpoint), push req st1)).
Proof.
  split; [|split].
  - intros op st e st' Hreq.
    destruct op; cbn [endpoint_of method_of body_of swallows_errors call] in Hreq |- *;
      unfold fmap, M_fmap,
        getPullRequests, getPullRequest, getPullRequestFiles, getPullRequestComments,
        mergePullRequest, closePullRequest, getRepository, getCurrentUser,
        getFileContent, listDirectoryContents, getBranches, getIssues, getIssue,
        createBranch, getRepositoryDetail, getUserRepositories,
        getRepositoriesByOwner, searchRepositories, getRepositoryContents,
        try_catch, mbind, M_bind;
      rewrite Hreq; reflexivity.
  - intros owner repo path ref st.
    unfold getRepositoryContents, try_catch, mbind, M_bind.
    destruct (request H _ GET None st) as [[data|e] st1]; [|by eexists _, _].
    unfold lift_result. destruct (map_array to_entry data); by eexists _, _.
  - intros endpoint method body st r st1 req E Hok.
    rewrite request_eq. cbv zeta. subst st1 req. by rewrite E, Hok.
Qed.

Lemma failure_policy_witness :
  let H := stub_host (always 404 "Not Found" None) in
  let st := {| this :=
                 set_protocolDetected true
                   (constructor H (Some "gitea.local") (Some "abc123"));
               sent := [] |} in
  (call H (op_getRepository "bob" "foo") st).1
    = Throw (ApiError 404 "Not Found" "/repos/bob/foo") /\
  (call H (op_getRepositoryContents "bob" "foo" "" "master") st).1
    = Ok (v_entries []).
Proof.
  intros H st. split.
  - erewrite (proj1 (failure_policy H) (op_getRepository "bob" "foo"));
      reflexivity.
  - erewrite (proj1 (failure_policy H)
               (op_getRepositoryContents "bob" "foo" "" "master"));
      reflexivity.
Defined.

Lemma endsWith_app3 p a b : endsWith p (a +:+ b +:+ p) = true.
Proof. rewrite <- append_assoc. apply endsWith_app. Qed.

Lemma detectProtocol_sent H base st :
  exists probes,
    sent (detectProtocol H base st).2 = sent st ++ probes /\
    forallb is_probe probes = true.
Proof.
  unfold detectProtocol, try_catch, mbind, M_bind.
  set (testUrl := if endsWith "/api/v1" base then remove_first "/api/v1" base else base).
  rewrite fetch_eq.
  assert (P1 : is_probe (probe (testUrl +:+ "/api/v1/version") (Some (HttpsAgent false))) = true).
  { unfold is_probe. simpl. by rewrite endsWith_app. }
  assert (P2 : is_probe (probe ("http://" +:+ strip_http_scheme testUrl +:+ "/api/v1/version") None) = true).
  { unfold is_probe. cbn [req_url req_headers probe]. by rewrite endsWith_app3. }
  set (p1 := probe (testUrl +:+ "/api/v1/version") (Some (HttpsAgent false))) in *.
  set (p2 := probe ("http://" +:+ strip_http_scheme testUrl +:+ "/api/v1/version") None) in *.
  assert (E1 : forallb is_probe [p1] = true) by (cbn [forallb]; by rewrite P1).
  assert (E2 : forallb is_probe [p1; p2] = true) by (cbn [forallb]; by rewrite P1, P2).
  assert (A2 : forall l : list Request, (l ++ [p1]) ++ [p2] = l ++ [p1; p2])
    by (intros l; by rewrite <- app_assoc).
  destruct (network H _ _) as [name message|r].
  - destruct (is_ssl_error _).
    + rewrite fetch_eq. destruct (network H _ _) as [n2 m2|r2].
      * exists [p1; p2]. split; [apply A2 | exact E2].
      * exists [p1; p2]. destruct (ok r2); (split; [apply A2 | exact E2]).
    + exists [p1]. split; [done | exact E1].
  - exists [p1]. destruct (ok r); (split; [done | exact E1]).
Qed.

Lemma connected_sent H st :
  exists probes,
    sent (connected H st) = sent st ++ probes /\ forallb is_probe probes = true.
Proof.
  unfold connected. destruct (protocolDetected (this st)) eqn:Hd.
  - exists []. by rewrite app_nil_r.
  - unfold initializeConnection, mbind, M_bind, self, try_catch. rewrite Hd.
    destruct (detectProtocol_sent H (baseUrl (this st)) st) as (probes & Hs & Hp).
    exists probes. destruct (detectProtocol H (baseUrl (this st)) st) as [[u|e] s]; done.
Qed.

Lemma api_request_not_probe c endpoint method body :
  is_probe (api_request c endpoint method body) = false.
Proof. unfold is_probe, api_request. simpl. apply andb_false_r. Qed.

Lemma request_Ok H endpoint method body st data st2 :
  request H endpoint method body st = (Ok data, st2) ->
  st2 = push (api_request (this (connected H st)) endpoint method body) (connected H st).
Proof.
  rewrite request_eq. cbv zeta.
  destruct (network H _ _) as [name message|r]; [done|]. by intros [= _ <-].
Qed.

Lemma request_state H endpoint method body st :
  (request H endpoint method body st).2 =
  push (api_request (this (connected H st)) endpoint method body) (connected H st).
Proof. rewrite request_eq. cbv zeta. by destruct (network H _ _). Qed.

Lemma getFileContent_state H owner repo path ref st :
  (getFileContent H owner repo path ref st).2 =
  (request H (contents_endpoint owner repo path ref) GET None st).2.
Proof.
  unfold getFileContent, mbind, M_bind, lift_result, throw.
  destruct (request H _ GET None st) as [[data|e] s]; [|done]. simpl.
  destruct (get_property data p_content) as [content|e]; [|done].
  destruct (truthy content); [|done]. by destruct content.
Qed.

End ApiClient.

(** ** The virtual filesystem *)

Module FileSystem.
Import GiteaFileSystemProvider ApiClient.

Lemma getClient_frame H server p :
  cache (getClient H server p).2 = cache p /\
  requests (getClient H server p).2 = requests p /\
  ticks (getClient H server p).2 = ticks p.
Proof.
  unfold getClient, mbind, M_bind, get_state, throw, modify, mret, M_ret.
  destruct (clients p !! server); [done|].
  by destruct (negb (GiteaClient.given (getToken H server))).
Qed.

Lemma on_client_frame {A} server c (m : M GiteaClient.State A) p :
  cache (on_client server c m p).2 = cache p /\
  ticks (on_client server c m p).2 = ticks p /\
  requests (on_client server c m p).2 =
    GiteaClient.sent (m {| GiteaClient.this := c; GiteaClient.sent := requests p |}).2.
Proof. unfold on_client. by destruct (m _) as [r st]. Qed.

Lemma fetch_text_frame H uri p :
  cache (fetch_text H uri p).2 = cache p /\ ticks (fetch_text H uri p).2 = ticks p.
Proof.
  unfold fetch_text, mbind, M_bind, lift_result.
  destruct (UriParser.parseGiteaUri uri) as [g|e]; [|done].
  destruct (getClient_frame H (UriParser.server g) p) as (Hc & _ & Ht).
  destruct (getClient H (UriParser.server g) p) as [[c|e] p1]; [|done].
  simpl in Hc, Ht.
  match goal with |- context [on_client ?s ?c ?m ?p] =>
    destruct (on_client_frame s c m p) as (Hc' & Ht' & _) end.
  by rewrite Hc', Ht'.
Qed.

Lemma fetch_text_requests H uri p content p1 :
  fetch_text H uri p = (Ok content, p1) ->
  exists g client probes,
    UriParser.parseGiteaUri uri = Ok g /\
    forallb GiteaClient.is_probe probes = true /\
    requests p1 = requests p ++ probes ++
      [GiteaClient.api_request client
         (GiteaClient.contents_endpoint (UriParser.owner g) (UriParser.repo g)
            (UriParser.path g) (UriParser.or_HEAD (UriParser.ref g))) GET None].
Proof.
  unfold fetch_text, mbind, M_bind, lift_result.
  destruct (UriParser.parseGiteaUri uri) as [g|e]; [|done].
  destruct (getClient_frame H (UriParser.server g) p) as (_ & Hr & _).
  destruct (getClient H (UriParser.server g) p) as [[c|e] p0]; [|done].
  simpl in Hr.
  match goal with |- context [on_client ?s ?c ?m ?p] =>
    destruct (on_client_frame s c m p) as (_ & _ & Hq);
    destruct (on_client s c m p) as [[t|e] p2] eqn:E end; [|done].
  intros [= <- <-]. simpl in Hq.
  rewrite getFileContent_state, request_state in Hq. simpl in Hq.
  match type of Hq with context [GiteaClient.connected H ?st] =>
    destruct (connected_sent H st) as (probes & Hs & Hp) end.
  exists g, (GiteaClient.this (GiteaClient.connected H
    {| GiteaClient.this := c; GiteaClient.sent := requests p0 |})), probes.
  split; [done|]. split; [done|].
  rewrite Hq, Hs. simpl. by rewrite Hr, <- app_assoc.
Qed.

Lemma readFile_hit H uri p bytes :
  cache p !! uri = Some bytes -> readFile H uri p = (Ok bytes, p).
Proof. intros Hc. unfold readFile, mbind, M_bind, get_state. by rewrite Hc. Qed.

Lemma readFile_miss H uri p :
  cache p !! uri = None ->
  readFile H uri p =
  match fetch_text H uri p with
  | (Ok content, p1) =>
      (Ok (Buffer.TextEncoder_encode content),
       set_cache (insert uri (Buffer.TextEncoder_encode content)) p1)
  | (Throw e, p1) => (Throw (ReadFileError e), p1)
  end.
Proof.
  intros Hc. unfold readFile. unfold mbind at 1. unfold M_bind at 1. unfold get_state at 1.
  rewrite Hc. unfold fetch_text, try_catch, mbind, M_bind, lift_result, throw, modify, mret, M_ret.
  destruct (UriParser.parseGiteaUri uri) as [g|e]; [|done].
  destruct (getClient H (UriParser.server g) p) as [[c|e] p0]; [|done].
  by destruct (on_client _ _ _ p0) as [[t|e] p2].
Qed.

Lemma stat_eq H uri p :
  stat H uri p =
  match fetch_text H uri p with
  | (Ok content, p1) =>
      (Ok {| stat_type := File; ctime := clock H (ticks p1);
             mtime := clock H (S (ticks p1));
             stat_size := List.length (Buffer.TextEncoder_encode content) |},
       bump 2 p1)
  | (Throw e, p1) => (Throw (FileNotFound uri), p1)
  end.
Proof.
  unfold stat, fetch_text, try_catch, mbind, M_bind, lift_result, throw, Date_now, mret, M_ret.
  destruct (UriParser.parseGiteaUri uri) as [g|e]; [|done].
  destruct (getClient H (UriParser.server g) p) as [[c|e] p0]; [|done].
  by destruct (on_client _ _ _ p0) as [[t|e] p2].
Qed.

Lemma fmap_state {S A B} (f : A -> B) (m : M S A) s : ((f <$> m) s).2 = (m s).2.
Proof. unfold fmap, M_fmap. by destruct (m s) as [[a|e] s']. Qed.

Lemma then_void_state {S} (m : M S ()) s : ((m;; mret v_void) s).2 = (m s).2.
Proof. unfold mbind, M_bind, mret, M_ret. by destruct (m s) as [[a|e] s']. Qed.

Lemma readDirectory_frame H uri p : cache (readDirectory H uri p).2 = cache p.
Proof.
  unfold readDirectory, try_catch, mbind, M_bind, lift_result, throw.
  destruct (UriParser.parseGiteaUri uri) as [g|e]; [|done].
  destruct (getClient_frame H (UriParser.server g) p) as (Hc & _ & _).
  destruct (getClient H (UriParser.server g) p) as [[c|e] p0]; [|done].
  simpl in Hc.
  match goal with |- context [on_client ?s ?c ?m ?p] =>
    destruct (on_client_frame s c m p) as (Hc' & _ & _);
    destruct (on_client s c m p) as [[t|e] p2] end; simpl in *; [|congruence].
  destruct (GiteaClient.map_array to_tuple t); simpl; congruence.
Qed.

Lemma readDirectory_throws H uri p e p' :
  readDirectory H uri p = (Throw e, p') -> e = FileNotFound uri.
Proof.
  unfold readDirectory, try_catch.
  match goal with |- context [match ?m p with _ => _ end] => destruct (m p) as [[l|e0] q] end;
    [done|]. unfold throw. by intros [= <- _].
Qed.

(** A cached entry survives every call that does not clear it. *)
Lemma run_keeps H uri bytes op p :
  keeps uri op = true -> cache p !! uri = Some bytes ->
  cache (run H op p).2 !! uri = Some bytes.
Proof.
  intros Hk Hc. destruct op; cbn [run]; rewrite ?fmap_state, ?then_void_state; try done.
  - destruct (cache p !! uri0) as [b|] eqn:E.
    + by rewrite (readFile_hit _ _ _ _ E).
    + rewrite readFile_miss by done.
      destruct (fetch_text_frame H uri0 p) as (Hf & _).
      destruct (fetch_text H uri0 p) as [[content|e] p1]; simpl in *; [|congruence].
      rewrite Hf. rewrite lookup_insert_ne; [done|]. congruence.
  - rewrite stat_eq. destruct (fetch_text_frame H uri0 p) as (Hf & _).
    destruct (fetch_text H uri0 p) as [[content|e] p1]; simpl in *; congruence.
  - by rewrite readDirectory_frame.
  - cbn [keeps] in Hk. apply negb_true_iff in Hk.
    unfold clearServerCache, modify. simpl.
    apply map_lookup_filter_Some. split; [done|]. exact Hk.
Qed.

Lemma run_all_keeps H uri bytes ops p :
  forallb (keeps uri) ops = true -> cache p !! uri = Some bytes ->
  cache (run_all H ops p) !! uri = Some bytes.
Proof.
  unfold run_all. revert p. induction ops as [|op ops IH]; intros p; simpl; [done|].
  intros [Hk Hks]%andb_true_iff Hc. apply IH; [done|]. by apply run_keeps.
Qed.

(** C4.  A first [readFile] of a URI that succeeds returns the encoding of
    the text the client decoded; it sent, besides the probes of protocol
    detection, exactly one request, the one for the file's content, and
    stored the bytes it returns under the URI string.
    Reading the same URI again, directly or after any calls that do not
    clear the entry, returns the same bytes and leaves the provider, and so
    the list of requests sent, unchanged.  [clearCache], and
    [clearServerCache] for a server whose name occurs in the URI, remove the
    entry. *)
Theorem readFile_caches H uri p bytes p' :
  cache p !! uri = None ->
  readFile H uri p = (Ok bytes, p') ->
  (exists content p1,
     fetch_text H uri p = (Ok content, p1) /\
     bytes = Buffer.TextEncoder_encode content) /\
  (exists g client probes,
     UriParser.parseGiteaUri uri = Ok g /\
     forallb GiteaClient.is_probe probes = true /\
     requests p' = requests p ++ probes ++
       [GiteaClient.api_request client
          (GiteaClient.contents_endpoint (UriParser.owner g) (UriParser.repo g)
             (UriParser.path g) (UriParser.or_HEAD (UriParser.ref g))) GET None]) /\
  cache p' = <[uri := bytes]> (cache p) /\
  readFile H uri p' = (Ok bytes, p') /\
  (forall ops, forallb (keeps uri) ops = true ->
     readFile H uri (run_all H ops p') = (Ok bytes, run_all H ops p')) /\
  cache (clearCache p').2 !! uri = None /\
  (forall server, JS.includes server uri = true ->
     cache (clearServerCache server p').2 !! uri = None).
Proof.
  intros Hmiss Hread. rewrite readFile_miss in Hread by done.
  destruct (fetch_text_frame H uri p) as (Hf & _).
  destruct (fetch_text H uri p) as [[content|e] p1] eqn:E; [|done].
  injection Hread as <- <-. simpl in Hf.
  assert (Hhit : cache (set_cache (insert uri (Buffer.TextEncoder_encode content)) p1) !! uri
                 = Some (Buffer.TextEncoder_encode content))
    by (simpl; apply lookup_insert_eq).
  split; [by eexists _, _|].
  split; [|split; [|split; [|split; [|split]]]].
  - destruct (fetch_text_requests _ _ _ _ _ E) as (g & client & probes & Hg & Hp & Hr).
    by exists g, client, probes.
  - simpl. by rewrite Hf.
  - by apply readFile_hit.
  - intros ops Hops. apply readFile_hit. by apply run_all_keeps.
  - done.
  - intros server Hs. unfold clearServerCache, modify. simpl.
    apply map_lookup_filter_None. right. intros x _. simpl. by rewrite Hs.
Qed.

Lemma readFile_caches_witness :
  let p' := (readFile file_host readme fresh).2 in
  readFile file_host readme p' = (Ok hello, p').
Proof.
  intros p'.
  apply (readFile_caches file_host readme fresh hello p').
  - reflexivity.
  - vm_compute. reflexivity.
Defined.

(** C6.  [writeFile], [delete], [rename] and [createDirectory] fail with
    the no-permissions error for all arguments and leave the provider as it
    was; no other operation ever fails with that error. *)
Theorem mutations_rejected H op p :
  (is_mutating op = true ->
   exists message, run H op p = (Throw (NoPermissions message), p)) /\
  (forall message p', run H op p = (Throw (NoPermissions message), p') ->
   is_mutating op = true).
Proof.
  split.
  - destruct op; try done; intros _; by eexists.
  - intros message p'. destruct op; try done; cbn [run]; unfold fmap, M_fmap.
    + destruct (cache p !! uri) as [b|] eqn:E.
      * by rewrite (readFile_hit _ _ _ _ E).
      * rewrite readFile_miss by done. by destruct (fetch_text H uri p) as [[c|e] p1].
    + rewrite stat_eq. by destruct (fetch_text H uri p) as [[c|e] p1].
    + destruct (readDirectory H uri p) as [[l|e] q] eqn:E; [done|].
      apply readDirectory_throws in E. by subst e.
Qed.

Lemma mutations_rejected_witness :
  exists message,
    run (stub_host (always 200 "OK" None))
      (op_delete "gitea://gitea.local/bob/foo/README.md" false)
      fresh
    = (Throw (NoPermissions message), fresh).
Proof.
  apply (proj1 (mutations_rejected _ _ _)). reflexivity.
Defined.

Lemma to_tuple_total items :
  Forall (fun item => item <> JNull) items ->
  exists entries, GiteaClient.map_result to_tuple items = Ok entries /\
                  List.length entries = List.length items.
Proof.
  induction 1 as [|item items Hi _ IH]; [by exists []|].
  destruct IH as (entries & IH & Hl). simpl. rewrite IH.
  destruct item; try done; eexists; (split; [reflexivity|]); simpl; by rewrite Hl.
Qed.

(** C10.  A [stat] that succeeds reports type [File] and the length of the
    encoded text that the content fetch returned.  For a URI that names a
    directory, which the server answers with an array of entries, [stat]
    fails with the file-not-found error while [readDirectory] on the same
    URI, from the same state, returns one entry per item. *)
Theorem stat_reports_files H uri p :
  (forall s p', stat H uri p = (Ok s, p') ->
     stat_type s = File /\
     exists content p1,
       fetch_text H uri p = (Ok content, p1) /\
       stat_size s = List.length (Buffer.TextEncoder_encode content)) /\
  (forall g client p1 items st2,
     UriParser.parseGiteaUri uri = Ok g ->
     getClient H (UriParser.server g) p = (Ok client, p1) ->
     GiteaClient.request H
       (GiteaClient.contents_endpoint (UriParser.owner g) (UriParser.repo g)
          (UriParser.path g) (UriParser.or_HEAD (UriParser.ref g))) GET None
       {| GiteaClient.this := client; GiteaClient.sent := requests p1 |}
       = (Ok (JArr items), st2) ->
     Forall (fun item => item <> JNull) items ->
     (exists p', stat H uri p = (Throw (FileNotFound uri), p')) /\
     (exists entries p', readDirectory H uri p = (Ok entries, p') /\
                         List.length entries = List.length items)).
Proof.
  split.
  - intros s p'. rewrite stat_eq.
    destruct (fetch_text H uri p) as [[content|e] p1]; [|done].
    intros [= <- <-]. split; [done|]. by exists content, p1.
  - intros g client p1 items st2 Hg Hc Hreq Hitems. split.
    + rewrite stat_eq. unfold fetch_text, mbind, M_bind, lift_result.
      rewrite Hg, Hc. unfold on_client, GiteaClient.getFileContent, mbind, M_bind.
      rewrite Hreq. simpl. by eexists.
    + unfold readDirectory, try_catch, mbind, M_bind, lift_result.
      rewrite Hg, Hc. unfold on_client, GiteaClient.listDirectoryContents.
      rewrite Hreq. simpl.
      destruct (to_tuple_total items Hitems) as (entries & -> & Hl).
      by eexists _, _.
Qed.

Lemma stat_reports_files_witness :
  (exists p', stat dir_host src_dir fresh
              = (Throw (FileNotFound src_dir), p')) /\
  (exists entries p',
     readDirectory dir_host src_dir fresh
     = (Ok entries, p') /\ List.length entries = List.length dir_items).
Proof.
  eapply (proj2 (stat_reports_files dir_host src_dir fresh)).
  - vm_compute. reflexivity.
  - vm_compute. reflexivity.
  - vm_compute. reflexivity.
  - repeat constructor; discriminate.
Defined.

End FileSystem.

(** ** The local repository manager *)

Module LocalRepository.
Import JS LocalRepoManager.

Section Laws.
Context {World : Type} (P : Platform World).

Lemma run_exec_eq command cwd (st : State World) :
  run_exec P command cwd st =
  ((exec P command cwd (world st)).1,
   {| world := (exec P command cwd (world st)).2;
      commands := commands st ++ [(command, cwd)];
      notifications := notifications st |}).
Proof. unfold run_exec. by destruct (exec P command cwd (world st)). Qed.

(** C8.  Without a metadata directory [getSyncStatus] returns the zeroed
    status as a result, not an error, and changes nothing: no command is
    run and no message is shown. *)
Theorem getSyncStatus_no_repository repoPath (st : State World) :
  existsSync P (path_join P repoPath ".git") (world st) = false ->
  getSyncStatus P repoPath st =
  (Ok {| isDirty := false; ahead := 0; behind := 0; untracked := [] |}, st).
Proof.
  intros Hno. unfold getSyncStatus, try_catch, mbind, M_bind, get_state.
  by rewrite Hno.
Qed.

(** With a repository and a status query that succeeds, the result is
    computed from the query's output alone. *)
Lemma getSyncStatus_status repoPath (st : State World) out w :
  existsSync P (path_join P repoPath ".git") (world st) = true ->
  exec P "git status --porcelain" repoPath (world st) = (Ok out, w) ->
  exists s st',
    getSyncStatus P repoPath st = (Ok s, st') /\
    isDirty s = isDirty_of (stdout out) /\
    untracked s = untracked_of (stdout out).
Proof.
  intros Hgit Hstatus.
  unfold getSyncStatus, try_catch, mbind, M_bind, get_state, mret, M_ret.
  rewrite Hgit. cbn [negb]. cbv beta iota.
  rewrite run_exec_eq, Hstatus. cbn [fst snd]. cbv beta iota.
  rewrite run_exec_eq. cbn [world].
  destruct (exec P "git rev-list --left-only --count @{u}...HEAD" repoPath w) as [[a|e] w1];
    cbn [fst snd]; [|by eexists _, _].
  rewrite run_exec_eq. cbn [world].
  destruct (exec P "git rev-list --right-only --count @{u}...HEAD" repoPath w1) as [[b|e] w2];
    cbn [fst snd]; by eexists _, _.
Qed.

Lemma negb_forallb {A} (f : A -> bool) l :
  negb (forallb f l) = existsb (fun x => negb (f x)) l.
Proof. induction l as [|x l IH]; simpl; [done|]. by rewrite negb_andb, IH. Qed.

Lemma existsb_map_filter {A B} (f : A -> bool) (g : A -> B) (h : B -> bool) l :
  existsb h (map g (List.filter f l)) = existsb (fun x => f x && h (g x)) l.
Proof.
  induction l as [|x l IH]; simpl; [done|].
  destruct (f x); simpl; by rewrite IH.
Qed.

(** What the dirty flag computes: whether some [??] line names a path. *)
Lemma isDirty_of_untracked statusOutput :
  isDirty_of statusOutput =
  existsb (fun line => startsWith "??" line && negb (is_empty (drop 3 line)))
          (split newline statusOutput).
Proof.
  unfold isDirty_of, untracked_of. rewrite negb_forallb, existsb_map_filter.
  destruct statusOutput; [done|]. reflexivity.
Qed.

Section Idempotence.
Variable cwd branch : string.
Variables staged clean : World -> Prop.
Hypothesis git : GitLaws P cwd staged clean.

Lemma sync_from_clean (st : State World) :
  clean (world st) ->
  exists st',
    syncToGitea P cwd branch st = (Ok (), st') /\
    commands st' = commands st ++
      [("git add -A", cwd); ("git status --porcelain", cwd)] /\
    notifications st' = notifications st ++
      [InformationMessage "✓ No changes to sync"] /\
    clean (world st').
Proof.
  intros Hc.
  destruct (add_keeps_clean P _ _ _ git _ Hc) as (o1 & w1 & Ha & Hc1).
  destruct (clean_status_blank P _ _ _ git _ Hc1) as (o2 & w2 & Hs & Hb & Hc2).
  unfold syncToGitea, try_catch, mbind, M_bind.
  rewrite run_exec_eq, Ha. cbn [fst snd]. rewrite run_exec_eq. cbn [world].
  rewrite Hs. cbn [fst snd]. rewrite Hb.
  eexists. split; [reflexivity|]. cbn [commands notifications world notify snd].
  rewrite <- app_assoc. done.
Qed.

Lemma not_succeeded_error (st : State World) w cs text e :
  ~ succeeded st {| world := w; commands := cs;
                    notifications := notifications st ++ [ErrorMessage text e] |}.
Proof. intros (t & Ht). simpl in Ht. apply app_inv_head in Ht. done. Qed.

Lemma not_succeeded_silent (st : State World) w cs :
  ~ succeeded st {| world := w; commands := cs; notifications := notifications st |}.
Proof.
  intros (t & Ht). simpl in Ht.
  apply (f_equal (@List.length _)) in Ht. rewrite length_app in Ht. simpl in Ht. lia.
Qed.

Ltac not_a_success :=
  let Hx := fresh in
  intros Hx; cbn [fst snd world commands notifications] in Hx;
  first [ by apply not_succeeded_error in Hx | by apply not_succeeded_silent in Hx ].

Lemma sync_success_clean (st : State World) :
  succeeded st (syncToGitea P cwd branch st).2 ->
  clean (world (syncToGitea P cwd branch st).2).
Proof.
  unfold syncToGitea, try_catch, mbind, M_bind, ask_input, notify, mret, M_ret.
  rewrite run_exec_eq.
  destruct (exec P "git add -A" cwd (world st)) as [[o1|e] w1] eqn:Ha; cbn [fst snd].
  2:{ not_a_success. }
  pose proof (add_stages P _ _ _ git _ _ _ Ha) as S1.
  rewrite run_exec_eq. cbn [world commands notifications].
  destruct (exec P "git status --porcelain" cwd w1) as [[o2|e] w2] eqn:Hs; cbn [fst snd].
  2:{ not_a_success. }
  pose proof (status_keeps_staged P _ _ _ git _ _ _ S1 Hs) as S2.
  destruct (is_empty (trim (stdout o2))) eqn:Hb.
  { intros _. cbn [snd world]. exact (blank_status_clean P _ _ _ git _ _ _ S1 Hs Hb). }
  cbn [world commands notifications].
  destruct (showInputBox P w2) as [a w3] eqn:Hi.
  pose proof (input_keeps_staged P _ _ _ git _ _ _ S2 Hi) as S3.
  destruct a as [[|c m]|]; cbn [fst snd].
  1,3: not_a_success.
  rewrite run_exec_eq. cbn [world commands notifications].
  destruct (exec P (commit_command (String c m)) cwd w3) as [[o3|e] w4] eqn:Hc; cbn [fst snd].
  2:{ not_a_success. }
  pose proof (commit_cleans P _ _ _ git _ _ _ _ S3 Hc) as C4.
  rewrite run_exec_eq. cbn [world commands notifications].
  destruct (exec P (push_command branch) cwd w4) as [[o4|e] w5] eqn:Hp; cbn [fst snd].
  2:{ not_a_success. }
  intros _. cbn [world]. exact (push_keeps_clean P _ _ _ git _ _ _ _ C4 Hp).
Qed.

(** A call that ends with a success message ran stage-all and the status
    query first. *)
Lemma sync_success_commands (st : State World) :
  succeeded st (syncToGitea P cwd branch st).2 ->
  exists rest,
    commands (syncToGitea P cwd branch st).2 =
    commands st ++ [("git add -A", cwd); ("git status --porcelain", cwd)] ++ rest.
Proof.
  unfold syncToGitea, try_catch, mbind, M_bind, ask_input, notify, mret, M_ret.
  rewrite run_exec_eq.
  destruct (exec P "git add -A" cwd (world st)) as [[o1|e] w1]; cbn [fst snd].
  2:{ not_a_success. }
  rewrite run_exec_eq. cbn [world commands notifications].
  destruct (exec P "git status --porcelain" cwd w1) as [[o2|e] w2]; cbn [fst snd].
  2:{ not_a_success. }
  destruct (is_empty (trim (stdout o2))).
  { intros _. exists []. cbn [snd commands]. by rewrite <- app_assoc. }
  cbn [world commands notifications].
  destruct (showInputBox P w2) as [a w3].
  destruct a as [[|c m]|]; cbn [fst snd].
  1,3: not_a_success.
  rewrite run_exec_eq. cbn [world commands notifications].
  destruct (exec P (commit_command (String c m)) cwd w3) as [[o3|e] w4]; cbn [fst snd].
  2:{ not_a_success. }
  rewrite run_exec_eq. cbn [world commands notifications].
  destruct (exec P (push_command branch) cwd w4) as [[o4|e] w5]; cbn [fst snd].
  2:{ not_a_success. }
  intros _. eexists [_; _]. cbn [commands]. by rewrite <- !app_assoc.
Qed.


End Idempotence.
End Laws.

Lemma toy_commit_command message w :
  toy_exec (commit_command message) "" w =
  if in_index w then (Ok {| stdout := ""; stderr := "" |},
                      {| unstaged := unstaged w; in_index := false |})
  else (Throw (ExecError "nothing to commit"), w).
Proof. reflexivity. Qed.

Lemma toy_push_command branch w :
  toy_exec (push_command branch) "" w = (Ok {| stdout := ""; stderr := "" |}, w).
Proof. reflexivity. Qed.

Lemma toy_git_laws cwd : GitLaws toy cwd toy_staged toy_clean.
Proof.
  split; unfold toy_staged, toy_clean; cbn [exec showInputBox toy].
  - intros [u i] o w'. by intros [= _ <-].
  - intros [u i] r w' Hs. by intros [= _ <-].
  - intros [u i] a w' Hs. by intros [= _ <-].
  - intros [u i] o w' Hs. cbn in Hs. subst u.
    destruct i; intros [= <- <-]; done.
  - intros [u i] message o w' Hs. cbn in Hs. subst u.
    change (toy_exec (commit_command message) cwd) with (toy_exec (commit_command message) "").
    rewrite toy_commit_command. destruct i; [|done]. by intros [= _ <-].
  - intros [u i] branch r w' Hc.
    change (toy_exec (push_command branch) cwd) with (toy_exec (push_command branch) "").
    rewrite toy_push_command. by intros [= _ <-].
  - intros [u i] [Hu Hi]. cbn in Hu, Hi. subst. by eexists _, _.
  - intros [u i] [Hu Hi]. cbn in Hu, Hi. subst. by eexists _, _.
Qed.

Lemma getSyncStatus_no_repository_witness :
  getSyncStatus (scripted false) "/home/bob/notes"
    (answers []) =
  (Ok {| isDirty := false; ahead := 0;
         behind := 0; untracked := [] |},
   answers []).
Proof.
  apply getSyncStatus_no_repository. reflexivity.
Defined.


(** C1.  The dirty flag at two status outputs.  For a single modified,
    tracked file the code reports [isDirty = false]; for a single untracked
    file it reports [isDirty = true]. *)
Lemma getSyncStatus_dirty_flag :
  (getSyncStatus (scripted true) "/home/bob/notes"
     (answers [" M a.txt" +:+ String newline ""])).1
  = Ok {| isDirty := false; ahead := 0;
          behind := 0; untracked := [] |} /\
  (getSyncStatus (scripted true) "/home/bob/notes"
     (answers ["?? new.txt" +:+ String newline ""])).1
  = Ok {| isDirty := true; ahead := 0;
          behind := 0; untracked := ["new.txt"] |}.
Proof. split; reflexivity. Qed.

End LocalRepository.

(** ** More on strings *)

Module MoreStrings.
Import JS StringFacts.

Lemma startsWith_empty s : startsWith "" s = true.
Proof. by destruct s. Qed.

Lemma includes_empty s : includes "" s = true.
Proof. destruct s; reflexivity. Qed.

Lemma startsWith_includes p s : startsWith p s = true -> includes p s = true.
Proof. intros E. destruct s; simpl; rewrite E; reflexivity. Qed.

Lemma includes_app_l a p s : includes p s = true -> includes p (a +:+ s) = true.
Proof.
  intros E. induction a as [|c a IH]; [exact E|].
  simpl. rewrite IH. apply orb_true_r.
Qed.

Lemma startsWith_app_l p x y : startsWith p x = true -> startsWith p (x +:+ y) = true.
Proof.
  revert x. induction p as [|a p IH]; intros [|b x]; simpl; try done.
  intros [-> E]%andb_true_iff. simpl. by apply IH.
Qed.

Lemma startsWith_length p s : startsWith p s = true -> (String.length p <= String.length s)%nat.
Proof.
  revert s. induction p as [|a p IH]; intros [|b s]; simpl; try done; try lia.
  intros [_ E]%andb_true_iff. apply IH in E. lia.
Qed.

Lemma eqb_length p s : String.eqb p s = true -> String.length p = String.length s.
Proof. intros E%String.eqb_eq. by subst. Qed.

Lemma length_append a b : String.length (a +:+ b) = (String.length a + String.length b)%nat.
Proof. induction a; simpl; [done|]. by rewrite IHa. Qed.

(** A suffix no longer than [s] is a suffix of [a +:+ s] exactly when it
    is one of [s]. *)
Lemma endsWith_app_long p a s :
  (String.length p <= String.length s)%nat ->
  endsWith p (a +:+ s) = endsWith p s.
Proof.
  intros Hl. induction a as [|c a IH]; [done|].
  simpl. rewrite IH.
  destruct (String.eqb p (String c (a +:+ s))) eqn:E; [|done].
  apply eqb_length in E. simpl in E. rewrite length_append in E. lia.
Qed.

Lemma includes_length p s : includes p s = true -> (String.length p <= String.length s)%nat.
Proof.
  induction s as [|c s IH]; simpl.
  - rewrite orb_false_r. apply startsWith_length.
  - intros [E|E]%orb_true_iff.
    + apply startsWith_length in E. simpl in E. lia.
    + apply IH in E. lia.
Qed.

End MoreStrings.

(** ** The API client: what holds for every client and every operation *)

Module ClientInvariants.
Import JS GiteaClient StringFacts MoreStrings ApiClient.

Lemma normalize_suffix u : endsWith "/api/v1" (normalize u) = true.
Proof.
  unfold normalize.
  destruct (negb (startsWith "http://" u) && negb (startsWith "https://" u));
    match goal with |- context [if endsWith ?p ?x then _ else _] =>
      destruct (endsWith p x) eqn:E end; try exact E; apply endsWith_app.
Qed.

Lemma normalize_scheme u :
  startsWith "http://" (normalize u) || startsWith "https://" (normalize u) = true.
Proof.
  unfold normalize.
  destruct (startsWith "http://" u) eqn:E1; cbn [negb andb].
  - destruct (endsWith "/api/v1" u); [by rewrite E1|].
    by rewrite (startsWith_app_l _ _ _ E1).
  - destruct (startsWith "https://" u) eqn:E2; cbn [negb].
    + destruct (endsWith "/api/v1" u); [by rewrite E2, orb_true_r|].
      by rewrite (startsWith_app_l _ _ _ E2), orb_true_r.
    + destruct (endsWith "/api/v1" ("https://" +:+ u)); [done|].
      by rewrite (startsWith_app_l "https://" ("https://" +:+ u) "/api/v1" eq_refl), orb_true_r.
Qed.

Lemma normalize_fixed u :
  startsWith "http://" u || startsWith "https://" u = true ->
  endsWith "/api/v1" u = true -> normalize u = u.
Proof.
  intros Hs He. unfold normalize.
  assert (negb (startsWith "http://" u) && negb (startsWith "https://" u) = false) as ->.
  { destruct (startsWith "http://" u), (startsWith "https://" u); done. }
  by rewrite He.
Qed.

Lemma http_not_https x e :
  startsWith "http://" x = true -> startsWith "https://" (x +:+ e) = false.
Proof.
  intros Hs. pose proof (startsWith_length _ _ Hs) as Hl.
  do 5 (destruct x as [|? x]; [simpl in Hl; lia|]).
  cbn [startsWith String.append] in Hs |- *.
  do 5 (apply andb_true_iff in Hs as [?%Ascii.eqb_eq Hs]). by subst.
Qed.

(** X1.  The client's base URL, however it is constructed, starts with
    [http://] or [https://] and ends with [/api/v1], and constructing a
    client from it again changes nothing; detection has not run; the
    explicit URL and token are used only when both are given and non-empty,
    otherwise both come from the settings. *)
Theorem constructor_base_url H b t :
  let c := constructor H b t in
  endsWith "/api/v1" (baseUrl c) = true /\
  startsWith "http://" (baseUrl c) || startsWith "https://" (baseUrl c) = true /\
  normalize (baseUrl c) = baseUrl c /\
  protocolDetected c = false /\
  (baseUrl c, token c) =
    (if given b && given t then (normalize (default "" b), default "" t)
     else (normalize (Settings.getHost H), Settings.getToken H)).
Proof.
  cbv zeta. unfold constructor.
  destruct (given b && given t); cbn [baseUrl token protocolDetected];
    (split; [apply normalize_suffix|]; split; [apply normalize_scheme|];
     split; [apply normalize_fixed; [apply normalize_scheme | apply normalize_suffix]|]; done).
Qed.

Lemma detectProtocol_this H base st : this (detectProtocol H base st).2 = this st.
Proof.
  unfold detectProtocol, try_catch, mbind, M_bind. rewrite fetch_eq.
  destruct (network H _ _) as [name message|r].
  - destruct (is_ssl_error _); [|done].
    rewrite fetch_eq. destruct (network H _ _) as [n2 m2|r2]; [done|]. by destruct (ok r2).
  - by destruct (ok r).
Qed.

(** The fields that [initializeConnection] may change are the base URL
    and the detection mark. *)
Lemma initializeConnection_this H st :
  let c' := this (initializeConnection H st).2 in
  token c' = token (this st) /\
  trustInsecureCerts c' = trustInsecureCerts (this st) /\
  enableLogging c' = enableLogging (this st) /\
  (protocolDetected (this st) = false -> protocolDetected c' = true) /\
  (endsWith "/api/v1" (baseUrl (this st)) = true -> endsWith "/api/v1" (baseUrl c') = true).
Proof.
  cbv zeta. unfold initializeConnection, mbind, M_bind, self, try_catch.
  destruct (protocolDetected (this st)) eqn:Hd; [done|].
  pose proof (detectProtocol_this H (baseUrl (this st)) st) as Ht.
  destruct (detectProtocol H (baseUrl (this st)) st) as [[u|e] s]; simpl in Ht |- *;
    rewrite Ht; repeat split; try done.
  intros _. destruct (endsWith "/api/v1" u) eqn:E; [exact E | apply endsWith_app].
Qed.

Lemma connected_this H st :
  let c' := this (connected H st) in
  token c' = token (this st) /\
  trustInsecureCerts c' = trustInsecureCerts (this st) /\
  protocolDetected c' = true /\
  (endsWith "/api/v1" (baseUrl (this st)) = true -> endsWith "/api/v1" (baseUrl c') = true).
Proof.
  cbv zeta. unfold connected. destruct (protocolDetected (this st)) eqn:Hd; [done|].
  destruct (initializeConnection_this H st) as (A & B & _ & C & D). auto.
Qed.

Lemma call_state H op st :
  (call H op st).2 =
  push (api_request (this (connected H st)) (endpoint_of op) (method_of op) (body_of op))
       (connected H st).
Proof.
  rewrite <- request_state.
  destruct op; cbn [call endpoint_of method_of body_of]; try (apply FileSystem.fmap_state).
  - rewrite FileSystem.fmap_state. apply getFileContent_state.
  - rewrite FileSystem.fmap_state.
    unfold searchRepositories, mbind, M_bind, lift_result, mret, M_ret.
    destruct (request H _ GET None st) as [[data|e] s]; [|done]. simpl.
    by destruct (get_property data p_data).
  - rewrite FileSystem.fmap_state.
    unfold getRepositoryContents, try_catch, mbind, M_bind, lift_result, mret, M_ret.
    destruct (request H _ GET None st) as [[data|e] s]; [|done]. simpl.
    by destruct (map_array to_entry data).
Qed.

(** X2.  Every operation of the client, whatever it returns or throws,
    sends exactly one request of its own: to the base URL followed by the
    operation's endpoint, with the operation's method and body, after the
    requests of protocol detection (if it had not run). *)
Theorem operation_sends_one_request H op st :
  let st1 := connected H st in
  let req := api_request (this st1) (endpoint_of op) (method_of op) (body_of op) in
  sent (call H op st).2 = sent st1 ++ [req] /\
  this (call H op st).2 = this st1 /\
  req_url req = baseUrl (this st1) +:+ endpoint_of op /\
  exists probes,
    sent st1 = sent st ++ probes /\ forallb is_probe probes = true /\
    is_probe req = false.
Proof.
  cbv zeta. rewrite call_state. repeat split.
  destruct (connected_sent H st) as (probes & Hs & Hp).
  exists probes. repeat split; [done..|apply api_request_not_probe].
Qed.

(** X3.  After any operation the client is marked as detected, holds the
    token and the certificate setting it had, and its base URL still ends
    with [/api/v1] if it did before. *)
Theorem operation_keeps_client H op st :
  let c' := this (call H op st).2 in
  protocolDetected c' = true /\
  token c' = token (this st) /\
  trustInsecureCerts c' = trustInsecureCerts (this st) /\
  (endsWith "/api/v1" (baseUrl (this st)) = true ->
   endsWith "/api/v1" (baseUrl c') = true).
Proof.
  cbv zeta. rewrite call_state. cbn [push this].
  destruct (connected_this H st) as (A & B & C & D). auto.
Qed.

Lemma detectProtocol_anonymous H base st :
  exists probes,
    sent (detectProtocol H base st).2 = sent st ++ probes /\
    (List.length probes <= 2)%nat /\
    Forall (fun r => req_method r = GET /\ req_headers r = [] /\ req_body r = None /\
                     (req_agent r = Some (HttpsAgent false) \/ req_agent r = None))
           probes.
Proof.
  unfold detectProtocol, try_catch, mbind, M_bind.
  set (testUrl := if endsWith "/api/v1" base then remove_first "/api/v1" base else base).
  rewrite fetch_eq.
  set (p1 := probe (testUrl +:+ "/api/v1/version") (Some (HttpsAgent false))) in *.
  set (p2 := probe ("http://" +:+ strip_http_scheme testUrl +:+ "/api/v1/version") None) in *.
  set (anonymous := fun r : Request => _).
  assert (A1 : anonymous p1) by (subst anonymous; simpl; auto).
  assert (A2 : anonymous p2) by (subst anonymous; simpl; auto).
  assert (E : forall l : list Request, (l ++ [p1]) ++ [p2] = l ++ [p1; p2])
    by (intros l; by rewrite <- app_assoc).
  destruct (network H _ _) as [name message|r].
  - destruct (is_ssl_error _).
    + rewrite fetch_eq. destruct (network H _ _) as [n2 m2|r2].
      * exists [p1; p2]. split; [apply E|]. split; [simpl; lia | by repeat constructor].
      * exists [p1; p2]. destruct (ok r2);
          (split; [apply E|]; split; [simpl; lia | by repeat constructor]).
    + exists [p1]. split; [done|]. split; [simpl; lia | by repeat constructor].
  - exists [p1]. destruct (ok r);
      (split; [done|]; split; [simpl; lia | by repeat constructor]).
Qed.

(** X4.  Protocol detection sends at most two requests, and none of them
    carries the token or any other header; the HTTPS probe is sent with
    certificate verification switched off, whatever the client's setting. *)
Theorem detection_is_anonymous H st :
  exists probes,
    sent (initializeConnection H st).2 = sent st ++ probes /\
    (List.length probes <= 2)%nat /\
    Forall (fun r => req_method r = GET /\ req_headers r = [] /\ req_body r = None /\
                     (req_agent r = Some (HttpsAgent false) \/ req_agent r = None))
           probes /\
    (protocolDetected (this st) = true -> probes = []).
Proof.
  unfold initializeConnection, mbind, M_bind, self, try_catch.
  destruct (protocolDetected (this st)) eqn:Hd.
  - exists []. rewrite app_nil_r. repeat split; [simpl; lia | constructor].
  - destruct (detectProtocol_anonymous H (baseUrl (this st)) st) as (probes & Hs & Hl & Hp).
    exists probes.
    destruct (detectProtocol H (baseUrl (this st)) st) as [[u|e] s]; simpl in Hs |- *;
      repeat split; done.
Qed.

(** X5.  What the request that an operation sends carries, whatever
    protocol detection did before it.  The [Authorization] header holds the
    token the client had before the call.  The agent follows the address
    the request goes to: for [https://] one that verifies certificates
    exactly when [trustInsecureCertificates] is switched off (for a client
    built by the constructor that is the setting, which is on when the user
    has set nothing), and a plain HTTP agent otherwise.  In particular,
    when detection falls back to HTTP, the request goes to the [http://]
    address with the plain agent, and the token with it. *)
Theorem request_credentials H op st :
  let st1 := connected H st in
  let req := api_request (this st1) (endpoint_of op) (method_of op) (body_of op) in
  sent (call H op st).2 = sent st1 ++ [req] /\
  req_headers req =
    [("Authorization", "token " +:+ token (this st));
     ("Content-Type", "application/json")] /\
  req_agent req =
    Some (if startsWith "https://" (req_url req)
          then HttpsAgent (negb (trustInsecureCerts (this st)))
          else HttpAgent) /\
  (startsWith "http://" (baseUrl (this st1)) = true -> req_agent req = Some HttpAgent) /\
  (forall b t, this st = constructor H b t ->
     trustInsecureCerts (this st) =
     default true (g2r_trustInsecureCertificates (configuration H))) /\
  (req_body req = None <-> truthy (body_of op) = false) /\
  (forall host name message r,
     let root := "https://" +:+ host in
     let n := List.length (sent st) in
     baseUrl (this st) = root +:+ "/api/v1" ->
     includes "/api/v1" root = false ->
     protocolDetected (this st) = false ->
     network H n (probe (root +:+ "/api/v1/version") (Some (HttpsAgent false)))
       = Rejected name message ->
     is_ssl_error (FetchError name message) = true ->
     network H (S n) (probe ("http://" +:+ host +:+ "/api/v1/version") None)
       = Responded r ->
     ok r = true ->
     req_url req = "http://" +:+ host +:+ "/api/v1" +:+ endpoint_of op /\
     req_agent req = Some HttpAgent).
Proof.
  cbv zeta. rewrite call_state.
  destruct (connected_this H st) as (Htok & Htrust & _ & _).
  split; [done|]. split; [by rewrite <- Htok|]. split; [by rewrite <- Htrust|].
  split; [|split; [|split]].
  - intros Hs. unfold api_request. cbn [req_agent].
    by rewrite (http_not_https _ (endpoint_of op) Hs).
  - intros b t ->. unfold constructor. by destruct (given b && given t).
  - unfold api_request. cbn [req_body].
    destruct (truthy (body_of op)) eqn:E; [|done].
    destruct (body_of op) as [v|]; [split; done | by simpl in E].
  - intros host name message r Hbase Hroot Hnd E1 Hssl E2 Hok.
    unfold connected. rewrite Hnd.
    rewrite (initializeConnection_eq H st host Hbase Hroot Hnd).
    cbn [snd]. rewrite E1, Hssl, E2, Hok.
    unfold api_request, detected.
    cbn [this baseUrl set_baseUrl set_protocolDetected req_url req_agent].
    split; [by rewrite !append_assoc | reflexivity].
Qed.

Lemma request_credentials_witness :
  let H := stub_host (plain_http_only (JObj [("login", JStr "bob")])) in
  let st := {| this := constructor H (Some "gitea.local") (Some "abc123");
               sent := [] |} in
  let req := api_request (this (connected H st)) "/user" GET None in
  req_url req = "http://gitea.local/api/v1/user" /\ req_agent req = Some HttpAgent.
Proof.
  intros H st req.
  destruct (request_credentials H op_getCurrentUser st) as (_ & _ & _ & _ & _ & _ & Hfall).
  apply (Hfall "gitea.local" _ _ _ eq_refl eq_refl eq_refl eq_refl eq_refl eq_refl eq_refl).
Defined.

Section HttpBase.
Variable H : Host.
Variable host : string.
Let root := "http://" +:+ host.
Let url := root +:+ "/api/v1/version".
Hypothesis Hroot : includes "/api/v1" root = false.

Lemma http_testUrl :
  (if endsWith "/api/v1" (root +:+ "/api/v1")
   then remove_first "/api/v1" (root +:+ "/api/v1") else root +:+ "/api/v1") = root.
Proof. rewrite endsWith_app. apply remove_first_suffix; [reflexivity | exact Hroot]. Qed.

Lemma http_strip : strip_http_scheme root = host.
Proof. reflexivity. Qed.

Lemma http_fallback_root :
  remove_first "/api/v1/version" ("http://" +:+ strip_http_scheme root +:+ "/api/v1/version")
  = root.
Proof.
  rewrite http_strip.
  change ("http://" +:+ host +:+ "/api/v1/version") with (root +:+ "/api/v1/version").
  apply remove_first_suffix; [reflexivity|].
  apply (includes_longer "/api/v1"); [reflexivity | exact Hroot].
Qed.

Lemma http_final :
  (if endsWith "/api/v1" root then root else root +:+ "/api/v1") = root +:+ "/api/v1".
Proof.
  destruct (endsWith "/api/v1" root) eqn:E; [|done].
  apply endsWith_includes in E. congruence.
Qed.

Lemma http_detectProtocol_eq st :
  detectProtocol H (root +:+ "/api/v1") st =
  match network H (List.length (sent st)) (probe url (Some (HttpsAgent false))) with
  | Responded r => (Ok root, push (probe url (Some (HttpsAgent false))) st)
  | Rejected name message =>
      if is_ssl_error (FetchError name message) then
        match network H (S (List.length (sent st))) (probe url None) with
        | Responded r =>
            (Ok root, push (probe url None) (push (probe url (Some (HttpsAgent false))) st))
        | Rejected _ _ =>
            (Throw (FetchError name message),
             push (probe url None) (push (probe url (Some (HttpsAgent false))) st))
        end
      else (Ok root, push (probe url (Some (HttpsAgent false))) st)
  end.
Proof.
  unfold detectProtocol. rewrite http_testUrl.
  unfold try_catch at 1. unfold mbind, M_bind. rewrite fetch_eq.
  fold url.
  destruct (network H (List.length (sent st)) _) as [name message|r].
  - destruct (is_ssl_error (FetchError name message)); [|done].
    unfold try_catch. rewrite fetch_eq. rewrite http_fallback_root.
    assert (List.length (sent (push (probe url (Some (HttpsAgent false))) st))
            = S (List.length (sent st))) as ->.
    { simpl. rewrite length_app. simpl. lia. }
    rewrite http_strip. fold root url.
    destruct (network H (S (List.length (sent st))) _) as [n2 m2|r2]; [done|].
    by destruct (ok r2).
  - by destruct (ok r).
Qed.

Lemma http_detectProtocol st :
  exists probes,
    sent (detectProtocol H (root +:+ "/api/v1") st).2 = sent st ++ probes /\
    Forall (fun r => req_url r = url) probes /\
    (forall u, (detectProtocol H (root +:+ "/api/v1") st).1 = Ok u -> u = root).
Proof.
  rewrite http_detectProtocol_eq.
  set (p1 := probe url (Some (HttpsAgent false))).
  set (p2 := probe url None).
  assert (E : forall l : list Request, (l ++ [p1]) ++ [p2] = l ++ [p1; p2])
    by (intros l; by rewrite <- app_assoc).
  assert (F1 : Forall (fun r => req_url r = url) [p1]) by (by constructor).
  assert (F2 : Forall (fun r => req_url r = url) [p1; p2]) by (by repeat constructor).
  destruct (network H _ p1) as [name message|r].
  - destruct (is_ssl_error _).
    + destruct (network H _ p2) as [n2 m2|r2].
      * exists [p1; p2]. split; [apply E|]. split; [exact F2 | done].
      * exists [p1; p2]. split; [apply E|]. split; [exact F2 | by intros u [= <-]].
    + exists [p1]. split; [done|]. split; [exact F1 | by intros u [= <-]].
  - exists [p1]. split; [done|]. split; [exact F1 | by intros u [= <-]].
Qed.

End HttpBase.

(** X6.  A client whose base URL is [http://host/api/v1] (what the
    provider builds for a local server) keeps it through protocol detection
    whatever the network answers: both probes go to the same [http://]
    address, and nothing is ever sent to an [https://] one. *)
Theorem http_base_is_kept H st host :
  let root := "http://" +:+ host in
  let st' := (initializeConnection H st).2 in
  baseUrl (this st) = root +:+ "/api/v1" ->
  includes "/api/v1" root = false ->
  protocolDetected (this st) = false ->
  baseUrl (this st') = baseUrl (this st) /\
  protocolDetected (this st') = true /\
  exists probes,
    sent st' = sent st ++ probes /\
    Forall (fun r => req_url r = root +:+ "/api/v1/version") probes.
Proof.
  intros root st' Hbase Hroot Hnd. subst st'.
  unfold initializeConnection, mbind, M_bind, self, try_catch. rewrite Hnd, Hbase.
  fold root.
  destruct (http_detectProtocol H host Hroot st) as (probes & Hs & Hp & Hu).
  fold root in Hs, Hp, Hu.
  pose proof (detectProtocol_this H (root +:+ "/api/v1") st) as Ht.
  destruct (detectProtocol H (root +:+ "/api/v1") st) as [[u|e] s];
    cbn [fst snd] in Hs, Hu, Ht |- *.
  - rewrite (Hu u eq_refl). fold root.
    pose proof (http_final host Hroot) as Hf. fold root in Hf. rewrite Hf.
    unfold update. cbn [fst snd this sent baseUrl protocolDetected set_baseUrl
                        set_protocolDetected].
    repeat split; eauto.
  - unfold update. cbn [fst snd this sent baseUrl protocolDetected set_protocolDetected].
    rewrite Ht. repeat split; eauto.
Qed.

Lemma http_base_is_kept_witness :
  let H := stub_host (plain_http_only (JObj [("version", JStr "1.21.0")])) in
  let st := {| this := constructor H (Some (UriParser.getServerUrl "localhost:3000"))
                         (Some "abc123");
               sent := [] |} in
  baseUrl (this (initializeConnection H st).2) = "http://localhost:3000/api/v1".
Proof.
  intros H st.
  destruct (http_base_is_kept H st "localhost:3000" eq_refl eq_refl eq_refl) as (Hb & _).
  exact Hb.
Defined.

End ClientInvariants.

(** ** The virtual filesystem: clients, failures and the cache *)

Module ProviderState.
Import GiteaFileSystemProvider ApiClient FileSystem MoreStrings ClientInvariants.

Lemma getClient_held H server p c :
  clients p !! server = Some c -> getClient H server p = (Ok c, p).
Proof. intros Hc. unfold getClient, mbind, M_bind, get_state. by rewrite Hc. Qed.

Lemma getClient_no_token H server p :
  clients p !! server = None -> GiteaClient.given (getToken H server) = false ->
  getClient H server p = (Throw (NoToken server), p).
Proof. intros Hc Ht. unfold getClient, mbind, M_bind, get_state. by rewrite Hc, Ht. Qed.

(** X7.  The provider builds a server's client once: from the address
    [getServerUrl] gives and the stored token, with detection still to run.
    Once a client is held it is returned without asking for the token
    again, whatever the vault holds by then; without a token nothing is
    built, and the call fails with the provider unchanged. *)
Theorem getClient_builds_once H server p :
  (forall c H', clients p !! server = Some c -> getClient H' server p = (Ok c, p)) /\
  (clients p !! server = None -> GiteaClient.given (getToken H server) = false ->
   getClient H server p = (Throw (NoToken server), p)) /\
  (clients p !! server = None -> GiteaClient.given (getToken H server) = true ->
   exists c,
     getClient H server p = (Ok c, set_clients (insert server c) p) /\
     GiteaClient.baseUrl c = GiteaClient.normalize (UriParser.getServerUrl server) /\
     GiteaClient.token c = default "" (getToken H server) /\
     GiteaClient.protocolDetected c = false /\
     forall H', getClient H' server (set_clients (insert server c) p)
                = (Ok c, set_clients (insert server c) p)).
Proof.
  split; [|split].
  - intros c H' Hc. by apply getClient_held.
  - apply getClient_no_token.
  - intros Hc Ht. unfold getClient at 1. unfold mbind, M_bind, get_state, modify, mret, M_ret.
    rewrite Hc, Ht. cbn [negb]. eexists. split; [reflexivity|].
    assert (Hg : GiteaClient.given (Some (UriParser.getServerUrl server)) = true).
    { unfold UriParser.getServerUrl. by destruct (_ || _). }
    unfold GiteaClient.constructor. rewrite Hg, Ht.
    cbn [andb GiteaClient.baseUrl GiteaClient.token GiteaClient.protocolDetected default].
    split; [done|]. split; [done|]. split; [done|].
    intros H'. apply getClient_held. cbn [set_clients clients]. by rewrite lookup_insert_eq.
Qed.

Lemma getClient_holds H server p c p0 :
  getClient H server p = (Ok c, p0) ->
  clients p0 !! server = Some c /\ requests p0 = requests p.
Proof.
  unfold getClient, mbind, M_bind, get_state, modify, mret, M_ret, throw.
  destruct (clients p !! server) as [c0|] eqn:E.
  - by intros [= <- <-].
  - destruct (negb (GiteaClient.given (getToken H server))); [done|].
    intros [= <- <-]. cbn [set_clients clients requests]. by rewrite lookup_insert_eq.
Qed.

Lemma fetch_text_client H uri p content p1 :
  fetch_text H uri p = (Ok content, p1) ->
  exists g c,
    UriParser.parseGiteaUri uri = Ok g /\
    clients p1 !! UriParser.server g = Some c /\
    GiteaClient.protocolDetected c = true.
Proof.
  unfold fetch_text, mbind, M_bind, lift_result.
  destruct (UriParser.parseGiteaUri uri) as [g|e]; [|done].
  destruct (getClient H (UriParser.server g) p) as [[c|e] p0]; [|done].
  unfold on_client.
  match goal with |- context [GiteaClient.getFileContent ?H ?o ?r ?pa ?rf ?st] =>
    pose proof (getFileContent_state H o r pa rf st) as Hst;
    rewrite request_state in Hst;
    destruct (connected_this H st) as (_ & _ & Hd & _);
    destruct (GiteaClient.getFileContent H o r pa rf st) as [[t|e] st2]
  end; [|done].
  intros [= <- <-]. exists g, (GiteaClient.this st2).
  split; [done|]. cbn [clients]. rewrite lookup_insert_eq. split; [done|].
  cbn [snd] in Hst. rewrite Hst. exact Hd.
Qed.

Lemma fetch_text_detected H uri p g c :
  UriParser.parseGiteaUri uri = Ok g ->
  clients p !! UriParser.server g = Some c ->
  GiteaClient.protocolDetected c = true ->
  requests (fetch_text H uri p).2 =
  requests p ++
    [GiteaClient.api_request c
       (GiteaClient.contents_endpoint (UriParser.owner g) (UriParser.repo g)
          (UriParser.path g) (UriParser.or_HEAD (UriParser.ref g))) GET None].
Proof.
  intros Hg Hc Hd. unfold fetch_text, mbind, M_bind, lift_result. rewrite Hg.
  rewrite (getClient_held H (UriParser.server g) p c Hc).
  match goal with |- context [on_client ?s ?c ?m ?p] =>
    destruct (on_client_frame s c m p) as (_ & _ & Hq) end.
  rewrite Hq, getFileContent_state, request_detected_state by exact Hd. done.
Qed.

(** X8.  Protocol detection runs once per server, not once per file:
    after a [readFile] that succeeded, the provider holds the server's
    client marked as detected, and every later [readFile] of an uncached
    address and every [stat] on that server sends exactly one request,
    the one for the content. *)
Theorem detection_once_per_server H uri p bytes p1 :
  readFile H uri p = (Ok bytes, p1) ->
  cache p !! uri = None ->
  exists g c,
    UriParser.parseGiteaUri uri = Ok g /\
    clients p1 !! UriParser.server g = Some c /\
    GiteaClient.protocolDetected c = true /\
    forall H' uri2 g2,
      UriParser.parseGiteaUri uri2 = Ok g2 ->
      UriParser.server g2 = UriParser.server g ->
      let req :=
        GiteaClient.api_request c
          (GiteaClient.contents_endpoint (UriParser.owner g2) (UriParser.repo g2)
             (UriParser.path g2) (UriParser.or_HEAD (UriParser.ref g2))) GET None in
      requests (stat H' uri2 p1).2 = requests p1 ++ [req] /\
      (cache p1 !! uri2 = None ->
       requests (readFile H' uri2 p1).2 = requests p1 ++ [req]).
Proof.
  intros Hread Hmiss. rewrite readFile_miss in Hread by done.
  destruct (fetch_text H uri p) as [[content|e] p0] eqn:E; [|done].
  injection Hread as _ <-.
  destruct (fetch_text_client _ _ _ _ _ E) as (g & c & Hg & Hc & Hd).
  exists g, c. split; [done|]. split; [done|]. split; [done|].
  intros H' uri2 g2 Hg2 Hs req.
  assert (Hc' : clients (set_cache (insert uri (Buffer.TextEncoder_encode content)) p0)
                  !! UriParser.server g2 = Some c) by (by rewrite Hs).
  pose proof (fetch_text_detected H' uri2 _ g2 c Hg2 Hc' Hd) as Hreq.
  split.
  - rewrite stat_eq. destruct (fetch_text H' uri2 _) as [[t|e] q]; exact Hreq.
  - intros Hm. rewrite readFile_miss by exact Hm.
    destruct (fetch_text H' uri2 _) as [[t|e] q]; exact Hreq.
Qed.

Lemma detection_once_per_server_witness :
  let p1 := (readFile file_host readme fresh).2 in
  exists req,
    requests (stat file_host "gitea://gitea.local/bob/foo/LICENSE" p1).2
    = requests p1 ++ [req].
Proof.
  intros p1.
  assert (Hread : readFile file_host readme fresh = (Ok hello, p1))
    by (vm_compute; reflexivity).
  destruct (detection_once_per_server file_host readme fresh hello p1 Hread eq_refl)
    as (g & c & Hg & _ & _ & Hall).
  vm_compute in Hg. injection Hg as <-.
  edestruct (Hall file_host "gitea://gitea.local/bob/foo/LICENSE") as [Hstat _];
    [vm_compute; reflexivity | reflexivity |].
  eexists. exact Hstat.
Defined.

(** X9.  A [readFile] that fails reports [Failed to read file] around the
    cause and stores nothing; when the address is malformed, or the server
    has no client and no token, it fails before anything is sent and leaves
    the provider as it was. *)
Theorem readFile_failure H uri p e p' :
  readFile H uri p = (Throw e, p') ->
  cache p !! uri = None /\ cache p' = cache p /\ ticks p' = ticks p /\
  exists cause,
    e = ReadFileError cause /\
    fetch_text H uri p = (Throw cause, p') /\
    (forall c, UriParser.parseGiteaUri uri = Throw c -> cause = c /\ p' = p) /\
    (forall g, UriParser.parseGiteaUri uri = Ok g ->
       clients p !! UriParser.server g = None ->
       GiteaClient.given (getToken H (UriParser.server g)) = false ->
       cause = NoToken (UriParser.server g) /\ p' = p).
Proof.
  intros Hread.
  destruct (cache p !! uri) as [b|] eqn:Hc.
  { by rewrite (readFile_hit _ _ _ _ Hc) in Hread. }
  rewrite readFile_miss in Hread by done.
  destruct (fetch_text_frame H uri p) as (Hf & Ht).
  destruct (fetch_text H uri p) as [[content|cause] p1] eqn:E; [done|].
  injection Hread as <- <-. cbn [snd] in Hf, Ht.
  split; [done|]. split; [done|]. split; [done|].
  exists cause. split; [done|]. split; [done|]. split.
  - intros c Hp. revert E. unfold fetch_text, mbind, M_bind, lift_result. rewrite Hp.
    by intros [= <- <-].
  - intros g Hg Hcl Ht0. revert E. unfold fetch_text, mbind, M_bind, lift_result.
    rewrite Hg.
    rewrite (getClient_no_token H (UriParser.server g) p Hcl Ht0).
    by intros [= <- <-].
Qed.

Lemma readFile_failure_witness :
  readFile file_host "gitea://gitea.local/onlyowner" fresh =
  (Throw (ReadFileError (MalformedAddress MissingOwnerRepo)), fresh).
Proof.
  destruct (readFile file_host "gitea://gitea.local/onlyowner" fresh) as [[b|e] p'] eqn:E;
    [by vm_compute in E|].
  destruct (readFile_failure file_host _ fresh e p' E)
    as (_ & _ & _ & cause & -> & _ & Hparse & _).
  by destruct (Hparse (MalformedAddress MissingOwnerRepo) eq_refl) as [-> ->].
Defined.

(** X10.  [stat] neither reads nor fills the cache: every successful
    [stat], also of an address whose content is cached, sends the content
    request again, reads the clock twice, and reports the two readings as
    creation and modification time; every failure is the file-not-found
    error of the address. *)
Theorem stat_bypasses_cache H uri p :
  cache (stat H uri p).2 = cache p /\
  (forall s p', stat H uri p = (Ok s, p') ->
     ticks p' = (2 + ticks p)%nat /\
     ctime s = clock H (ticks p) /\ mtime s = clock H (S (ticks p)) /\
     exists g client probes,
       UriParser.parseGiteaUri uri = Ok g /\
       forallb GiteaClient.is_probe probes = true /\
       requests p' = requests p ++ probes ++
         [GiteaClient.api_request client
            (GiteaClient.contents_endpoint (UriParser.owner g) (UriParser.repo g)
               (UriParser.path g) (UriParser.or_HEAD (UriParser.ref g))) GET None]) /\
  (forall e p', stat H uri p = (Throw e, p') -> e = FileNotFound uri /\ ticks p' = ticks p).
Proof.
  rewrite stat_eq.
  destruct (fetch_text_frame H uri p) as (Hf & Ht).
  destruct (fetch_text H uri p) as [[content|e] p1] eqn:E; cbn [snd] in Hf, Ht.
  - split; [done|]. split; [|done].
    intros s p' [= <- <-]. cbn [bump ticks ctime mtime requests]. rewrite Ht.
    split; [done|]. split; [done|]. split; [done|].
    by apply (fetch_text_requests H uri p content p1).
  - split; [done|]. split; [done|]. by intros e' p' [= <- <-].
Qed.

Lemma clearServerCache_lookup server p uri :
  cache (clearServerCache server p).2 !! uri =
  if JS.includes server uri then None else cache p !! uri.
Proof.
  unfold clearServerCache, modify. cbn [snd set_cache cache].
  destruct (JS.includes server uri) eqn:E.
  - apply map_lookup_filter_None. right. intros x _. cbn [fst]. by rewrite E.
  - destruct (cache p !! uri) as [b|] eqn:Hc.
    + apply map_lookup_filter_Some. by split.
    + apply map_lookup_filter_None. by left.
Qed.

Lemma clearServerCache_empty p : cache (clearServerCache "" p).2 = ∅.
Proof.
  apply map_eq. intros uri. rewrite clearServerCache_lookup, includes_empty.
  by rewrite lookup_empty.
Qed.

(** X11.  [clearServerCache] drops exactly the entries whose address
    contains the server's name and touches nothing else of the provider.
    Every address that [createGiteaUri] builds for the server is among
    them; with the empty name, every entry is dropped. *)
Theorem clearServerCache_scope server p :
  let p' := (clearServerCache server p).2 in
  (forall uri, cache p' !! uri = if JS.includes server uri then None else cache p !! uri) /\
  (forall owner repo path ref,
     cache p' !! UriParser.createGiteaUri server owner repo path ref = None) /\
  (server = "" -> cache p' = ∅) /\
  clients p' = clients p /\ requests p' = requests p /\ ticks p' = ticks p.
Proof.
  cbv zeta. split; [apply clearServerCache_lookup|]. split; [|split; [|done]].
  - intros owner repo path ref. rewrite clearServerCache_lookup.
    assert (JS.includes server (UriParser.createGiteaUri server owner repo path ref) = true) as ->;
      [|done].
    unfold UriParser.createGiteaUri. cbv zeta.
    rewrite !StringFacts.append_assoc.
    apply includes_app_l, startsWith_includes, StringFacts.startsWith_app.
  - intros ->. apply clearServerCache_empty.
Qed.

End ProviderState.

(** ** The authentication manager *)

Module TokenVault.
Import AuthManager MoreStrings.

Lemma append_inv_tail a b t : a +:+ t = b +:+ t -> a = b.
Proof.
  revert b. induction a as [|c a IH]; intros [|d b] E; [done|..].
  - apply (f_equal String.length) in E. simpl in E. rewrite length_append in E. lia.
  - apply (f_equal String.length) in E. simpl in E. rewrite length_append in E. lia.
  - simpl in E. injection E as -> E. f_equal. by apply IH.
Qed.

Lemma token_not_user a b : a +:+ ":token" <> b +:+ ":user".
Proof.
  revert b. induction a as [|c a IH]; intros b E.
  - do 2 (destruct b as [|? b]; [done|]).
    apply (f_equal String.length) in E. simpl in E. rewrite length_append in E.
    simpl in E. lia.
  - destruct b as [|d b].
    + apply (f_equal String.length) in E. simpl in E. rewrite length_append in E.
      simpl in E. lia.
    + simpl in E. injection E as _ E. by apply (IH b).
Qed.

Lemma tokenKey_inj a b : tokenKey a = tokenKey b -> a = b.
Proof. unfold tokenKey. intros E. simpl in E. injection E as E. by apply append_inv_tail in E. Qed.

Lemma userKey_inj a b : userKey a = userKey b -> a = b.
Proof. unfold userKey. intros E. simpl in E. injection E as E. by apply append_inv_tail in E. Qed.

Lemma tokenKey_userKey a b : tokenKey a <> userKey b.
Proof. unfold tokenKey, userKey. intros E. simpl in E. injection E as E. by apply token_not_user in E. Qed.

Lemma getToken_eq server v :
  getToken server v =
  (Ok match configCache v !! server with
      | Some config => Some (cfg_token config)
      | None => secrets v !! tokenKey server
      end, v).
Proof.
  unfold getToken, mbind, M_bind, get_state, mret, M_ret, secrets_get.
  by destruct (configCache v !! server).
Qed.

Lemma token_of_eq v server :
  token_of v server =
  match configCache v !! server with
  | Some config => Some (cfg_token config)
  | None => secrets v !! tokenKey server
  end.
Proof.
  unfold token_of. by rewrite getToken_eq.
Qed.

Lemma setToken_eq server token username v :
  (setToken server token username v).2 =
  {| secrets :=
       (if GiteaClient.given username
        then <[userKey server := default "" username]> (<[tokenKey server := token]> (secrets v))
        else <[tokenKey server := token]> (secrets v));
     configCache :=
       <[server := {| cfg_server := server; cfg_token := token; cfg_username := username |}]>
         (configCache v) |}.
Proof.
  unfold setToken, mbind, M_bind, secrets_store, update_cache, mret, M_ret.
  by destruct (GiteaClient.given username).
Qed.

Lemma setToken_secrets_token server token username v :
  secrets (setToken server token username v).2 !! tokenKey server = Some token.
Proof.
  rewrite setToken_eq. cbn [secrets].
  destruct (GiteaClient.given username).
  - rewrite lookup_insert_ne by (intros E; by apply (tokenKey_userKey server server)).
    apply lookup_insert_eq.
  - apply lookup_insert_eq.
Qed.

Lemma setToken_secrets_other server token username v key :
  key <> tokenKey server -> key <> userKey server ->
  secrets (setToken server token username v).2 !! key = secrets v !! key.
Proof.
  intros H1 H2. rewrite setToken_eq. cbn [secrets].
  destruct (GiteaClient.given username); by rewrite !lookup_insert_ne.
Qed.

Lemma deleteToken_eq server v :
  (deleteToken server v).2 =
  {| secrets := base.delete (userKey server) (base.delete (tokenKey server) (secrets v));
     configCache := base.delete server (configCache v) |}.
Proof. reflexivity. Qed.

Lemma other_keys server other :
  other <> server ->
  tokenKey other <> tokenKey server /\ tokenKey other <> userKey server /\
  userKey other <> tokenKey server /\ userKey other <> userKey server.
Proof.
  intros Hne. repeat split; intros E.
  - by apply tokenKey_inj in E.
  - by apply tokenKey_userKey in E.
  - symmetry in E. by apply tokenKey_userKey in E.
  - by apply userKey_inj in E.
Qed.

(** X12.  After [setToken], [getToken] of that server resolves to the new
    token, which is also what the storage holds; the stored user name is
    replaced only when a non-empty one is given, and otherwise stays what
    it was; no other server's token or user name changes. *)
Theorem setToken_then_getToken server token username v :
  let v' := (setToken server token username v).2 in
  token_of v' server = Some token /\
  secrets v' !! tokenKey server = Some token /\
  (getUsername server v').1 =
    Ok (if GiteaClient.given username then username else secrets v !! userKey server) /\
  (forall other, other <> server ->
     token_of v' other = token_of v other /\
     (getUsername other v').1 = (getUsername other v).1).
Proof.
  cbv zeta. split; [|split; [|split]].
  - rewrite token_of_eq, setToken_eq. cbn [configCache]. by rewrite lookup_insert_eq.
  - apply setToken_secrets_token.
  - unfold getUsername, secrets_get. cbn [fst]. f_equal.
    rewrite setToken_eq. cbn [secrets].
    destruct username as [u|]; cbn [GiteaClient.given]; [|].
    + destruct (negb (JS.is_empty u)) eqn:E.
      * by rewrite lookup_insert_eq.
      * rewrite lookup_insert_ne; [done|]. intros E'. by apply (tokenKey_userKey server server).
    + rewrite lookup_insert_ne; [done|]. intros E'. by apply (tokenKey_userKey server server).
  - intros other Hne. destruct (other_keys server other Hne) as (K1 & K2 & K3 & K4).
    split.
    + rewrite !token_of_eq, setToken_secrets_other by done.
      rewrite setToken_eq. cbn [configCache]. by rewrite lookup_insert_ne.
    + unfold getUsername, secrets_get. cbn [fst]. f_equal.
      by apply setToken_secrets_other.
Qed.

Lemma deleteToken_token server v : token_of (deleteToken server v).2 server = None.
Proof.
  rewrite token_of_eq, deleteToken_eq. cbn [configCache secrets].
  rewrite lookup_delete_eq.
  rewrite lookup_delete_ne by (intros E; by apply (tokenKey_userKey server server)).
  apply lookup_delete_eq.
Qed.

(** X13.  After [deleteToken] the server has no token and no user name
    and counts as not configured; no other server is affected. *)
Theorem deleteToken_forgets server v :
  let v' := (deleteToken server v).2 in
  token_of v' server = None /\
  (getUsername server v').1 = Ok None /\
  (isConfigured server v').1 = Ok false /\
  (forall other, other <> server ->
     token_of v' other = token_of v other /\
     (getUsername other v').1 = (getUsername other v).1).
Proof.
  cbv zeta.
  pose proof (deleteToken_token server v) as Ht.
  split; [exact Ht|]. split; [|split].
  - unfold getUsername, secrets_get. cbn [fst]. f_equal.
    rewrite deleteToken_eq. cbn [secrets]. apply lookup_delete_eq.
  - rewrite token_of_eq in Ht. unfold isConfigured, mbind, M_bind.
    rewrite getToken_eq. cbn [fst mret M_ret]. by rewrite Ht.
  - intros other Hne. destruct (other_keys server other Hne) as (K1 & K2 & K3 & K4).
    split.
    + rewrite !token_of_eq, deleteToken_eq. cbn [configCache secrets].
      by rewrite !lookup_delete_ne.
    + unfold getUsername, secrets_get. cbn [fst]. f_equal.
      rewrite deleteToken_eq. cbn [secrets]. by rewrite !lookup_delete_ne.
Qed.

Lemma run_coherent op v : coherent v -> coherent (run op v).2.
Proof.
  intros Hv s cfg. destruct op as [server token username|server]; cbn [run].
  - destruct (decide (s = server)) as [->|Hne].
    + rewrite setToken_secrets_token. rewrite setToken_eq. cbn [configCache].
      rewrite lookup_insert_eq. by intros [= <-].
    + destruct (other_keys server s Hne) as (K1 & K2 & _).
      rewrite setToken_secrets_other by done.
      rewrite setToken_eq. cbn [configCache]. rewrite lookup_insert_ne by done. apply Hv.
  - rewrite deleteToken_eq. cbn [configCache secrets].
    destruct (decide (s = server)) as [->|Hne].
    + by rewrite lookup_delete_eq.
    + destruct (other_keys server s Hne) as (K1 & K2 & _).
      rewrite !lookup_delete_ne by done. apply Hv.
Qed.

Lemma run_all_coherent ops v : coherent v -> coherent (run_all ops v).
Proof.
  unfold run_all. revert v. induction ops as [|op ops IH]; intros v Hv; [done|].
  simpl. apply IH. by apply run_coherent.
Qed.

(** X14.  The manager's cache never changes an answer: after any sequence
    of [setToken] and [deleteToken] calls on a new manager, whatever the
    storage held before, [getToken] resolves to what the storage holds
    under the server's token key. *)
Theorem cache_agrees_with_storage stored ops server :
  let v := run_all ops (new stored) in
  token_of v server = secrets v !! tokenKey server.
Proof.
  cbv zeta.
  assert (Hc : coherent (run_all ops (new stored))).
  { apply run_all_coherent. intros s cfg. unfold new. cbn [configCache].
    by rewrite lookup_empty. }
  rewrite token_of_eq.
  destruct (configCache (run_all ops (new stored)) !! server) as [cfg|] eqn:E; [|done].
  symmetry. by apply Hc.
Qed.

(** X15.  [addServer] keeps the list of known servers free of repetitions:
    the server is listed afterwards, every server listed before still is,
    a list without repetitions stays so, and adding the same server again
    changes nothing. *)
Theorem addServer_no_repetition server stored :
  let stored' := addServer server stored in
  server ∈ listServers stored' /\
  (forall s, s ∈ listServers stored -> s ∈ listServers stored') /\
  (NoDup (listServers stored) -> NoDup (listServers stored')) /\
  addServer server stored' = stored'.
Proof.
  cbv zeta. unfold addServer, listServers.
  destruct (bool_decide (server ∈ default [] stored)) eqn:E; cbn [negb].
  - apply bool_decide_eq_true in E. rewrite bool_decide_eq_true_2 by done.
    repeat split; done.
  - apply bool_decide_eq_false in E. cbn [default].
    assert (Hin : server ∈ default [] stored ++ [server]).
    { apply elem_of_app. right. by apply list_elem_of_singleton. }
    split; [exact Hin|]. split; [|split].
    + intros s Hs. apply elem_of_app. by left.
    + intros Hnd. apply NoDup_app. split; [done|]. split; [|apply NoDup_singleton].
      intros x Hx ->%list_elem_of_singleton. done.
    + by rewrite bool_decide_eq_true_2.
Qed.

End TokenVault.

(** ** Disconnecting *)

Module Session.
Import Extension GiteaFileSystemProvider.

(** X16.  [gitea.disconnect] with a server connected deletes the server's
    token and forgets the server, and then clears the provider's cache for
    the empty name, which drops the cached content of every server.  The
    provider's clients are not touched: a client built for the server
    before is still returned, with the token it was built with, although
    the vault no longer has one.  Without a server connected the command
    does nothing. *)
Theorem disconnect_scope H st :
  (GiteaClient.given (currentServer st) = false -> disconnect H st = st) /\
  (forall server,
     currentServer st = Some server -> server <> "" ->
     let st' := disconnect H st in
     currentServer st' = None /\ currentClient st' = None /\
     AuthManager.token_of (authManager st') server = None /\
     cache (fsProvider st') = ∅ /\
     clients (fsProvider st') = clients (fsProvider st) /\
     (forall c, clients (fsProvider st) !! server = Some c ->
        getClient (with_vault H (authManager st')) server (fsProvider st')
        = (Ok c, fsProvider st')) /\
     RepositoryTreeProvider.currentServer (repositoryTreeProvider st') = Some "" /\
     statusBar_text st' = "$(server) Gitea: Not Connected" /\
     gitea_connected st' = Some false /\
     messages st' = messages st ++ ["Disconnected from Gitea"]).
Proof.
  split.
  - intros Hg. unfold disconnect. by rewrite Hg.
  - intros server Hs Hne. cbv zeta. unfold disconnect. rewrite Hs.
    assert (GiteaClient.given (Some server) = true) as ->.
    { by destruct server. }
    cbn [updateStatusBar currentServer currentClient authManager fsProvider
         repositoryTreeProvider statusBar_text statusBar_tooltip gitea_connected
         messages GiteaClient.given or_empty default].
    split; [done|]. split; [done|].
    split; [apply TokenVault.deleteToken_token|].
    split; [apply ProviderState.clearServerCache_empty|]. split; [done|]. split; [|done].
    intros c Hc. by apply ProviderState.getClient_held.
Qed.

Lemma disconnect_scope_witness :
  cache (fsProvider session) !! readme = Some hello /\
  cache (fsProvider (disconnect file_host session)) = ∅.
Proof.
  split; [vm_compute; reflexivity|].
  by apply (proj2 (disconnect_scope file_host session) "gitea.local").
Defined.

End Session.

(** ** The local repository manager: what every call does *)

Module SyncBehaviour.
Import JS LocalRepoManager LocalRepository.

Section Calls.
Context {World : Type} (P : Platform World).

Lemma getSyncStatus_eq repoPath (st : State World) :
  getSyncStatus P repoPath st =
  if negb (existsSync P (path_join P repoPath ".git") (world st)) then (Ok no_status, st)
  else
    let c1 := ("git status --porcelain", repoPath) in
    let c2 := ("git rev-list --left-only --count @{u}...HEAD", repoPath) in
    let c3 := ("git rev-list --right-only --count @{u}...HEAD", repoPath) in
    match exec P c1.1 repoPath (world st) with
    | (Throw e, w1) =>
        (Ok no_status,
         {| world := w1; commands := commands st ++ [c1];
            notifications := notifications st ++
              [ErrorMessage "Error getting sync status: " e] |})
    | (Ok out, w1) =>
        let status a b :=
          {| isDirty := isDirty_of (stdout out); ahead := a; behind := b;
             untracked := untracked_of (stdout out) |} in
        match exec P c2.1 repoPath w1 with
        | (Throw _, w2) =>
            (Ok (status 0%Z 0%Z),
             {| world := w2; commands := commands st ++ [c1; c2];
                notifications := notifications st |})
        | (Ok aheadOutput, w2) =>
            match exec P c3.1 repoPath w2 with
            | (Throw _, w3) =>
                (Ok (status (count_of (stdout aheadOutput)) 0%Z),
                 {| world := w3; commands := commands st ++ [c1; c2; c3];
                    notifications := notifications st |})
            | (Ok behindOutput, w3) =>
                (Ok (status (count_of (stdout aheadOutput)) (count_of (stdout behindOutput))),
                 {| world := w3; commands := commands st ++ [c1; c2; c3];
                    notifications := notifications st |})
            end
        end
    end.
Proof.
  unfold getSyncStatus, try_catch, mbind, M_bind, get_state, mret, M_ret, notify.
  destruct (existsSync P (path_join P repoPath ".git") (world st)); cbn [negb]; [|done].
  cbv beta iota zeta. cbn [fst]. rewrite run_exec_eq.
  destruct (exec P "git status --porcelain" repoPath (world st)) as [[out|e] w1];
    cbn [fst snd world commands notifications]; [|done].
  rewrite run_exec_eq. cbn [world commands notifications].
  destruct (exec P "git rev-list --left-only --count @{u}...HEAD" repoPath w1)
    as [[a|e] w2]; cbn [fst snd]; [|by rewrite <- app_assoc].
  rewrite run_exec_eq. cbn [world commands notifications].
  destruct (exec P "git rev-list --right-only --count @{u}...HEAD" repoPath w2)
    as [[b|e] w3]; cbn [fst snd]; by rewrite <- !app_assoc.
Qed.

(** X17.  In a repository whose status query succeeds, the flags come
    from that query and the counts from the two [rev-list] queries: when
    the first fails (no tracking branch) both counts are 0 and the second is
    not run, when only the second fails [behind] is 0; no failure of theirs
    is shown.  When the status query itself fails, the error is shown and
    the zeroed status returned. *)
Theorem getSyncStatus_fallbacks repoPath (st : State World) :
  existsSync P (path_join P repoPath ".git") (world st) = true ->
  let c1 := ("git status --porcelain", repoPath) in
  let c2 := ("git rev-list --left-only --count @{u}...HEAD", repoPath) in
  let c3 := ("git rev-list --right-only --count @{u}...HEAD", repoPath) in
  (forall e w1,
     exec P c1.1 repoPath (world st) = (Throw e, w1) ->
     getSyncStatus P repoPath st =
     (Ok no_status,
      {| world := w1; commands := commands st ++ [c1];
         notifications := notifications st ++
           [ErrorMessage "Error getting sync status: " e] |})) /\
  (forall out w1,
     exec P c1.1 repoPath (world st) = (Ok out, w1) ->
     let status a b :=
       {| isDirty := isDirty_of (stdout out); ahead := a; behind := b;
          untracked := untracked_of (stdout out) |} in
     (forall e w2,
        exec P c2.1 repoPath w1 = (Throw e, w2) ->
        getSyncStatus P repoPath st =
        (Ok (status 0%Z 0%Z),
         {| world := w2; commands := commands st ++ [c1; c2];
            notifications := notifications st |})) /\
     (forall a w2 e w3,
        exec P c2.1 repoPath w1 = (Ok a, w2) ->
        exec P c3.1 repoPath w2 = (Throw e, w3) ->
        getSyncStatus P repoPath st =
        (Ok (status (count_of (stdout a)) 0%Z),
         {| world := w3; commands := commands st ++ [c1; c2; c3];
            notifications := notifications st |})) /\
     (forall a w2 b w3,
        exec P c2.1 repoPath w1 = (Ok a, w2) ->
        exec P c3.1 repoPath w2 = (Ok b, w3) ->
        getSyncStatus P repoPath st =
        (Ok (status (count_of (stdout a)) (count_of (stdout b))),
         {| world := w3; commands := commands st ++ [c1; c2; c3];
            notifications := notifications st |}))).
Proof.
  intros Hgit c1 c2 c3. split.
  - intros e w1 E1. rewrite getSyncStatus_eq, Hgit. cbn [negb]. cbv zeta.
    fold c1. by rewrite E1.
  - intros out w1 E1 status. split; [|split].
    + intros e w2 E2. rewrite getSyncStatus_eq, Hgit. cbn [negb]. cbv zeta.
      fold c1 c2. by rewrite E1, E2.
    + intros a w2 e w3 E2 E3. rewrite getSyncStatus_eq, Hgit. cbn [negb]. cbv zeta.
      fold c1 c2 c3. by rewrite E1, E2, E3.
    + intros a w2 b w3 E2 E3. rewrite getSyncStatus_eq, Hgit. cbn [negb]. cbv zeta.
      fold c1 c2 c3. by rewrite E1, E2, E3.
Qed.

Lemma isDirty_of_every statusOutput :
  isDirty_of statusOutput = negb (forallb is_empty (untracked_of statusOutput)).
Proof. unfold isDirty_of. by destruct statusOutput. Qed.

Lemma getSyncStatus_returns repoPath (st : State World) :
  exists s st',
    getSyncStatus P repoPath st = (Ok s, st') /\
    isDirty s = negb (forallb is_empty (untracked s)).
Proof.
  rewrite getSyncStatus_eq.
  destruct (existsSync P (path_join P repoPath ".git") (world st)); cbn [negb];
    [|by eexists _, _].
  cbv zeta. cbn [fst].
  destruct (exec P "git status --porcelain" repoPath (world st)) as [[out|e] w1];
    [|by eexists _, _].
  destruct (exec P "git rev-list --left-only --count @{u}...HEAD" repoPath w1)
    as [[a|e] w2].
  2:{ eexists _, _. split; [reflexivity | apply isDirty_of_every]. }
  destruct (exec P "git rev-list --right-only --count @{u}...HEAD" repoPath w2)
    as [[b|e] w3]; (eexists _, _; split; [reflexivity | apply isDirty_of_every]).
Qed.

(** X18.  [getSyncStatus] never throws.  It runs at most the three
    read-only queries, in the repository's directory, and shows at most one
    message.  In every status it returns, [isDirty] is decided by the
    untracked list alone: it is set exactly when some untracked path is not
    empty, so changes to tracked files never set it. *)
Theorem getSyncStatus_total repoPath (st : State World) :
  exists s st',
    getSyncStatus P repoPath st = (Ok s, st') /\
    isDirty s = negb (forallb is_empty (untracked s)) /\
    (exists cmds,
       commands st' = commands st ++ cmds /\
       cmds `prefix_of`
         [("git status --porcelain", repoPath);
          ("git rev-list --left-only --count @{u}...HEAD", repoPath);
          ("git rev-list --right-only --count @{u}...HEAD", repoPath)]) /\
    (notifications st' = notifications st \/
     exists e, notifications st' =
               notifications st ++ [ErrorMessage "Error getting sync status: " e]).
Proof.
  rewrite getSyncStatus_eq.
  destruct (existsSync P (path_join P repoPath ".git") (world st)); cbn [negb].
  2:{ eexists _, _. split; [reflexivity|]. split; [done|]. split; [|by left].
      exists []. split; [by rewrite app_nil_r | by eexists]. }
  cbv zeta. cbn [fst].
  destruct (exec P "git status --porcelain" repoPath (world st)) as [[out|e] w1].
  2:{ eexists _, _. split; [reflexivity|]. split; [done|]. split; [|right; by eexists].
      eexists. split; [reflexivity|]. by eexists. }
  destruct (exec P "git rev-list --left-only --count @{u}...HEAD" repoPath w1)
    as [[a|e] w2].
  2:{ eexists _, _. split; [reflexivity|]. split; [apply isDirty_of_every|].
      split; [|by left]. eexists. split; [reflexivity|]. by eexists. }
  destruct (exec P "git rev-list --right-only --count @{u}...HEAD" repoPath w2)
    as [[b|e] w3];
    (eexists _, _; split; [reflexivity|]; split; [apply isDirty_of_every|];
     split; [|by left]; eexists; split; [reflexivity|]; by eexists).
Qed.

Lemma syncToGitea_eq repoPath branch (st : State World) :
  syncToGitea P repoPath branch st =
  let c1 := ("git add -A", repoPath) in
  let c2 := ("git status --porcelain", repoPath) in
  let failed w cs e :=
    (Ok (), {| world := w; commands := commands st ++ cs;
               notifications := notifications st ++ [ErrorMessage "Sync failed: " e] |}) in
  match exec P c1.1 repoPath (world st) with
  | (Throw e, w1) => failed w1 [c1] e
  | (Ok _, w1) =>
      match exec P c2.1 repoPath w1 with
      | (Throw e, w2) => failed w2 [c1; c2] e
      | (Ok out, w2) =>
          if is_empty (trim (stdout out)) then
            (Ok (), {| world := w2; commands := commands st ++ [c1; c2];
                       notifications := notifications st ++
                         [InformationMessage "✓ No changes to sync"] |})
          else
            match showInputBox P w2 with
            | (None, w3) | (Some EmptyString, w3) =>
                (Ok (), {| world := w3; commands := commands st ++ [c1; c2];
                           notifications := notifications st |})
            | (Some message, w3) =>
                let c3 := (commit_command message, repoPath) in
                let c4 := (push_command branch, repoPath) in
                match exec P c3.1 repoPath w3 with
                | (Throw e, w4) => failed w4 [c1; c2; c3] e
                | (Ok _, w4) =>
                    match exec P c4.1 repoPath w4 with
                    | (Throw e, w5) => failed w5 [c1; c2; c3; c4] e
                    | (Ok _, w5) =>
                        (Ok (), {| world := w5; commands := commands st ++ [c1; c2; c3; c4];
                                   notifications := notifications st ++
                                     [InformationMessage "✓ Changes synced to Gitea"] |})
                    end
                end
            end
      end
  end.
Proof.
  unfold syncToGitea, try_catch, mbind, M_bind, ask_input, notify, mret, M_ret.
  cbv zeta. cbn [fst]. rewrite run_exec_eq.
  destruct (exec P "git add -A" repoPath (world st)) as [[o1|e] w1]; cbn [fst snd]; [|done].
  rewrite run_exec_eq. cbn [world commands notifications].
  destruct (exec P "git status --porcelain" repoPath w1) as [[o2|e] w2]; cbn [fst snd];
    [|by rewrite <- app_assoc].
  destruct (is_empty (trim (stdout o2))); [by rewrite <- app_assoc|].
  cbn [world commands notifications].
  destruct (showInputBox P w2) as [a w3].
  destruct a as [[|c m]|]; cbn [fst snd]; [by rewrite <- app_assoc| |by rewrite <- app_assoc].
  rewrite run_exec_eq. cbn [world commands notifications].
  destruct (exec P (commit_command (String c m)) repoPath w3) as [[o3|e] w4]; cbn [fst snd];
    [|by rewrite <- !app_assoc].
  rewrite run_exec_eq. cbn [world commands notifications].
  destruct (exec P (push_command branch) repoPath w4) as [[o4|e] w5]; cbn [fst snd];
    by rewrite <- !app_assoc.
Qed.

(** X19.  [syncToGitea] never throws and shows at most one message.  The
    commands it runs are a prefix of: stage all, query the status, commit
    with a non-empty message, push the branch; so nothing is pushed that
    was not committed by the same call, and nothing else is ever run. *)
Theorem syncToGitea_commands repoPath branch (st : State World) :
  let st' := (syncToGitea P repoPath branch st).2 in
  (syncToGitea P repoPath branch st).1 = Ok () /\
  (exists cmds message,
     commands st' = commands st ++ cmds /\
     cmds <> [] /\ message <> "" /\
     cmds `prefix_of`
       [("git add -A", repoPath); ("git status --porcelain", repoPath);
        (commit_command message, repoPath); (push_command branch, repoPath)]) /\
  (notifications st' = notifications st \/
   exists n, notifications st' = notifications st ++ [n]).
Proof.
  cbv zeta. rewrite syncToGitea_eq. cbv zeta. cbn [fst].
  destruct (exec P "git add -A" repoPath (world st)) as [[o1|e] w1].
  2:{ split; [done|]. split; [|right; by eexists].
      exists [("git add -A", repoPath)], "m". repeat split; try done. by eexists. }
  destruct (exec P "git status --porcelain" repoPath w1) as [[o2|e] w2].
  2:{ split; [done|]. split; [|right; by eexists].
      eexists [_; _], "m". repeat split; try done. by eexists. }
  destruct (is_empty (trim (stdout o2))).
  { split; [done|]. split; [|right; by eexists].
    eexists [_; _], "m". repeat split; try done. by eexists. }
  destruct (showInputBox P w2) as [[[|c m]|] w3].
  1,3: (split; [done|]; split; [|by left];
        eexists [_; _], "m"; repeat split; try done; by eexists).
  destruct (exec P (commit_command (String c m)) repoPath w3) as [[o3|e] w4].
  2:{ split; [done|]. split; [|right; by eexists].
      eexists [_; _; _], (String c m). repeat split; try done. by eexists. }
  destruct (exec P (push_command branch) repoPath w4) as [[o4|e] w5];
    (split; [done|]; split; [|right; by eexists];
     eexists [_; _; _; _], (String c m); repeat split; try done; by eexists).
Qed.

(** X20.  When the commit-message prompt is dismissed or left empty,
    [syncToGitea] has staged everything and then stops: no commit, no push,
    no message, and the changes stay staged. *)
Theorem syncToGitea_cancelled repoPath branch (st : State World) o1 w1 out w2 answer w3 :
  exec P "git add -A" repoPath (world st) = (Ok o1, w1) ->
  exec P "git status --porcelain" repoPath w1 = (Ok out, w2) ->
  is_empty (trim (stdout out)) = false ->
  showInputBox P w2 = (answer, w3) ->
  GiteaClient.given answer = false ->
  syncToGitea P repoPath branch st =
  (Ok (), {| world := w3;
             commands := commands st ++
               [("git add -A", repoPath); ("git status --porcelain", repoPath)];
             notifications := notifications st |}).
Proof.
  intros E1 E2 Hb E3 Hg. rewrite syncToGitea_eq. cbv zeta. cbn [fst].
  rewrite E1, E2, Hb, E3. by destruct answer as [[|c m]|].
Qed.

(** X21.  [syncFromGitea] never throws: it runs the one command
    [git pull origin <branch>], with the branch name as given, and shows
    one message, the command's output on success and the error otherwise. *)
Theorem syncFromGitea_one_command repoPath branch (st : State World) :
  let st' := (syncFromGitea P repoPath branch st).2 in
  let r := exec P ("git pull origin " +:+ branch) repoPath (world st) in
  (syncFromGitea P repoPath branch st).1 = Ok () /\
  world st' = r.2 /\
  commands st' = commands st ++ [("git pull origin " +:+ branch, repoPath)] /\
  notifications st' = notifications st ++
    [match r.1 with
     | Ok out => InformationMessage ("✓ Pulled latest changes:" +:+ String newline (stdout out))
     | Throw e => ErrorMessage "Pull failed: " e
     end].
Proof.
  cbv zeta. unfold syncFromGitea, try_catch, mbind, M_bind, notify.
  rewrite run_exec_eq.
  by destruct (exec P ("git pull origin " +:+ branch) repoPath (world st)) as [[out|e] w1].
Qed.

End Calls.

Lemma getSyncStatus_fallbacks_witness :
  getSyncStatus (scripted true) "/home/bob/notes"
    (answers ["?? new.txt" +:+ String newline ""]) =
  (Ok {| isDirty := true; ahead := 0; behind := 0; untracked := ["new.txt"] |},
   {| world := [];
      commands := [("git status --porcelain", "/home/bob/notes");
                   ("git rev-list --left-only --count @{u}...HEAD", "/home/bob/notes")];
      notifications := [] |}).
Proof.
  destruct (getSyncStatus_fallbacks (scripted true) "/home/bob/notes"
              (answers ["?? new.txt" +:+ String newline ""]) eq_refl) as [_ Hok].
  destruct (Hok _ _ eq_refl) as (Hfirst & _).
  exact (Hfirst _ _ eq_refl).
Defined.

Lemma syncToGitea_cancelled_witness :
  syncToGitea (scripted true) "/home/bob/notes" "main"
    (answers [""; "A  notes.txt" +:+ String newline ""]) =
  (Ok (), {| world := [];
             commands := [("git add -A", "/home/bob/notes");
                          ("git status --porcelain", "/home/bob/notes")];
             notifications := [] |}).
Proof.
  eapply (syncToGitea_cancelled (scripted true) "/home/bob/notes" "main"
            (answers [""; "A  notes.txt" +:+ String newline ""]));
    reflexivity.
Defined.

Lemma concat_map_app f a b : concat_map f (a +:+ b) = concat_map f a +:+ concat_map f b.
Proof.
  induction a as [|c a IH]; [done|]. simpl. rewrite IH.
  by rewrite StringFacts.append_assoc.
Qed.

Lemma filter_chars_app p a b : filter_chars p (a +:+ b) = filter_chars p a +:+ filter_chars p b.
Proof. induction a as [|c a IH]; [done|]. simpl. destruct (p c); simpl; by rewrite IH. Qed.

Lemma escape_quotes_id message : lacks quote message = true -> escape_quotes message = message.
Proof.
  induction message as [|c m IH]; [done|].
  unfold lacks. cbn [all_chars]. intros [Hc Hm]%andb_true_iff.
  unfold escape_quotes in *. cbn [concat_map].
  apply negb_true_iff in Hc. rewrite Hc. simpl. f_equal. by apply IH.
Qed.



End SyncBehaviour.

(** ** The repository tree's status icon and label *)

Module StatusDisplay.
Import JS LocalRepoManager RepositoryTreeProvider.

(** X23.  The label is empty exactly when nothing is to be reported: no
    positive count and no untracked path; otherwise it is a bracketed
    list. *)
Theorem getSyncStatusLabel_empty status :
  (getSyncStatusLabel status = "" <->
   (ahead status <= 0)%Z /\ (behind status <= 0)%Z /\ untracked status = []) /\
  (getSyncStatusLabel status <> "" ->
   startsWith " [" (getSyncStatusLabel status) = true /\
   endsWith "]" (getSyncStatusLabel status) = true).
Proof.
  unfold getSyncStatusLabel. cbv zeta.
  destruct (0 <? ahead status)%Z eqn:Ea; destruct (0 <? behind status)%Z eqn:Eb;
    destruct (untracked status) as [|u us] eqn:Eu;
    cbn [List.length Nat.ltb Nat.leb app];
    try apply Z.ltb_lt in Ea; try apply Z.ltb_lt in Eb;
    try apply Z.ltb_ge in Ea; try apply Z.ltb_ge in Eb;
    (split; [split; [intros E; try discriminate E; done | intros (? & ? & ?); try lia; done]|]);
    intros Hne; try done;
    (split; [reflexivity|]);
    rewrite <- ?StringFacts.append_assoc; apply StringFacts.endsWith_app.
Qed.

(** X24.  The icon shown for a status that [getSyncStatus] returned: the
    up-to-date mark appears exactly when no untracked path is listed and
    nothing is to be pulled, and without an untracked path neither the
    uncommitted-changes icon nor the upload icon is ever shown, whatever
    the working copy holds.  A directory that is no repository shows the
    up-to-date mark and no label. *)
Theorem getSyncStatusIcon_of_status {World} (P : Platform World) repoPath st s st' :
  getSyncStatus P repoPath st = (Ok s, st') ->
  (getSyncStatusIcon s = "check" <->
   forallb is_empty (untracked s) = true /\ (behind s <= 0)%Z) /\
  (untracked s = [] ->
   getSyncStatusIcon s = "check" \/ getSyncStatusIcon s = "cloud-download") /\
  (existsSync P (path_join P repoPath ".git") (world st) = false ->
   getSyncStatusIcon s = "check" /\ getSyncStatusLabel s = "").
Proof.
  intros Hs.
  destruct (SyncBehaviour.getSyncStatus_returns P repoPath st) as (s0 & st0 & E & Hd).
  rewrite E in Hs. injection Hs as <- <-.
  split; [|split].
  - unfold getSyncStatusIcon. rewrite Hd.
    destruct (forallb is_empty (untracked s0)); cbn [negb andb];
      destruct (0 <? behind s0)%Z eqn:Eb;
      try apply Z.ltb_lt in Eb; try apply Z.ltb_ge in Eb.
    + split; [done | intros [_ ?]; lia].
    + by split.
    + destruct (0 <? ahead s0)%Z; split; try done; by intros [? _].
    + destruct (0 <? ahead s0)%Z; split; try done; by intros [? _].
  - intros Hu. unfold getSyncStatusIcon. rewrite Hd, Hu. cbn [forallb negb andb].
    destruct (0 <? behind s0)%Z; auto.
  - intros Hno. rewrite SyncBehaviour.getSyncStatus_eq, Hno in E.
    by injection E as <- <-.
Qed.

Lemma getSyncStatusIcon_of_status_witness :
  getSyncStatusIcon
    {| isDirty := false; ahead := 0; behind := 0; untracked := [] |} = "check".
Proof.
  destruct (getSyncStatusIcon_of_status (scripted true) "/home/bob/notes"
              (answers [" M a.txt" +:+ String newline ""]) _ _ eq_refl) as (Hcheck & _).
  apply Hcheck. split; [reflexivity | done].
Defined.

End StatusDisplay.

(** ** Addresses, server URLs and settings *)

Module Addressing.
Import JS UriParser StringFacts MoreStrings.

(** X25.  [isGiteaUri] accepts exactly the strings on which
    [parseGiteaUri] gets past its scheme check: every string that parses is
    accepted, an accepted string either parses or lacks the owner and
    repository segments, and a rejected string never parses.  A parsed
    address always has a non-empty ref.  Every address built by
    [createGiteaUri] from well-formed components is accepted. *)
Theorem isGiteaUri_agrees uri :
  (forall g, parseGiteaUri uri = Ok g ->
     isGiteaUri uri = true /\ exists r, ref g = Some r /\ r <> "") /\
  (isGiteaUri uri = true ->
   parseGiteaUri uri = Throw (MalformedAddress MissingOwnerRepo) \/
   exists g, parseGiteaUri uri = Ok g) /\
  (isGiteaUri uri = false ->
   exists cause, parseGiteaUri uri = Throw (MalformedAddress cause) /\
                 cause <> MissingOwnerRepo) /\
  (forall server owner repo path r,
     uri = createGiteaUri server owner repo path (Some r) ->
     Address.valid server owner repo path r = true ->
     isGiteaUri uri = true).
Proof.
  assert (Hok : forall g, parseGiteaUri uri = Ok g ->
            isGiteaUri uri = true /\ exists r, ref g = Some r /\ r <> "").
  { intros g. unfold parseGiteaUri, isGiteaUri.
    destruct (URL.parse uri) as [|sch|u]; [done..|].
    destruct (String.eqb (URL.protocol u) "gitea:"); cbn [negb]; [|done].
    destruct (_ <? _)%nat; [done|]. intros [= <-]. split; [done|].
    cbn [ref]. eexists. split; [reflexivity|].
    unfold or_HEAD. destruct (URL.searchParams_get "ref" u) as [[|c r]|]; done. }
  split; [exact Hok|]. split; [|split].
  - unfold parseGiteaUri, isGiteaUri.
    destruct (URL.parse uri) as [|sch|u]; [done..|].
    intros ->. cbn [negb]. destruct (_ <? _)%nat; [by left | right; by eexists].
  - unfold parseGiteaUri, isGiteaUri.
    destruct (URL.parse uri) as [|sch|u]; [by eexists | by eexists |].
    intros ->. cbn [negb]. by eexists.
  - intros server owner repo path r -> Hv.
    unfold Address.valid in Hv.
    apply andb_true_iff in Hv as [Hv Hr]. apply andb_true_iff in Hv as [Hv Hp].
    apply andb_true_iff in Hv as [Hv Hrepo]. apply andb_true_iff in Hv as [Hs Ho].
    rewrite UriCodec.createGiteaUri_shape.
    match goal with |- isGiteaUri (_ +:+ _ +:+ Address.ref_part ?x) = true =>
      pose proof (UriCodec.parseGiteaUri_address server owner repo path x Hs Ho Hrepo Hp)
        as Hparse end.
    unfold parseGiteaUri in Hparse. unfold isGiteaUri.
    match type of Hparse with context [URL.parse ?a] =>
      destruct (URL.parse a) as [|sch|u] end.
    + discriminate Hparse.
      cbn [default]. intros ref0. destruct (_ && _); [by intros [= <-] | done].
    + discriminate Hparse.
      cbn [default]. intros ref0. destruct (_ && _); [by intros [= <-] | done].
    + destruct (String.eqb (URL.protocol u) "gitea:"); [done|].
      discriminate Hparse.
      cbn [default]. intros ref0. destruct (_ && _); [by intros [= <-] | done].
Qed.

Lemma isGiteaUri_agrees_witness : isGiteaUri readme = true.
Proof.
  apply (proj1 (isGiteaUri_agrees readme)
           {| server := "gitea.local"; owner := "bob"; repo := "foo";
              path := "README.md"; ref := Some "HEAD" |}).
  vm_compute. reflexivity.
Defined.

Lemma strip_getServerUrl server :
  GiteaClient.strip_http_scheme (getServerUrl server) = server.
Proof. unfold getServerUrl. by destruct (_ || _). Qed.

Lemma validateHost_accepts value :
  SettingsCommands.validateHost value = None ->
  startsWith "http://" value || startsWith "https://" value = true /\
  includes "/api/v1" value = true.
Proof.
  unfold SettingsCommands.validateHost.
  destruct (is_empty value); [done|].
  destruct (startsWith "http://" value), (startsWith "https://" value);
    cbn [negb andb]; try done; by destruct (includes "/api/v1" value).
Qed.

(** X26.  [getServerUrl] puts a scheme before whatever it is given,
    without looking for one: [http://] when the name contains [localhost]
    or [127.0.0.1], [https://] otherwise, and removing the scheme again
    gives the argument back.  So for a host that the host setting's
    validator accepts, which starts with a scheme already, the base URL of
    a client built from [getServerUrl] starts with two schemes. *)
Theorem getServerUrl_adds_scheme server :
  getServerUrl server =
    (if includes "localhost" server || includes "127.0.0.1" server
     then "http://" else "https://") +:+ server /\
  GiteaClient.strip_http_scheme (getServerUrl server) = server /\
  (SettingsCommands.validateHost server = None ->
   GiteaClient.normalize (getServerUrl server) =
     (if includes "localhost" server || includes "127.0.0.1" server
      then "http://" else "https://") +:+ GiteaClient.normalize server /\
   startsWith "http://" (GiteaClient.normalize server)
     || startsWith "https://" (GiteaClient.normalize server) = true).
Proof.
  split; [|split].
  - unfold getServerUrl. by destruct (_ || _).
  - apply strip_getServerUrl.
  - intros [Hs Hi]%validateHost_accepts.
    apply includes_length in Hi.
    assert (Hn : GiteaClient.normalize server =
                 if endsWith "/api/v1" server then server else server +:+ "/api/v1").
    { unfold GiteaClient.normalize.
      by destruct (startsWith "http://" server), (startsWith "https://" server). }
    split; [|apply ClientInvariants.normalize_scheme].
    rewrite Hn. unfold getServerUrl, GiteaClient.normalize.
    destruct (includes "localhost" server || includes "127.0.0.1" server).
    + rewrite (startsWith_app "http://" server). cbn [negb andb].
      rewrite (endsWith_app_long "/api/v1" "http://" server Hi).
      destruct (endsWith "/api/v1" server); [done|]. by rewrite append_assoc.
    + rewrite (startsWith_app "https://" server). rewrite andb_false_r.
      rewrite (endsWith_app_long "/api/v1" "https://" server Hi).
      destruct (endsWith "/api/v1" server); [done|]. by rewrite append_assoc.
Qed.

Lemma getServerUrl_adds_scheme_witness :
  GiteaClient.normalize (getServerUrl "http://localhost:3000/api/v1") =
  "http://http://localhost:3000/api/v1".
Proof.
  destruct (proj2 (proj2 (getServerUrl_adds_scheme "http://localhost:3000/api/v1")) eq_refl)
    as [-> _].
  reflexivity.
Defined.

End Addressing.

Module Configured.
Import JS SettingState.

(** X27.  The setting state is the sum of the two flags, 1 for a missing
    token and 2 for a missing host; the extension is configured exactly
    when both are non-empty, and then a client built without arguments
    takes the configured token and the normalized configured host. *)
Theorem setting_state_flags H :
  getSettingState H =
    ((if is_empty (Settings.getToken H) then NO_TOKEN else OK) +
     (if is_empty (Settings.getHost H) then NO_HOST else OK))%Z /\
  (getSettingState H = NO_TOKEN_AND_HOST <->
   Settings.getToken H = "" /\ Settings.getHost H = "") /\
  (isConfigured H = true <->
   Settings.getToken H <> "" /\ Settings.getHost H <> "") /\
  (isConfigured H = true ->
   let c := GiteaClient.constructor H None None in
   GiteaClient.token c = Settings.getToken H /\ GiteaClient.token c <> "" /\
   GiteaClient.baseUrl c = GiteaClient.normalize (Settings.getHost H)).
Proof.
  unfold isConfigured, getSettingState. cbv zeta.
  destruct (Settings.getToken H) as [|a t] eqn:Et, (Settings.getHost H) as [|b h] eqn:Eh;
    cbn [is_empty]; (split; [reflexivity|]); (split; [split; [try done | by intros [? ?]]|]);
    (split; [split; [try done; by intros _ | try done; by intros [? ?]]|]);
    try done.
  intros _. unfold GiteaClient.constructor. cbn [GiteaClient.given andb].
  cbn [GiteaClient.token GiteaClient.baseUrl]. by rewrite Et, Eh.
Qed.

End Configured.

(** ** Directory listings *)

Module Listings.
Import GiteaFileSystemProvider.

Lemma to_entry_to_tuple item :
  match GiteaClient.to_entry item, to_tuple item with
  | Ok e, Ok t =>
      GiteaClient.name e = t.1 /\
      (GiteaClient.type e = GiteaClient.type_dir <-> t.2 = Directory) /\
      (GiteaClient.type e = GiteaClient.type_file <-> t.2 = File)
  | Throw e1, Throw e2 => e1 = TypeError /\ e2 = TypeError /\ item = JNull
  | _, _ => False
  end.
Proof.
  destruct item; try done;
    unfold GiteaClient.to_entry, to_tuple; cbn [get_property];
    match goal with |- context [is_dir ?v] => destruct (is_dir v) end; done.
Qed.

Lemma map_result_agree items :
  match GiteaClient.map_result GiteaClient.to_entry items,
        GiteaClient.map_result to_tuple items with
  | Ok entries, Ok tuples =>
      Forall2 (fun e t =>
                 GiteaClient.name e = t.1 /\
                 (GiteaClient.type e = GiteaClient.type_dir <-> t.2 = Directory) /\
                 (GiteaClient.type e = GiteaClient.type_file <-> t.2 = File))
              entries tuples /\
      List.length entries = List.length items
  | Throw e1, Throw e2 => e1 = TypeError /\ e2 = TypeError /\ JNull ∈ items
  | _, _ => False
  end.
Proof.
  induction items as [|item items IH]; [by split; [constructor|]|].
  cbn [GiteaClient.map_result].
  pose proof (to_entry_to_tuple item) as Hi.
  destruct (GiteaClient.to_entry item) as [e|e1], (to_tuple item) as [t|e2]; try done.
  - destruct (GiteaClient.map_result GiteaClient.to_entry items) as [es|e1],
             (GiteaClient.map_result to_tuple items) as [ts|e2]; try done.
    + destruct IH as [IH Hl]. split; [by constructor | simpl; by rewrite Hl].
    + destruct IH as (-> & -> & Hin). repeat split. by apply elem_of_cons; right.
  - destruct Hi as (-> & -> & ->). repeat split. by apply elem_of_cons; left.
Qed.

(** X28.  The two directory listings classify a response alike: entry by
    entry the same name, and a directory exactly for the type [dir], so
    that symbolic links and submodules count as files in both.  Both fail
    on the same responses, those that are no array or hold a [null] item;
    then the client's [getRepositoryContents] returns the empty list, for
    the whole directory. *)
Theorem listings_agree data :
  match GiteaClient.map_array GiteaClient.to_entry data,
        GiteaClient.map_array to_tuple data with
  | Ok entries, Ok tuples =>
      Forall2 (fun e t =>
                 GiteaClient.name e = t.1 /\
                 (GiteaClient.type e = GiteaClient.type_dir <-> t.2 = Directory) /\
                 (GiteaClient.type e = GiteaClient.type_file <-> t.2 = File))
              entries tuples /\
      exists items, data = JArr items /\ List.length entries = List.length items
  | Throw e1, Throw e2 =>
      e1 = TypeError /\ e2 = TypeError /\
      (forall items, data = JArr items -> JNull ∈ items) /\
      forall H owner repo path ref st st1,
        GiteaClient.request H (GiteaClient.contents_endpoint owner repo path ref) GET None st
          = (Ok data, st1) ->
        GiteaClient.getRepositoryContents H owner repo path ref st = (Ok [], st1)
  | _, _ => False
  end.
Proof.
  assert (Hswallow : forall e, GiteaClient.map_array GiteaClient.to_entry data = Throw e ->
    forall H owner repo path ref st st1,
      GiteaClient.request H (GiteaClient.contents_endpoint owner repo path ref) GET None st
        = (Ok data, st1) ->
      GiteaClient.getRepositoryContents H owner repo path ref st = (Ok [], st1)).
  { intros e He H owner repo path ref st st1 Hreq.
    unfold GiteaClient.getRepositoryContents, try_catch, mbind, M_bind, lift_result.
    by rewrite Hreq, He. }
  destruct data as [|b|n|s|items|fields];
    try (cbn [GiteaClient.map_array] in *; repeat split; try done; by eauto).
  pose proof (map_result_agree items) as Hm.
  cbn [GiteaClient.map_array] in *.
  destruct (GiteaClient.map_result GiteaClient.to_entry items) as [es|e1],
           (GiteaClient.map_result to_tuple items) as [ts|e2]; try done.
  - destruct Hm as [Hf Hl]. split; [done|]. by exists items.
  - destruct Hm as (-> & -> & Hin). repeat split; [by intros ? [= <-] | by eauto].
Qed.

End Listings.
